(** * A forwarding proxy: request parsing, blocklist, CONNECT tunnel, HTTP forwarding

    Shallow embedding of [src/proxy.py].

    - A Python [bytes] value is a [list byte]; a Python [str] is a list of
      Unicode code points ([list N]).  [decode] is the UTF-8 decoder with
      [errors="ignore"], [encode] the UTF-8 encoder.
    - The sockets, the connection attempt, the readiness wait and the log file
      are the environment: an [Env] holds, for each of them, the answers the
      environment is going to give, in order.  A handler is a function from
      [Env] to an outcome, the remaining environment and the list of calls it
      made ([Event]s), in order.
    - Python exceptions are the [Raise] results of an error monad; [try],
      [except] and [finally] are combinators on it.
    - The loops take fuel.  Every turn of a loop consumes one answer of the
      environment, so the fuel a loop is given, one more than the answers
      left, is never used up: every handler ends ([finishes]), and the
      properties below hold with no assumption on fuel.

    Limits of the embedding.  [lower], [upper] and [py_int] follow Python on
    ASCII letters and digits and leave other code points alone (Python maps
    the letters of every script, and [int] reads the decimal digits of every
    script and refuses more than 4300 digits).  An environment gives finitely
    many answers and is silent afterwards; the bytes a [recv] returns are the
    environment's answer, whatever the buffer size asked for.  The configured
    socket timeout is taken to be a valid number, [select], [log] and [close]
    do not fail, and [load_blocked_domains] has returned the set [blocked]. *)

From Stdlib Require Import List ZArith NArith Bool Lia Ascii String.
From Stdlib Require Import Strings.Byte.
From stdpp Require Import base decidable countable list gmap.
Import ListNotations.

Local Open Scope list_scope.
Local Open Scope N_scope.

(** ** Python values *)

Abbreviation str := (list N).
Abbreviation bytes := (list byte).

#[global] Instance byte_eq_dec : EqDecision byte.
Proof.
  intros x y. destruct (Byte.eqb x y) eqn:E.
  - left. apply Byte.byte_dec_bl. exact E.
  - right. intros Heq. apply Byte.byte_dec_lb in Heq. congruence.
Defined.

(** A string literal of the source, as code points and as bytes. *)
Definition lit (s : string) : str := map N_of_ascii (list_ascii_of_string s).
Definition blit (s : string) : bytes := list_byte_of_string s.

Definition crlf : str := [13; 10].
Definition bcrlf : bytes := [x0d; x0a].

(** ** Sequence operations shared by [str] and [bytes] *)

Section Sequences.
Context {A : Type} `{EqDecision A}.

(** [s.startswith(p)] *)
Fixpoint startswith (p s : list A) : bool :=
  match p, s with
  | [], _ => true
  | _ :: _, [] => false
  | x :: p', y :: s' => bool_decide (x = y) && startswith p' s'
  end.

(** [sub in s] *)
Fixpoint contains (sub s : list A) : bool :=
  startswith sub s ||
  match s with
  | [] => false
  | _ :: s' => contains sub s'
  end.

(** [not s] for a sequence: it is empty. *)
Definition is_empty (s : list A) : bool :=
  match s with [] => true | _ :: _ => false end.

(** The split budget of [s.split(sep, maxsplit)]: [None] is no limit. *)
Definition may_split (budget : option nat) : bool :=
  match budget with
  | None => true
  | Some O => false
  | Some (S _) => true
  end.

Definition spend (budget : option nat) : option nat :=
  match budget with
  | None => None
  | Some n => Some (Nat.pred n)
  end.

(** [s.split(sep, maxsplit)] for a non-empty separator, scanning left to
    right.  [skip] counts the characters of a separator just matched that
    are still to be dropped.  The head of the result is the piece that
    starts at the current position. *)
Fixpoint split_from (sep : list A) (budget : option nat) (skip : nat)
    (s : list A) : list (list A) :=
  match s with
  | [] => [[]]
  | c :: s' =>
      match skip with
      | S k => split_from sep budget k s'
      | O =>
          if may_split budget && startswith sep s
          then [] :: split_from sep (spend budget) (Nat.pred (length sep)) s'
          else match split_from sep budget O s' with
               | piece :: pieces => (c :: piece) :: pieces
               | [] => [[c]]
               end
      end
  end.

Definition split (sep : list A) (budget : option nat) (s : list A)
    : list (list A) :=
  split_from sep budget O s.

(** What is left of [s] after the [n]-th occurrence of [c], if there is one. *)
Fixpoint after_nth (c : A) (n : nat) (s : list A) {struct s}
    : option (list A) :=
  match n with
  | O => Some s
  | S k =>
      match s with
      | [] => None
      | x :: s' => if decide (x = c) then after_nth c k s' else after_nth c n s'
      end
  end.

Fixpoint dropwhile (p : A -> bool) (s : list A) : list A :=
  match s with
  | [] => []
  | c :: s' => if p c then dropwhile p s' else s
  end.
End Sequences.

(** ** [str] methods *)

(** The code points [str.isspace] accepts, which [split()] and [strip()] use. *)
Definition isspace (c : N) : bool :=
  ((9 <=? c) && (c <=? 13)) || ((28 <=? c) && (c <=? 32)) ||
  (c =? 133) || (c =? 160) || (c =? 5760) ||
  ((8192 <=? c) && (c <=? 8202)) || (c =? 8232) || (c =? 8233) ||
  (c =? 8239) || (c =? 8287) || (c =? 12288).

Definition lower_char (c : N) : N :=
  if (65 <=? c) && (c <=? 90) then c + 32 else c.

Definition upper_char (c : N) : N :=
  if (97 <=? c) && (c <=? 122) then c - 32 else c.

Definition lower (s : str) : str := map lower_char s.
Definition upper (s : str) : str := map upper_char s.

(** [s.strip()] *)
Definition strip (s : str) : str :=
  rev (dropwhile isspace (rev (dropwhile isspace s))).

Definition cons_word (w : str) (ws : list str) : list str :=
  match w with
  | [] => ws
  | _ :: _ => w :: ws
  end.

(** The word that starts at the current position, and the words after it. *)
Fixpoint words_from (s : str) : str * list str :=
  match s with
  | [] => ([], [])
  | c :: s' =>
      let (w, ws) := words_from s' in
      if isspace c then ([], cons_word w ws) else (c :: w, ws)
  end.

(** [s.split()]: the maximal runs of characters that are not white space. *)
Definition split_ws (s : str) : list str :=
  let (w, ws) := words_from s in cons_word w ws.

(** ** UTF-8 *)

Definition is_cont (b : N) : bool := (128 <=? b) && (b <=? 191).

(** The second byte a lead byte accepts: no overlong form, no surrogate,
    nothing above U+10FFFF. *)
Definition second_ok (b0 b1 : N) : bool :=
  is_cont b1 &&
  negb ((b0 =? 224) && (b1 <? 160)) &&
  negb ((b0 =? 237) && (160 <=? b1)) &&
  negb ((b0 =? 240) && (b1 <? 144)) &&
  negb ((b0 =? 244) && (144 <=? b1)).

Definition low6 (b : N) : N := N.land b 63.

(** [bs.decode(errors="ignore")] on the values of the bytes: a byte that
    cannot start a character is dropped; when a character breaks off, the
    bytes read so far are dropped and decoding resumes at the offending
    byte; a character cut by the end of the data is dropped. *)
Fixpoint decode_from (bs : list N) : str :=
  match bs with
  | [] => []
  | b0 :: t0 =>
      if b0 <? 128 then b0 :: decode_from t0
      else if (194 <=? b0) && (b0 <=? 223) then
        match t0 with
        | [] => []
        | b1 :: t1 =>
            if is_cont b1
            then (N.shiftl (N.land b0 31) 6 + low6 b1) :: decode_from t1
            else decode_from t0
        end
      else if (224 <=? b0) && (b0 <=? 239) then
        match t0 with
        | [] => []
        | b1 :: t1 =>
            if second_ok b0 b1 then
              match t1 with
              | [] => []
              | b2 :: t2 =>
                  if is_cont b2
                  then (N.shiftl (N.land b0 15) 12 + N.shiftl (low6 b1) 6
                        + low6 b2) :: decode_from t2
                  else decode_from t1
              end
            else decode_from t0
        end
      else if (240 <=? b0) && (b0 <=? 244) then
        match t0 with
        | [] => []
        | b1 :: t1 =>
            if second_ok b0 b1 then
              match t1 with
              | [] => []
              | b2 :: t2 =>
                  if is_cont b2 then
                    match t2 with
                    | [] => []
                    | b3 :: t3 =>
                        if is_cont b3
                        then (N.shiftl (N.land b0 7) 18 + N.shiftl (low6 b1) 12
                              + N.shiftl (low6 b2) 6 + low6 b3) :: decode_from t3
                        else decode_from t2
                    end
                  else decode_from t1
              end
            else decode_from t0
        end
      else decode_from t0
  end.

Definition decode (bs : bytes) : str := decode_from (map Byte.to_N bs).

Definition byte_of (n : N) : byte :=
  match Byte.of_N n with
  | Some b => b
  | None => x00
  end.

Definition encode_char (c : N) : bytes :=
  if c <? 128 then [byte_of c]
  else if c <? 2048 then
    [byte_of (192 + N.shiftr c 6); byte_of (128 + low6 c)]
  else if c <? 65536 then
    [byte_of (224 + N.shiftr c 12); byte_of (128 + low6 (N.shiftr c 6));
     byte_of (128 + low6 c)]
  else
    [byte_of (240 + N.shiftr c 18); byte_of (128 + low6 (N.shiftr c 12));
     byte_of (128 + low6 (N.shiftr c 6)); byte_of (128 + low6 c)].

(** [s.encode()].  The strings this program encodes are built from decoded
    ones, which hold no surrogate, the one code point Python refuses. *)
Definition encode (s : str) : bytes := flat_map encode_char s.

(** ** [int(s)] *)

Definition digit_val (c : N) : option Z :=
  if (48 <=? c) && (c <=? 57) then Some (Z.of_N (c - 48)) else None.

(** Digits, where one underscore may stand between two digits. *)
Fixpoint digits_from (acc : Z) (after_digit : bool) (s : str) : option Z :=
  match s with
  | [] => if after_digit then Some acc else None
  | c :: s' =>
      if c =? 95 then
        if after_digit then digits_from acc false s' else None
      else
        match digit_val c with
        | Some d => digits_from (10 * acc + d)%Z true s'
        | None => None
        end
  end.

(** [int(s)]; [None] stands for the [ValueError]. *)
Definition py_int (s : str) : option Z :=
  match strip s with
  | [] => None
  | c :: t =>
      if c =? 45 then Z.opp <$> digits_from 0%Z false t
      else if c =? 43 then digits_from 0%Z false t
      else digits_from 0%Z false (c :: t)
  end.

(** ** Exceptions *)

Inductive Exn : Type :=
| SocketTimeout   (* socket.timeout *)
| ValueError
| IndexError
| KeyError
| OSError.        (* any other failure of a socket call *)

#[global] Instance Exn_eq_dec : EqDecision Exn.
Proof. solve_decision. Defined.

Inductive Result (A : Type) : Type :=
| Ok (a : A)
| Raise (e : Exn).
Arguments Ok {A} a.
Arguments Raise {A} e.

Definition rbind {A B : Type} (r : Result A) (k : A -> Result B) : Result B :=
  match r with
  | Ok a => k a
  | Raise e => Raise e
  end.

Definition or_raise {A : Type} (e : Exn) (o : option A) : Result A :=
  match o with
  | Some a => Ok a
  | None => Raise e
  end.

(** [a, b = l] *)
Definition unpack2 {A : Type} (l : list A) : Result (A * A) :=
  match l with
  | [a; b] => Ok (a, b)
  | _ => Raise ValueError
  end.

(** [a, b, c = l] *)
Definition unpack3 {A : Type} (l : list A) : Result (A * A * A) :=
  match l with
  | [a; b; c] => Ok (a, b, c)
  | _ => Raise ValueError
  end.

(** [l[i]] *)
Definition index {A : Type} (l : list A) (i : nat) : Result A :=
  or_raise IndexError (nth_error l i).

(** ** The header dictionary

    A Python [dict] keeps its keys in the order of their first insertion;
    an assignment to a key it holds replaces the value in place. *)

Abbreviation dict := (list (str * str)).

Fixpoint dict_set (k v : str) (d : dict) : dict :=
  match d with
  | [] => [(k, v)]
  | (k', v') :: d' =>
      if decide (k' = k) then (k, v) :: d' else (k', v') :: dict_set k v d'
  end.

Fixpoint dict_lookup (k : str) (d : dict) : option str :=
  match d with
  | [] => None
  | (k', v') :: d' => if decide (k' = k) then Some v' else dict_lookup k d'
  end.

(** [d.get(k, default)], [k in d] and [d[k]] *)
Definition dict_get (k : str) (default : str) (d : dict) : str :=
  match dict_lookup k d with
  | Some v => v
  | None => default
  end.

Definition dict_mem (k : str) (d : dict) : bool :=
  match dict_lookup k d with
  | Some _ => true
  | None => false
  end.

Definition dict_item (k : str) (d : dict) : Result str :=
  or_raise KeyError (dict_lookup k d).

(** ** HTTP parsing *)

(** One turn of the loop of [parse_headers] (lines 61-64). *)
Definition parse_header_line (headers : dict) (line : str) : Result dict :=
  if contains (lit ":") line then
    rbind (unpack2 (split (lit ":") (Some 1%nat) line)) (fun '(k, v) =>
    Ok (dict_set (lower k) (strip v) headers))
  else Ok headers.

Fixpoint parse_header_lines (headers : dict) (lines : list str) : Result dict :=
  match lines with
  | [] => Ok headers
  | line :: lines' =>
      rbind (parse_header_line headers line) (fun headers' =>
      parse_header_lines headers' lines')
  end.

(** [parse_headers] (lines 57-65) *)
Definition parse_headers (header_bytes : bytes) : Result (str * dict) :=
  let lines := split crlf None (decode header_bytes) in
  rbind (index lines 0) (fun request_line =>
  rbind (parse_header_lines [] (tl lines)) (fun headers =>
  Ok (request_line, headers))).

(** The destination of a CONNECT request (lines 104-106). *)
Definition connect_destination (target : str) : Result (str * Z) :=
  rbind (unpack2 (split (lit ":") None target)) (fun '(dest_host, dest_port) =>
  let dest_host := lower dest_host in
  rbind (or_raise ValueError (py_int dest_port)) (fun dest_port =>
  Ok (dest_host, dest_port))).

(** The destination of a plaintext request (lines 122-129). *)
Definition forward_destination (headers : dict) : Result (str * Z) :=
  let host := dict_get (lit "host") [] headers in
  let port := 80%Z in
  rbind (if contains (lit ":") host then
           rbind (unpack2 (split (lit ":") None host)) (fun '(host, port) =>
           rbind (or_raise ValueError (py_int port)) (fun port =>
           Ok (host, port)))
         else Ok (host, port)) (fun '(host, port) =>
  Ok (lower host, port)).

Definition space : str := [32].

(** The origin-form path of an absolute URI (line 141). *)
Definition origin_path (target : str) : Result str :=
  if contains (lit "/") (skipn 7 target)
  then rbind (index (split (lit "/") (Some 3%nat) target) 3) (fun rest =>
       Ok (lit "/" ++ rest))
  else Ok (lit "/").

(** The request line to forward (lines 140-142). *)
Definition rewrite_request_line (method target version request_line : str)
    : Result str :=
  if startswith (lit "http://") target then
    rbind (origin_path target) (fun path =>
    Ok (method ++ space ++ path ++ space ++ version))
  else Ok request_line.

(** The text sent upstream (lines 144-147). *)
Definition header_text (kv : str * str) : str :=
  fst kv ++ lit ": " ++ snd kv ++ crlf.

Definition forward_text (request_line : str) (headers : dict) : str :=
  fold_left (fun forward kv => forward ++ header_text kv) headers
    (request_line ++ crlf)
  ++ crlf.

Definition resp_403 : bytes :=
  blit "HTTP/1.1 403 Forbidden" ++ bcrlf ++ bcrlf ++ blit "Blocked by proxy".

Definition resp_200 : bytes :=
  blit "HTTP/1.1 200 Connection Established" ++ bcrlf ++ bcrlf.

(** ** The environment *)

Inductive Sock : Type := Client | Server.

#[global] Instance Sock_eq_dec : EqDecision Sock.
Proof. solve_decision. Defined.

(** [server if s is client else client] (line 80) *)
Definition other (s : Sock) : Sock :=
  match s with
  | Client => Server
  | Server => Client
  end.

(** What the environment is going to answer.  A [recv] answers with bytes
    (none: the peer has closed) or raises; a socket with nothing left to
    answer stays silent and its [recv] times out.  A [sendall] succeeds, or
    raises the given exception.  [select] answers with the readable sockets;
    with nothing left to answer it times out and returns no socket. *)
Record Env : Type := {
  client_in : list (Result bytes);
  server_in : list (Result bytes);
  client_out : list (option Exn);
  server_out : list (option Exn);
  connect_answer : option Exn;
  selects : list (list Sock)
}.

Definition inbox (s : Sock) (env : Env) : list (Result bytes) :=
  match s with
  | Client => client_in env
  | Server => server_in env
  end.

Definition outbox (s : Sock) (env : Env) : list (option Exn) :=
  match s with
  | Client => client_out env
  | Server => server_out env
  end.

Definition set_inbox (s : Sock) (l : list (Result bytes)) (env : Env) : Env :=
  match s with
  | Client => {| client_in := l; server_in := server_in env;
                 client_out := client_out env; server_out := server_out env;
                 connect_answer := connect_answer env; selects := selects env |}
  | Server => {| client_in := client_in env; server_in := l;
                 client_out := client_out env; server_out := server_out env;
                 connect_answer := connect_answer env; selects := selects env |}
  end.

Definition set_outbox (s : Sock) (l : list (option Exn)) (env : Env) : Env :=
  match s with
  | Client => {| client_in := client_in env; server_in := server_in env;
                 client_out := l; server_out := server_out env;
                 connect_answer := connect_answer env; selects := selects env |}
  | Server => {| client_in := client_in env; server_in := server_in env;
                 client_out := client_out env; server_out := l;
                 connect_answer := connect_answer env; selects := selects env |}
  end.

Definition set_selects (l : list (list Sock)) (env : Env) : Env :=
  {| client_in := client_in env; server_in := server_in env;
     client_out := client_out env; server_out := server_out env;
     connect_answer := connect_answer env; selects := l |}.

(** The lines [log] appends (lines 110, 116, 133, 152 and 176). *)
Inductive LogEntry : Type :=
| BLOCKED (host : str)
| CONNECT (host : str) (port : Z)
| ALLOWED (host : str) (port : Z) (request_line : str)
| ERROR (e : Exn).

(** The calls a handler makes, with their arguments and, for a [recv] and a
    [select], their answer. *)
Inductive Event : Type :=
| ESetTimeout (s : Sock)
| ERecv (s : Sock) (bufsize : Z) (answer : Result bytes)
| ESend (s : Sock) (data : bytes)
| EConnect (host : str) (port : Z)
| ESelect (ready : list Sock)
| ELog (entry : LogEntry)
| EClose (s : Sock).

(** ** The monad of handlers *)

Inductive Run (A : Type) : Type :=
| Done (r : Result A) (env : Env) (evs : list Event)
| OutOfFuel.
Arguments Done {A} r env evs.
Arguments OutOfFuel {A}.

Definition M (A : Type) : Type := Env -> Run A.

Definition ret {A : Type} (a : A) : M A := fun env => Done (Ok a) env [].

Definition raise {A : Type} (e : Exn) : M A := fun env => Done (Raise e) env [].

Definition lift {A : Type} (r : Result A) : M A := fun env => Done r env [].

(** The events [evs] happened before the run [run]. *)
Definition after {A : Type} (evs : list Event) (run : Run A) : Run A :=
  match run with
  | Done r env evs' => Done r env (evs ++ evs')
  | OutOfFuel => OutOfFuel
  end.

Definition bind {A B : Type} (m : M A) (k : A -> M B) : M B := fun env =>
  match m env with
  | Done (Ok a) env1 evs1 => after evs1 (k a env1)
  | Done (Raise e) env1 evs1 => Done (Raise e) env1 evs1
  | OutOfFuel => OutOfFuel
  end.

Declare Scope proxy_scope.
Delimit Scope proxy_scope with proxy.
Notation "x <- m ;; k" := (bind m (fun x => k))
  (at level 100, m at next level, right associativity) : proxy_scope.
Notation "m ;; k" := (bind m (fun _ => k))
  (at level 100, right associativity) : proxy_scope.

(** [try: m  except ...: handler] *)
Definition try_except {A : Type} (m : M A) (handler : Exn -> M A) : M A :=
  fun env =>
  match m env with
  | Done (Ok a) env1 evs1 => Done (Ok a) env1 evs1
  | Done (Raise e) env1 evs1 => after evs1 (handler e env1)
  | OutOfFuel => OutOfFuel
  end.

(** [try: m  finally: final]: the result of [m] stands unless [final] raises. *)
Definition try_finally {A : Type} (m : M A) (final : M unit) : M A :=
  fun env =>
  match m env with
  | Done r env1 evs1 =>
      after evs1
        match final env1 with
        | Done (Ok _) env2 evs2 => Done r env2 evs2
        | Done (Raise e) env2 evs2 => Done (Raise e) env2 evs2
        | OutOfFuel => OutOfFuel
        end
  | OutOfFuel => OutOfFuel
  end.

Definition emit (e : Event) : M unit := fun env => Done (Ok tt) env [e].

(** ** Socket calls *)

Definition settimeout (s : Sock) : M unit := emit (ESetTimeout s).

Definition close (s : Sock) : M unit := emit (EClose s).

Definition log (entry : LogEntry) : M unit := emit (ELog entry).

(** [s.recv(bufsize)]: a negative size is refused before the socket is read. *)
Definition recv (s : Sock) (bufsize : Z) : M bytes := fun env =>
  if (bufsize <? 0)%Z then Done (Raise ValueError) env [ERecv s bufsize (Raise ValueError)]
  else
    match inbox s env with
    | [] => Done (Raise SocketTimeout) env [ERecv s bufsize (Raise SocketTimeout)]
    | answer :: rest => Done answer (set_inbox s rest env) [ERecv s bufsize answer]
    end.

(** [s.sendall(data)] *)
Definition sendall (s : Sock) (data : bytes) : M unit := fun env =>
  match outbox s env with
  | [] => Done (Ok tt) env [ESend s data]
  | None :: rest => Done (Ok tt) (set_outbox s rest env) [ESend s data]
  | Some e :: rest => Done (Raise e) (set_outbox s rest env) [ESend s data]
  end.

(** [socket.create_connection((host, port))]: the upstream socket [Server]. *)
Definition create_connection (host : str) (port : Z) : M unit := fun env =>
  match connect_answer env with
  | None => Done (Ok tt) env [EConnect host port]
  | Some e => Done (Raise e) env [EConnect host port]
  end.

(** [select.select(sockets, [], [], timeout)] *)
Definition select : M (list Sock) := fun env =>
  match selects env with
  | [] => Done (Ok []) env [ESelect []]
  | ready :: rest => Done (Ok ready) (set_selects rest env) [ESelect ready]
  end.

Local Open Scope proxy_scope.

Section Proxy.
(** [CONFIG["BUFFER_SIZE"]] and the result of [load_blocked_domains()]. *)
Variable BUFFER_SIZE : Z.
Variable blocked : gset str.

(** [recv_until] (lines 47-54).  Every turn of the loop takes one answer
    from the socket, so one unit of fuel more than it has answers is
    enough (see [recv_until_fuel]). *)
Fixpoint recv_until_loop (fuel : nat) (sock : Sock) (delimiter data : bytes)
    : M bytes :=
  match fuel with
  | O => fun _ => OutOfFuel
  | S fuel' =>
      if contains delimiter data then ret data
      else
        chunk <- recv sock BUFFER_SIZE ;;
        if is_empty chunk then ret data
        else recv_until_loop fuel' sock delimiter (data ++ chunk)
  end.

Definition recv_until (sock : Sock) (delimiter : bytes) : M bytes := fun env =>
  recv_until_loop (S (length (inbox sock env))) sock delimiter [] env.

(** The [for] loop of [tunnel] (lines 76-80); [true] when a read of no
    bytes has made [tunnel] return. *)
Fixpoint tunnel_round (r : list Sock) : M bool :=
  match r with
  | [] => ret false
  | s :: r' =>
      data <- recv s BUFFER_SIZE ;;
      if is_empty data then ret true
      else sendall (other s) data ;; tunnel_round r'
  end.

(** [tunnel] (lines 70-80); a turn of the loop takes one answer of [select]. *)
Fixpoint tunnel_loop (fuel : nat) : M unit :=
  match fuel with
  | O => fun _ => OutOfFuel
  | S fuel' =>
      r <- select ;;
      if is_empty r then ret tt
      else
        returned <- tunnel_round r ;;
        if returned then ret tt else tunnel_loop fuel'
  end.

Definition tunnel : M unit := fun env =>
  tunnel_loop (S (length (selects env))) env.

(** The response loop (lines 160-167); a turn takes one answer of the
    upstream socket. *)
Fixpoint response_loop (fuel : nat) : M unit :=
  match fuel with
  | O => fun _ => OutOfFuel
  | S fuel' =>
      again <- try_except
                 (data <- recv Server BUFFER_SIZE ;;
                  if is_empty data then ret false
                  else sendall Client data ;; ret true)
                 (fun e => match e with
                           | SocketTimeout => ret false
                           | _ => raise e
                           end) ;;
      if again then response_loop fuel' else ret tt
  end.

Definition relay_response : M unit := fun env =>
  response_loop (S (length (server_in env))) env.

(** The refusal of a blocked host (lines 109-110 and 132-133). *)
Definition reject (host : str) : M unit :=
  sendall Client resp_403 ;;
  log (BLOCKED host).

(** The CONNECT branch (lines 104-119). *)
Definition connect_tunnel (target : str) : M unit :=
  dest <- lift (connect_destination target) ;;
  let '(dest_host, dest_port) := dest in
  if bool_decide (dest_host ∈ blocked) then reject dest_host
  else
    create_connection dest_host dest_port ;;
    sendall Client resp_200 ;;
    log (CONNECT dest_host dest_port) ;;
    tunnel ;;
    close Server.

(** The forwarding branch (lines 122-169). *)
Definition http_forward (method target version request_line : str)
    (headers : dict) : M unit :=
  dest <- lift (forward_destination headers) ;;
  let '(host, port) := dest in
  if bool_decide (host ∈ blocked) then reject host
  else
    create_connection host port ;;
    settimeout Server ;;
    request_line <- lift (rewrite_request_line method target version request_line) ;;
    sendall Server (encode (forward_text request_line headers)) ;;
    log (ALLOWED host port request_line) ;;
    (if dict_mem (lit "content-length") headers then
       length <- lift (rbind (dict_item (lit "content-length") headers) (fun v =>
                       or_raise ValueError (py_int v))) ;;
       body <- recv Client length ;;
       sendall Server body
     else ret tt) ;;
    relay_response ;;
    close Server.

(** What [handle_client] does with the header block it has read
    (lines 91-169). *)
Definition dispatch (header_data : bytes) : M unit :=
  if is_empty header_data then ret tt else
  parsed <- lift (parse_headers header_data) ;;
  let '(request_line, headers) := parsed in
  let parts := split_ws request_line in
  if (length parts <? 3)%nat then ret tt else
  unpacked <- lift (unpack3 parts) ;;
  let '(method, target, version) := unpacked in
  let method := upper method in
  if bool_decide (method = lit "CONNECT") then connect_tunnel target
  else http_forward method target version request_line headers.

(** The body of the [try] of [handle_client] (lines 90-169). *)
Definition handle_request : M unit :=
  header_data <- recv_until Client (bcrlf ++ bcrlf) ;;
  dispatch header_data.

(** The [except] clauses of [handle_client] (lines 171-176). *)
Definition on_exception (e : Exn) : M unit :=
  match e with
  | SocketTimeout => ret tt
  | _ => log (ERROR e)
  end.

(** [handle_client] (lines 85-179) *)
Definition handle_client : M unit :=
  settimeout Client ;;
  try_finally (try_except handle_request on_exception) (close Client).
End Proxy.

(** * The vocabulary of the properties *)

(** ** Header lines *)

(** The part of [s] before its first [c]. *)
Fixpoint before {A : Type} `{EqDecision A} (c : A) (s : list A) : list A :=
  match s with
  | [] => []
  | x :: s' => if decide (x = c) then [] else x :: before c s'
  end.

(** The header lines of a request, as the (name, value) pairs the spec
    describes: the lines after the first that hold a colon, each cut at its
    first colon, the name lower-cased and the value trimmed. *)
Definition header_pair (line : str) : str * str :=
  (lower (before 58 line), strip (default [] (after_nth 58 1 line))).

Definition header_pairs (header_bytes : bytes) : list (str * str) :=
  map header_pair
    (List.filter (contains [58]) (tl (split crlf None (decode header_bytes)))).

(** The dictionary that holds the pairs, assigned in order. *)
Definition dict_of (pairs : list (str * str)) : dict :=
  fold_left (fun d kv => dict_set (fst kv) (snd kv) d) pairs [].

(** The distinct elements of a list, each at the place of its first
    occurrence. *)
Fixpoint first_occurrences (l : list str) : list str :=
  match l with
  | [] => []
  | x :: l' =>
      x :: List.filter (fun y => negb (bool_decide (y = x))) (first_occurrences l')
  end.


(** ** Events *)

(** A read from socket [s]. *)
Definition is_recv (s : Sock) (e : Event) : Prop :=
  exists n answer, e = ERecv s n answer.


(** The data given to [sendall] on socket [t], in order. *)
Definition sent_to (t : Sock) (evs : list Event) : list bytes :=
  flat_map (fun e => match e with
                     | ESend s data => if decide (s = t) then [data] else []
                     | _ => []
                     end) evs.

(** The non-empty reads from socket [s], in order. *)
Definition read_from (s : Sock) (evs : list Event) : list bytes :=
  flat_map (fun e => match e with
                     | ERecv s' _ (Ok data) =>
                         if decide (s' = s)
                         then (if is_empty data then [] else [data])
                         else []
                     | _ => []
                     end) evs.

(** The event sequences of a relay.  [None]: the relay goes on; [Some r]: it
    has ended with [r]. *)
Inductive relay_events : list Event -> option (Result unit) -> Prop :=
| relay_on : relay_events [] None
| relay_idle : relay_events [ESelect []] (Some (Ok tt))
| relay_closed s n : relay_events [ERecv s n (Ok [])] (Some (Ok tt))
| relay_recv_raised s n e : relay_events [ERecv s n (Raise e)] (Some (Raise e))
| relay_send_raised s n data e :
    data <> [] ->
    relay_events [ERecv s n (Ok data); ESend (other s) data] (Some (Raise e))
| relay_ready ready evs o :
    ready <> [] ->
    relay_events evs o ->
    relay_events (ESelect ready :: evs) o
| relay_copy s n data evs o :
    data <> [] ->
    relay_events evs o ->
    relay_events (ERecv s n (Ok data) :: ESend (other s) data :: evs) o.



(** The handler [m] ends in every environment: its loops have fuel enough. *)
Definition finishes {A : Type} (m : M A) : Prop :=
  forall env, exists r env' evs, m env = Done r env' evs.

(** The destinations given to [create_connection], in order. *)
Definition connects (evs : list Event) : list (str * Z) :=
  flat_map (fun e => match e with
                     | EConnect host port => [(host, port)]
                     | _ => []
                     end) evs.

(** The log entries made, in order. *)
Definition logged (evs : list Event) : list LogEntry :=
  flat_map (fun e => match e with
                     | ELog entry => [entry]
                     | _ => []
                     end) evs.

(** Whether socket [s] has been closed. *)
Definition closed (s : Sock) (evs : list Event) : bool :=
  existsb (fun e => match e with
                    | EClose s' => bool_decide (s' = s)
                    | _ => false
                    end) evs.

(** The entry the [except] clauses of [handle_client] log for the result of
    the [try] body. *)
Definition error_entries {A : Type} (r : Result A) : list LogEntry :=
  match r with
  | Ok _ => []
  | Raise SocketTimeout => []
  | Raise e => [ERROR e]
  end.

(** ** Requests *)

(** The header block made of the given lines. *)
Definition header_block (lines : list string) : bytes :=
  encode (concat (map (fun l => lit l ++ crlf) lines) ++ crlf).

(** The client sends the given chunks and then stays silent; every other
    call succeeds. *)
Definition client_sends (chunks : list bytes) : Env :=
  {| client_in := map Ok chunks; server_in := []; client_out := [];
     server_out := []; connect_answer := None; selects := [] |}.

(** The destination [handle_client] derives for a request with three tokens
    (lines 103-106 and 122-129). *)
Definition destination (method target : str) (headers : dict) : Result (str * Z) :=
  if bool_decide (upper method = lit "CONNECT") then connect_destination target
  else forward_destination headers.

(** The input the error taxonomy calls malformed: a request line that does
    not have three tokens, or a CONNECT request whose target does not read as
    a host, a colon and a port. *)
Definition malformed (request_line : str) : Prop :=
  match split_ws request_line with
  | [method; target; version] =>
      upper method = lit "CONNECT" /\
      forall host port, connect_destination target <> Ok (host, port)
  | _ => True
  end.

(** The bytes of one header line. *)
Definition header_line_bytes (kv : str * str) : bytes :=
  encode (fst kv) ++ blit ": " ++ encode (snd kv) ++ bcrlf.

(** * The rest of the program *)

(** ** The blocklist file *)

(** [load_blocked_domains] (lines 31-36).  [file] holds the lines the file
    yields, or is [None] when there is no file ([FileNotFoundError]). *)
Definition load_blocked_domains (file : option (list str)) : gset str :=
  match file with
  | Some lines =>
      list_to_set
        (map (fun line => lower (strip line))
           (List.filter (fun line => negb (is_empty (strip line))) lines))
  | None => ∅
  end.

(** ** The configuration file *)

(** A value of [CONFIG]: an [int] or a [str]. *)
Inductive Value : Type :=
| VInt (n : Z)
| VStr (s : str).

(** [s.isdigit()], for ASCII digits. *)
Definition isdigit (s : str) : bool :=
  negb (is_empty s) && forallb (fun c => (48 <=? c) && (c <=? 57)) s.

(** [CONFIG] (lines 13-18) *)
Definition CONFIG : gmap str Value :=
  <[lit "LISTEN_HOST" := VStr (lit "127.0.0.1")]>
  (<[lit "LISTEN_PORT" := VInt 8888]>
  (<[lit "BUFFER_SIZE" := VInt 4096]>
  (<[lit "SOCKET_TIMEOUT" := VInt 10]> ∅))).

(** [int(v) if v.isdigit() else v] (line 28) *)
Definition config_value (v : str) : Result Value :=
  if isdigit v then rbind (or_raise ValueError (py_int v)) (fun n => Ok (VInt n))
  else Ok (VStr v).

(** One turn of the loop of [load_config] (lines 26-28). *)
Definition load_config_line (config : gmap str Value) (line : str)
    : Result (gmap str Value) :=
  if contains (lit "=") line then
    rbind (unpack2 (split (lit "=") (Some 1%nat) (strip line))) (fun '(k, v) =>
    rbind (config_value v) (fun value =>
    Ok (<[k := value]> config)))
  else Ok config.

Fixpoint load_config_lines (config : gmap str Value) (lines : list str)
    : Result (gmap str Value) :=
  match lines with
  | [] => Ok config
  | line :: lines' =>
      rbind (load_config_line config line) (fun config' =>
      load_config_lines config' lines')
  end.

(** [load_config] (lines 21-28), on the configuration [config].  [file] holds
    the lines the file yields, or is [None] when it does not exist. *)
Definition load_config (file : option (list str)) (config : gmap str Value)
    : Result (gmap str Value) :=
  match file with
  | None => Ok config
  | Some lines => load_config_lines config lines
  end.

(** * The vocabulary of the further properties *)

(** Every event of every run of [m] satisfies [P]. *)
Definition emits {A : Type} (P : Event -> Prop) (m : M A) : Prop :=
  forall env r env' evs, m env = Done r env' evs -> Forall P evs.

(** The events the blocklist allows: a connection to a host that is not
    blocked, a BLOCKED entry for a host that is. *)
Definition respects (blocked : gset str) (e : Event) : Prop :=
  match e with
  | EConnect host _ => host ∉ blocked
  | ELog (BLOCKED host) => host ∈ blocked
  | _ => True
  end.

(** A call on the upstream socket. *)
Definition on_server (e : Event) : bool :=
  match e with
  | ESetTimeout Server | ERecv Server _ _ | ESend Server _ | EClose Server => true
  | _ => false
  end.

(** A connection attempt. *)
Definition is_connect (e : Event) : bool :=
  match e with
  | EConnect _ _ => true
  | _ => false
  end.

(** [P] holds of every read, write and readiness wait: the events of the
    three loops. *)
Definition io_events (P : Event -> Prop) : Prop :=
  (forall s n answer, P (ERecv s n answer)) /\
  (forall s data, P (ESend s data)) /\
  (forall ready, P (ESelect ready)).

(** ** The two branches of [handle_client] once the host is allowed *)

Section Branches.
Variable BUFFER_SIZE : Z.

(** The CONNECT branch from the connection on (lines 113-118). *)
Definition tunnel_established (dest_host : str) (dest_port : Z) : M unit :=
  create_connection dest_host dest_port ;;
  sendall Client resp_200 ;;
  log (CONNECT dest_host dest_port) ;;
  tunnel BUFFER_SIZE ;;
  close Server.

(** The forwarding branch from the connection on (lines 136-169). *)
Definition forward_request (host : str) (port : Z)
    (method target version request_line : str) (headers : dict) : M unit :=
  create_connection host port ;;
  settimeout Server ;;
  request_line <- lift (rewrite_request_line method target version request_line) ;;
  sendall Server (encode (forward_text request_line headers)) ;;
  log (ALLOWED host port request_line) ;;
  (if dict_mem (lit "content-length") headers then
     (length <- lift (rbind (dict_item (lit "content-length") headers) (fun v =>
                      or_raise ValueError (py_int v))) ;;
      body <- recv Client length ;;
      sendall Server body)
   else ret tt) ;;
  relay_response BUFFER_SIZE ;;
  close Server.
End Branches.

(** An event that is neither a connection attempt nor a call on the upstream
    socket. *)
Definition quiet (e : Event) : Prop :=
  is_connect e = false /\ on_server e = false.

(** The handler [m] closes socket [s] as its last call when it returns, and
    does not close it when it raises. *)
Definition closes_last (s : Sock) (m : M unit) : Prop :=
  forall env r env' evs,
    m env = Done r env' evs ->
    (r = Ok tt /\ exists evs', evs = evs' ++ [EClose s] /\ closed s evs' = false) \/
    (exists e, r = Raise e /\ closed s evs = false).

(** Every call on the upstream socket comes after a connection attempt;
    [connected] tells whether one has been made already. *)
Fixpoint upstream_after_connect (connected : bool) (evs : list Event) : bool :=
  match evs with
  | [] => true
  | e :: evs' =>
      (negb (on_server e) || connected) &&
      upstream_after_connect (connected || is_connect e) evs'
  end.

(** ** Payload *)

(** The head the proxy builds for the request whose header block is
    [header_data]: the request line, rewritten when the target is an
    absolute URI, and the parsed headers, serialised. *)
Definition request_head (header_data head : bytes) : Prop :=
  exists request_line headers method target version line,
    parse_headers header_data = Ok (request_line, headers) /\
    split_ws request_line = [method; target; version] /\
    rewrite_request_line (upper method) target version request_line = Ok line /\
    head = encode (forward_text line headers).

(** An event that is not a write. *)
Definition no_send (e : Event) : Prop := forall t data, e <> ESend t data.

(** Event sequences in which every write repeats the read from the other
    socket that comes just before it. *)
Inductive copies : list Event -> Prop :=
| copies_nil : copies []
| copies_copy s n data evs :
    copies evs ->
    copies (ERecv s n (Ok data) :: ESend (other s) data :: evs)
| copies_other e evs :
    no_send e ->
    copies evs ->
    copies (e :: evs).

(** Every run of [m] only copies. *)
Definition runs_copies {A : Type} (m : M A) : Prop :=
  forall env r env' evs, m env = Done r env' evs -> copies evs.

(** What the handler writes of its own after the reads of the header block,
    whose outcome is [read]: nothing, the 403 response, the 200 response
    after the connection attempt, or the head of the request after the
    connection attempt and the setting of the time-out. *)
Definition own_writes (read : Result bytes) (own : list Event) : Prop :=
  own = [] \/
  own = [ESend Client resp_403] \/
  (exists host port, own = [EConnect host port; ESend Client resp_200]) \/
  (exists header_data host port head,
     read = Ok header_data /\ request_head header_data head /\
     own = [EConnect host port; ESetTimeout Server; ESend Server head]).

(** ** The loops *)

(** An event of the response loop: a read from the upstream socket or a
    write to the client. *)
Definition is_response_event (e : Event) : Prop :=
  is_recv Server e \/ exists data, e = ESend Client data.

(** An event of the relay: a readiness wait, a read or a write. *)
Definition is_relay_event (e : Event) : Prop :=
  match e with
  | ESelect _ | ERecv _ _ _ | ESend _ _ => True
  | _ => False
  end.

(** ** Strings *)

(** [sep.join(pieces)] *)
Fixpoint join {A : Type} (sep : list A) (pieces : list (list A)) : list A :=
  match pieces with
  | [] => []
  | [piece] => piece
  | piece :: pieces' => piece ++ sep ++ join sep pieces'
  end.

(** A string with no white space at either end. *)
Definition stripped (s : str) : Prop :=
  dropwhile isspace s = s /\ dropwhile isspace (rev s) = rev s.

(** The value the configuration file gives to the key [k]: that of the last
    line that assigns it. *)
Fixpoint last_assignment (k : str) (lines : list str) : option str :=
  match lines with
  | [] => None
  | line :: lines' =>
      match last_assignment k lines' with
      | Some v => Some v
      | None =>
          if contains [61] line && bool_decide (before 61 (strip line) = k)
          then Some (default [] (after_nth 61 1 (strip line)))
          else None
      end
  end.


(** The number a string of decimal digits denotes. *)
Definition decimal (s : str) : Z :=
  fold_left (fun acc c => (10 * acc + Z.of_N (c - 48))%Z) s 0%Z.

(** The lines of a file, none when the file does not exist. *)
Definition lines_of (file : option (list str)) : list str := default [] file.

(** ** Text on the wire *)

(** A Unicode scalar value: a code point that is not a surrogate.  These
    are the code points UTF-8 encodes. *)
Definition scalar (c : N) : Prop := c < 55296 \/ 57343 < c <= 1114111.

(** A text with no line end in it. *)
Definition no_crlf (s : str) : Prop := forall a b, s <> a ++ crlf ++ b.

(** The text of a header line, without its line end. *)
Definition header_line (kv : str * str) : str := fst kv ++ lit ": " ++ snd kv.

(** A header as [parse_headers] leaves it. *)
Definition canonical (kv : str * str) : Prop :=
  lower (fst kv) = fst kv /\ ~ In 58 (fst kv) /\ stripped (snd kv) /\
  no_crlf (header_line kv) /\ Forall scalar (header_line kv).

(** A character of a token: a code point that is not white space. *)
Definition plain (c : N) : Prop := scalar c /\ isspace c = false.
(** * Properties *)

(** ** The string layer on examples *)

Example split_crlf_ex :
  split crlf None (lit "GET / HTTP/1.1" ++ crlf ++ lit "Host: a" ++ crlf ++ crlf)
  = [lit "GET / HTTP/1.1"; lit "Host: a"; []; []].
Proof. vm_compute. reflexivity. Qed.

Example split_max_ex :
  split (lit "/") (Some 3%nat) (lit "http://example.com/a/b?x=1")
  = [lit "http:"; []; lit "example.com"; lit "a/b?x=1"].
Proof. vm_compute. reflexivity. Qed.

Example split_ws_ex : split_ws (lit "  GET   /x  HTTP/1.1 ") = [lit "GET"; lit "/x"; lit "HTTP/1.1"].
Proof. vm_compute. reflexivity. Qed.

Example py_int_ex : py_int (lit " 80_80 ") = Some 8080%Z /\ py_int (lit "-0") = Some 0%Z
  /\ py_int (lit "8__0") = None /\ py_int (lit "") = None /\ py_int (lit "70000") = Some 70000%Z.
Proof. vm_compute. repeat split; reflexivity. Qed.

(* U+00E9 is C3 A9; F0 9F 98 80 is U+1F600; a lone 0xFF and a cut lead byte are dropped *)
Example decode_ex :
  decode [x41; xc3; xa9; xff; xf0; x9f; x98; x80; xe2; x82] = [65; 233; 128512].
Proof. vm_compute. reflexivity. Qed.

Example encode_ex :
  encode [65; 233; 128512; 8364] = [x41; xc3; xa9; xf0; x9f; x98; x80; xe2; x82; xac].
Proof. vm_compute. reflexivity. Qed.

Example parse_headers_ex :
  parse_headers (encode (lit "GET / HTTP/1.1" ++ crlf ++ lit "Host:  A.com " ++ crlf
                         ++ lit "junk" ++ crlf ++ lit "X-A: 1:2" ++ crlf ++ lit "host: b" ++ crlf ++ crlf))
  = Ok (lit "GET / HTTP/1.1", [(lit "host", lit "b"); (lit "x-a", lit "1:2")]).
Proof. vm_compute. reflexivity. Qed.

Example origin_path_ex :
  origin_path (lit "http://example.com/a/b?x=1") = Ok (lit "/a/b?x=1")
  /\ origin_path (lit "http://example.com") = Ok (lit "/").
Proof. vm_compute. split; reflexivity. Qed.

(** ** Splitting *)

Section SequenceFacts.
Context {A : Type} `{EqDecision A}.
Implicit Types (s p sep : list A) (c : A).

Lemma startswith_prefix p s :
  startswith p s = true <-> exists t, s = p ++ t.
Proof.
  revert s. induction p as [|x p IH]; intros s; simpl.
  - split; [intros _; exists s; reflexivity | reflexivity].
  - destruct s as [|y s].
    + split; [discriminate | intros [t Ht]; discriminate Ht].
    + rewrite andb_true_iff, bool_decide_eq_true, IH. split.
      * intros [-> [t ->]]. exists t. reflexivity.
      * intros [t Ht]. injection Ht as -> ->. split; [reflexivity | exists t; reflexivity].
Qed.

Lemma contains_single c s : contains [c] s = true <-> In c s.
Proof.
  induction s as [|x s IH]; simpl.
  - split; [discriminate | intros []].
  - rewrite orb_true_iff, IH, andb_true_r, bool_decide_eq_true.
    split; (intros [Hc | Hc]; [left; congruence | right; exact Hc]).
Qed.

Lemma split_from_nonempty sep budget skip s :
  split_from sep budget skip s <> [].
Proof.
  revert budget skip. induction s as [|x s IH]; intros budget skip; simpl.
  - discriminate.
  - destruct skip as [|k]; [|apply IH].
    destruct (may_split budget && startswith sep (x :: s)); [discriminate|].
    destruct (split_from sep budget 0 s); discriminate.
Qed.

Lemma split_nonempty sep budget s : exists piece pieces,
  split sep budget s = piece :: pieces.
Proof.
  unfold split. pose proof (split_from_nonempty sep budget 0 s) as Hne.
  destruct (split_from sep budget 0 s) as [|piece pieces]; [congruence|].
  exists piece, pieces. reflexivity.
Qed.

(** With no split left the rest of the string is one piece. *)
Lemma split_spent sep s : split_from sep (Some O) O s = [s].
Proof.
  induction s as [|x s IH]; simpl; [reflexivity|].
  rewrite IH. reflexivity.
Qed.

(** [s.split(c, n)[n]] is what follows the [n]-th [c]. *)
Lemma split_single_nth c n s :
  nth_error (split [c] (Some n) s) n = after_nth c n s.
Proof.
  unfold split. revert n. induction s as [|x s IH]; intros n.
  - destruct n as [|[|n]]; reflexivity.
  - destruct n as [|k].
    + rewrite split_spent. reflexivity.
    + cbn [split_from after_nth may_split startswith andb length Nat.pred spend].
      rewrite andb_true_r. destruct (decide (x = c)) as [->|Hne].
      * rewrite bool_decide_eq_true_2 by reflexivity. simpl. apply IH.
      * rewrite bool_decide_eq_false_2 by congruence.
        pose proof (split_from_nonempty [c] (Some (S k)) 0 s) as Hnil.
        specialize (IH (S k)).
        destruct (split_from [c] (Some (S k)) 0 s) as [|piece pieces];
          [congruence|].
        exact IH.
Qed.

Lemma after_nth_single c s :
  In c s <-> exists rest, after_nth c 1 s = Some rest.
Proof.
  induction s as [|x s IH]; simpl.
  - split; [intros [] | intros [rest Hr]; discriminate Hr].
  - destruct (decide (x = c)) as [->|Hne].
    + split; [intros _; exists s; destruct s; reflexivity | intros _; left; reflexivity].
    + rewrite <- IH. split; [intros [Hc|Hc]; [congruence | exact Hc] | intros Hc; right; exact Hc].
Qed.
End SequenceFacts.

(** ** The origin-form rewrite *)

Lemma origin_path_after_third_slash (target : str) :
  startswith (lit "http://") target = true ->
  origin_path target = Ok (lit "/" ++ default [] (after_nth 47 3 target)).
Proof.
  intros Hpre. apply startswith_prefix in Hpre as [t ->].
  unfold origin_path, index.
  change (lit "/") with [47]. change (lit "http://") with [104; 116; 116; 112; 58; 47; 47].
  rewrite split_single_nth.
  change (skipn 7 ([104; 116; 116; 112; 58; 47; 47] ++ t)) with t.
  change (after_nth 47 3 ([104; 116; 116; 112; 58; 47; 47] ++ t)) with (after_nth 47 1 t).
  destruct (contains [47] t) eqn:Hc.
  - apply contains_single in Hc. apply after_nth_single in Hc as [rest ->].
    reflexivity.
  - destruct (after_nth 47 1 t) as [rest|] eqn:Hr; [|reflexivity].
    assert (In 47 t) as Hin by (apply after_nth_single; exists rest; exact Hr).
    apply contains_single in Hin. congruence.
Qed.

(** The request line written for a target that begins with http://. *)
Lemma rewrite_origin_form (method target version request_line : str) :
  startswith (lit "http://") target = true ->
  rewrite_request_line method target version request_line
  = Ok (method ++ space ++ (lit "/" ++ default [] (after_nth 47 3 target))
        ++ space ++ version).
Proof.
  intros Hpre. unfold rewrite_request_line. rewrite Hpre.
  rewrite (origin_path_after_third_slash target Hpre). reflexivity.
Qed.

(** ** Header parsing *)

Lemma split_once_spec {A : Type} `{EqDecision A} (c : A) (s : list A) :
  In c s ->
  split [c] (Some 1%nat) s = [before c s; default [] (after_nth c 1 s)].
Proof.
  unfold split. induction s as [|x s IH]; intros Hin; [destruct Hin|].
  cbn [split_from may_split startswith andb length Nat.pred spend before after_nth].
  rewrite andb_true_r. destruct (decide (x = c)) as [->|Hne].
  - rewrite bool_decide_eq_true_2 by reflexivity. rewrite split_spent.
    destruct s; reflexivity.
  - rewrite bool_decide_eq_false_2 by congruence.
    destruct Hin as [Hx|Hin]; [congruence|].
    rewrite (IH Hin). reflexivity.
Qed.

Lemma parse_header_line_spec (headers : dict) (line : str) :
  parse_header_line headers line =
  Ok (if contains [58] line
      then dict_set (fst (header_pair line)) (snd (header_pair line)) headers
      else headers).
Proof.
  unfold parse_header_line. change (lit ":") with [58].
  destruct (contains [58] line) eqn:Hc; [|reflexivity].
  apply contains_single in Hc. rewrite (split_once_spec 58 line Hc). reflexivity.
Qed.

Lemma parse_header_lines_spec (lines : list str) (headers : dict) :
  parse_header_lines headers lines =
  Ok (fold_left (fun d kv => dict_set (fst kv) (snd kv) d)
        (map header_pair (List.filter (contains [58]) lines)) headers).
Proof.
  revert headers. induction lines as [|line lines IH]; intros headers.
  - reflexivity.
  - cbn [parse_header_lines List.filter]. rewrite parse_header_line_spec.
    cbn [rbind]. rewrite IH. destruct (contains [58] line); reflexivity.
Qed.

(** [parse_headers] never raises: the request line is the text before the
    first CRLF, the headers are the dictionary built from the header lines. *)
Lemma parse_headers_spec (header_bytes : bytes) :
  parse_headers header_bytes =
  Ok (hd [] (split crlf None (decode header_bytes)),
      dict_of (header_pairs header_bytes)).
Proof.
  unfold parse_headers, header_pairs, dict_of, index.
  destruct (split_nonempty crlf None (decode header_bytes)) as (l0 & ls & ->).
  cbn [nth_error or_raise rbind tl hd]. rewrite parse_header_lines_spec.
  reflexivity.
Qed.

(** ** The dictionary *)

Lemma dict_set_keys (k v : str) (d : dict) :
  map fst (dict_set k v d) =
  if decide (k ∈ map fst d) then map fst d else map fst d ++ [k].
Proof.
  induction d as [|[k' v'] d IH]; cbn [dict_set map fst].
  - rewrite decide_False by apply not_elem_of_nil. reflexivity.
  - destruct (decide (k' = k)) as [->|Hne].
    + rewrite decide_True by (apply elem_of_cons; left; reflexivity). reflexivity.
    + cbn [map fst]. rewrite IH. destruct (decide (k ∈ map fst d)) as [Hin|Hin].
      * rewrite decide_True by (apply elem_of_cons; right; exact Hin). reflexivity.
      * rewrite decide_False; [reflexivity|].
        rewrite elem_of_cons. intros [Hk|Hk]; [congruence | exact (Hin Hk)].
Qed.


Lemma first_occurrences_In (x : str) (l : list str) :
  In x (first_occurrences l) <-> In x l.
Proof.
  induction l as [|y l IH]; cbn [first_occurrences]; [reflexivity|].
  cbn [In]. rewrite filter_In, IH, negb_true_iff, bool_decide_eq_false.
  destruct (decide (y = x)) as [->|Hne]; [intuition|].
  intuition congruence.
Qed.

Lemma first_occurrences_snoc (l : list str) (k : str) :
  first_occurrences (l ++ [k]) =
  if decide (k ∈ l) then first_occurrences l else first_occurrences l ++ [k].
Proof.
  induction l as [|x l IH]; cbn [first_occurrences app].
  - rewrite decide_False by apply not_elem_of_nil. reflexivity.
  - rewrite IH. destruct (decide (x = k)) as [->|Hne].
    + rewrite (decide_True (P := k ∈ k :: l)) by (apply elem_of_cons; left; reflexivity).
      destruct (decide (k ∈ l)); [reflexivity|].
      rewrite List.filter_app. cbn [List.filter].
      rewrite bool_decide_eq_true_2 by reflexivity. cbn [negb].
      rewrite app_nil_r. reflexivity.
    + destruct (decide (k ∈ l)) as [Hin|Hin].
      * rewrite decide_True by (apply elem_of_cons; right; exact Hin). reflexivity.
      * rewrite decide_False
          by (rewrite elem_of_cons; intros [Hk|Hk]; [congruence | exact (Hin Hk)]).
        rewrite List.filter_app. cbn [List.filter].
        rewrite bool_decide_eq_false_2 by congruence. reflexivity.
Qed.

Lemma first_occurrences_NoDup (l : list str) : List.NoDup (first_occurrences l).
Proof.
  induction l as [|x l IH]; cbn [first_occurrences]; constructor.
  - rewrite filter_In, negb_true_iff, bool_decide_eq_false. intros [_ Hne].
    apply Hne. reflexivity.
  - apply List.NoDup_filter. exact IH.
Qed.


Lemma dict_of_snoc (pairs : list (str * str)) (kv : str * str) :
  dict_of (pairs ++ [kv]) = dict_set (fst kv) (snd kv) (dict_of pairs).
Proof. unfold dict_of. rewrite fold_left_app. reflexivity. Qed.

Lemma dict_of_keys (pairs : list (str * str)) :
  map fst (dict_of pairs) = first_occurrences (map fst pairs).
Proof.
  induction pairs as [|kv pairs IH] using rev_ind; [reflexivity|].
  rewrite dict_of_snoc, dict_set_keys, IH, map_app. cbn [map].
  rewrite first_occurrences_snoc. apply decide_ext.
  rewrite !list_elem_of_In. apply first_occurrences_In.
Qed.


Lemma forward_text_spec (request_line : str) (headers : dict) :
  forward_text request_line headers =
  request_line ++ crlf ++ concat (map header_text headers) ++ crlf.
Proof.
  unfold forward_text.
  assert (forall init : str,
    fold_left (fun forward kv => forward ++ header_text kv) headers init
    = init ++ concat (map header_text headers)) as Hfold.
  { induction headers as [|kv headers IH]; intros init; cbn [fold_left map concat].
    - rewrite app_nil_r. reflexivity.
    - rewrite IH, <- app_assoc. reflexivity. }
  rewrite Hfold, <- !app_assoc. reflexivity.
Qed.


Example duplicate_headers_ex :
  header_pairs (encode (lit "GET / HTTP/1.1" ++ crlf ++ lit "A: 1" ++ crlf
                        ++ lit "B: 2" ++ crlf ++ lit "a: 3" ++ crlf ++ crlf))
  = [(lit "a", lit "1"); (lit "b", lit "2"); (lit "a", lit "3")]
  /\ parse_headers (encode (lit "GET / HTTP/1.1" ++ crlf ++ lit "A: 1" ++ crlf
                        ++ lit "B: 2" ++ crlf ++ lit "a: 3" ++ crlf ++ crlf))
  = Ok (lit "GET / HTTP/1.1", [(lit "a", lit "3"); (lit "b", lit "2")]).
Proof. vm_compute. split; reflexivity. Qed.

(** ** Runs *)

Lemma inbox_set_inbox (s : Sock) (l : list (Result bytes)) (env : Env) :
  inbox s (set_inbox s l env) = l.
Proof. destruct s; reflexivity. Qed.

Lemma selects_set_inbox (s : Sock) (l : list (Result bytes)) (env : Env) :
  selects (set_inbox s l env) = selects env.
Proof. destruct s; reflexivity. Qed.

Lemma selects_set_outbox (s : Sock) (l : list (option Exn)) (env : Env) :
  selects (set_outbox s l env) = selects env.
Proof. destruct s; reflexivity. Qed.

Lemma server_in_set_outbox (s : Sock) (l : list (option Exn)) (env : Env) :
  server_in (set_outbox s l env) = server_in env.
Proof. destruct s; reflexivity. Qed.

(** The three answers of a [recv]. *)
Lemma recv_cases (s : Sock) (n : Z) (env : Env) :
  (exists e, recv s n env = Done (Raise e) env [ERecv s n (Raise e)]
             /\ ((n <? 0)%Z = true \/ inbox s env = [])) \/
  (exists answer rest, inbox s env = answer :: rest /\
     recv s n env = Done answer (set_inbox s rest env) [ERecv s n answer]).
Proof.
  unfold recv. destruct (n <? 0)%Z; [left; eexists; split; [reflexivity | left; reflexivity]|].
  destruct (inbox s env) as [|answer rest].
  - left. eexists. split; [reflexivity | right; reflexivity].
  - right. exists answer, rest. split; reflexivity.
Qed.

(** A [sendall] records the bytes it was given, whatever the answer. *)
Lemma sendall_cases (s : Sock) (data : bytes) (env : Env) :
  exists r env', sendall s data env = Done r env' [ESend s data] /\
    selects env' = selects env /\ server_in env' = server_in env.
Proof.
  unfold sendall. destruct (outbox s env) as [|[e|] rest]; eexists _, _;
    (split; [reflexivity|]); rewrite ?selects_set_outbox, ?server_in_set_outbox;
    split; reflexivity.
Qed.

Section Runs.
Variable BUFFER_SIZE : Z.
Variable blocked : gset str.

(** [recv_until] has fuel enough, and only reads. *)
Lemma recv_until_loop_reads (sock : Sock) (delimiter : bytes) (fuel : nat) :
  forall (data : bytes) (env : Env),
  (length (inbox sock env) < fuel)%nat ->
  exists r env' evs,
    recv_until_loop BUFFER_SIZE fuel sock delimiter data env = Done r env' evs /\
    Forall (is_recv sock) evs.
Proof.
  induction fuel as [|fuel IH]; intros data env Hfuel; [lia|].
  cbn [recv_until_loop]. destruct (contains delimiter data).
  { eexists _, _, _. split; [reflexivity | constructor]. }
  unfold bind at 1.
  destruct (recv_cases sock BUFFER_SIZE env) as [(e & -> & _)|(answer & rest & Hin & ->)].
  { eexists _, _, _. split; [reflexivity|].
    constructor; [eexists _, _; reflexivity | constructor]. }
  destruct answer as [chunk|e].
  - destruct (is_empty chunk).
    + eexists _, _, _. split; [reflexivity|].
      constructor; [eexists _, _; reflexivity | constructor].
    + destruct (IH (data ++ chunk) (set_inbox sock rest env)) as (r & env' & evs & -> & Hevs).
      { rewrite inbox_set_inbox. rewrite Hin in Hfuel. simpl in Hfuel. lia. }
      eexists _, _, _. split; [reflexivity|].
      constructor; [eexists _, _; reflexivity | exact Hevs].
  - eexists _, _, _. split; [reflexivity|].
    constructor; [eexists _, _; reflexivity | constructor].
Qed.

Lemma recv_until_reads (sock : Sock) (delimiter : bytes) (env : Env) :
  exists r env' evs,
    recv_until BUFFER_SIZE sock delimiter env = Done r env' evs /\
    Forall (is_recv sock) evs.
Proof. unfold recv_until. apply recv_until_loop_reads. lia. Qed.
End Runs.

(** ** The byte relay *)

Lemma relay_events_app evs1 evs2 o :
  relay_events evs1 None -> relay_events evs2 o -> relay_events (evs1 ++ evs2) o.
Proof.
  intros H1 H2. remember None as o1 eqn:Ho1.
  induction H1; try discriminate Ho1; simpl.
  - exact H2.
  - apply relay_ready; [assumption | apply IHrelay_events; assumption].
  - apply relay_copy; [assumption | apply IHrelay_events; assumption].
Qed.




Section Relay.
Variable BUFFER_SIZE : Z.

Lemma tunnel_round_events (r : list Sock) :
  forall env, exists res env' evs,
    tunnel_round BUFFER_SIZE r env = Done res env' evs /\
    selects env' = selects env /\
    relay_events evs match res with
                     | Ok true => Some (Ok tt)
                     | Ok false => None
                     | Raise e => Some (Raise e)
                     end.
Proof.
  induction r as [|s r IH]; intros env; cbn [tunnel_round].
  { eexists _, _, _. split; [reflexivity|]. split; [reflexivity | constructor]. }
  unfold bind at 1.
  destruct (recv_cases s BUFFER_SIZE env) as [(e & -> & _)|(answer & rest & Hin & ->)].
  { eexists _, _, _. split; [reflexivity|]. split; [reflexivity | constructor]. }
  destruct answer as [data|e].
  2:{ eexists _, _, _. split; [reflexivity|].
      split; [apply selects_set_inbox | constructor]. }
  destruct data as [|b data]; cbn [is_empty].
  { eexists _, _, _. split; [reflexivity|].
    split; [apply selects_set_inbox | constructor]. }
  unfold bind at 1.
  destruct (sendall_cases (other s) (b :: data) (set_inbox s rest env))
    as (rs & env1 & -> & Hsel1 & _).
  rewrite selects_set_inbox in Hsel1.
  destruct rs as [[]|e].
  - destruct (IH env1) as (res & env' & evs & -> & Hsel & Hevs).
    eexists _, _, _. split; [reflexivity|]. split; [congruence|].
    apply (relay_copy s BUFFER_SIZE (b :: data)); [discriminate | exact Hevs].
  - eexists _, _, _. split; [reflexivity|]. split; [exact Hsel1|].
    apply relay_send_raised. discriminate.
Qed.

Lemma tunnel_loop_events (fuel : nat) :
  forall env, (length (selects env) < fuel)%nat ->
  exists r env' evs,
    tunnel_loop BUFFER_SIZE fuel env = Done r env' evs /\
    relay_events evs (Some r).
Proof.
  induction fuel as [|fuel IH]; intros env Hfuel; [lia|].
  cbn [tunnel_loop]. unfold bind at 1, select.
  destruct (selects env) as [|ready rest] eqn:Hsel.
  { eexists _, _, _. split; [reflexivity | constructor]. }
  destruct ready as [|s ready]; cbn [after is_empty].
  { eexists _, _, _. split; [reflexivity | constructor]. }
  unfold bind at 1.
  destruct (tunnel_round_events (s :: ready) (set_selects rest env))
    as (res & env1 & evs1 & -> & Hsel1 & Hevs1).
  destruct res as [[|]|e].
  - eexists _, _, _. split; [reflexivity|].
    apply relay_ready; [discriminate|]. rewrite app_nil_r. exact Hevs1.
  - destruct (IH env1) as (r & env' & evs & -> & Hevs).
    { rewrite Hsel1. simpl. simpl in Hfuel. lia. }
    eexists _, _, _. split; [reflexivity|].
    apply relay_ready; [discriminate|].
    apply relay_events_app; assumption.
  - eexists _, _, _. split; [reflexivity|].
    apply relay_ready; [discriminate | exact Hevs1].
Qed.





End Relay.

(** ** Every handler ends *)

Lemma finishes_ret {A : Type} (a : A) : finishes (ret a).
Proof. intros env. eexists _, _, _. reflexivity. Qed.

Lemma finishes_raise {A : Type} (e : Exn) : finishes (@raise A e).
Proof. intros env. eexists _, _, _. reflexivity. Qed.

Lemma finishes_lift {A : Type} (r : Result A) : finishes (lift r).
Proof. intros env. eexists _, _, _. reflexivity. Qed.

Lemma finishes_emit (e : Event) : finishes (emit e).
Proof. intros env. eexists _, _, _. reflexivity. Qed.

Lemma finishes_recv (s : Sock) (n : Z) : finishes (recv s n).
Proof.
  intros env.
  destruct (recv_cases s n env) as [(e & -> & _)|(answer & rest & _ & ->)];
    eexists _, _, _; reflexivity.
Qed.

Lemma finishes_sendall (s : Sock) (data : bytes) : finishes (sendall s data).
Proof.
  intros env. destruct (sendall_cases s data env) as (r & env' & -> & _).
  eexists _, _, _. reflexivity.
Qed.

Lemma finishes_create_connection (host : str) (port : Z) :
  finishes (create_connection host port).
Proof.
  intros env. unfold create_connection.
  destruct (connect_answer env); eexists _, _, _; reflexivity.
Qed.

Lemma finishes_bind {A B : Type} (m : M A) (k : A -> M B) :
  finishes m -> (forall a, finishes (k a)) -> finishes (bind m k).
Proof.
  intros Hm Hk env. unfold bind. destruct (Hm env) as (r & env1 & evs1 & ->).
  destruct r as [a|e]; [|eexists _, _, _; reflexivity].
  destruct (Hk a env1) as (r & env2 & evs2 & ->). eexists _, _, _. reflexivity.
Qed.

Lemma finishes_log (entry : LogEntry) : finishes (log entry).
Proof. apply finishes_emit. Qed.

Lemma finishes_close (s : Sock) : finishes (close s).
Proof. apply finishes_emit. Qed.

Lemma finishes_settimeout (s : Sock) : finishes (settimeout s).
Proof. apply finishes_emit. Qed.

Create HintDb finishes.
#[local] Hint Resolve finishes_ret finishes_raise finishes_lift finishes_emit
  finishes_log finishes_close finishes_settimeout
  finishes_recv finishes_sendall finishes_create_connection : finishes.

Section Finishes.
Variable BUFFER_SIZE : Z.
Variable blocked : gset str.

Lemma finishes_recv_until (sock : Sock) (delimiter : bytes) :
  finishes (recv_until BUFFER_SIZE sock delimiter).
Proof.
  intros env.
  destruct (recv_until_reads BUFFER_SIZE sock delimiter env) as (r & env' & evs & -> & _).
  eexists _, _, _. reflexivity.
Qed.

Lemma finishes_tunnel : finishes (tunnel BUFFER_SIZE).
Proof.
  intros env.
  destruct (tunnel_loop_events BUFFER_SIZE (S (length (selects env))) env)
    as (r & env' & evs & Hrun & _); [lia|].
  exists r, env', evs. exact Hrun.
Qed.

Lemma response_loop_finishes (fuel : nat) :
  forall env, (length (server_in env) < fuel)%nat ->
  exists r env' evs, response_loop BUFFER_SIZE fuel env = Done r env' evs.
Proof.
  induction fuel as [|fuel IH]; intros env Hfuel; [lia|].
  cbn [response_loop]. unfold bind at 1, try_except, bind at 1.
  destruct (recv_cases Server BUFFER_SIZE env) as [(e & -> & _)|(answer & rest & Hin & ->)].
  { destruct e; eexists _, _, _; reflexivity. }
  destruct answer as [data|e].
  2:{ destruct e; eexists _, _, _; reflexivity. }
  destruct data as [|b data]; cbn [is_empty].
  { eexists _, _, _. reflexivity. }
  unfold bind at 1.
  destruct (sendall_cases Client (b :: data) (set_inbox Server rest env))
    as (rs & env1 & -> & _ & Hin1).
  destruct rs as [[]|e].
  - destruct (IH env1) as (r & env' & evs & Hrun).
    { rewrite Hin1. simpl. simpl in Hin. rewrite Hin in Hfuel. simpl in Hfuel. lia. }
    cbn. rewrite Hrun. eexists _, _, _. reflexivity.
  - destruct e; eexists _, _, _; reflexivity.
Qed.

Lemma finishes_relay_response : finishes (relay_response BUFFER_SIZE).
Proof. intros env. apply response_loop_finishes. lia. Qed.

Lemma finishes_reject (host : str) : finishes (reject host).
Proof. unfold reject. apply finishes_bind; auto with finishes. Qed.

Lemma finishes_connect_tunnel (target : str) :
  finishes (connect_tunnel BUFFER_SIZE blocked target).
Proof.
  unfold connect_tunnel. apply finishes_bind; [auto with finishes|].
  intros [dest_host dest_port]. destruct (bool_decide (dest_host ∈ blocked)).
  - apply finishes_reject.
  - repeat (apply finishes_bind; [auto using finishes_tunnel with finishes | intros _]).
    auto with finishes.
Qed.

Lemma finishes_http_forward (method target version request_line : str)
    (headers : dict) :
  finishes (http_forward BUFFER_SIZE blocked method target version request_line headers).
Proof.
  unfold http_forward. apply finishes_bind; [auto with finishes|].
  intros [host port]. destruct (bool_decide (host ∈ blocked)).
  - apply finishes_reject.
  - apply finishes_bind; [auto with finishes | intros _].
    apply finishes_bind; [auto with finishes | intros _].
    apply finishes_bind; [auto with finishes | intros line].
    apply finishes_bind; [auto with finishes | intros _].
    apply finishes_bind; [auto with finishes | intros _].
    apply finishes_bind.
    { destruct (dict_mem (lit "content-length") headers); [|auto with finishes].
      apply finishes_bind; [auto with finishes | intros n].
      apply finishes_bind; [auto with finishes | intros body].
      auto with finishes. }
    intros _. apply finishes_bind; [apply finishes_relay_response | intros _].
    auto with finishes.
Qed.

Lemma finishes_dispatch (header_data : bytes) :
  finishes (dispatch BUFFER_SIZE blocked header_data).
Proof.
  unfold dispatch. destruct (is_empty header_data); [auto with finishes|].
  apply finishes_bind; [auto with finishes|]. intros [request_line headers].
  destruct (length (split_ws request_line) <? 3)%nat; [auto with finishes|].
  apply finishes_bind; [auto with finishes|]. intros [[method target] version].
  destruct (bool_decide (upper method = lit "CONNECT")).
  - apply finishes_connect_tunnel.
  - apply finishes_http_forward.
Qed.

Lemma finishes_handle_request : finishes (handle_request BUFFER_SIZE blocked).
Proof.
  unfold handle_request. apply finishes_bind.
  - apply finishes_recv_until.
  - apply finishes_dispatch.
Qed.
End Finishes.

(** ** What a run shows *)

Lemma after_nil {A : Type} (run : Run A) : after [] run = run.
Proof. destruct run; reflexivity. Qed.

Lemma sent_to_app (t : Sock) (evs1 evs2 : list Event) :
  sent_to t (evs1 ++ evs2) = sent_to t evs1 ++ sent_to t evs2.
Proof. apply flat_map_app. Qed.

Lemma connects_app (evs1 evs2 : list Event) :
  connects (evs1 ++ evs2) = connects evs1 ++ connects evs2.
Proof. apply flat_map_app. Qed.

Lemma logged_app (evs1 evs2 : list Event) :
  logged (evs1 ++ evs2) = logged evs1 ++ logged evs2.
Proof. apply flat_map_app. Qed.

Lemma logged_log (entries : list LogEntry) : logged (map ELog entries) = entries.
Proof. induction entries as [|x l IH]; simpl; [|rewrite IH]; reflexivity. Qed.

Lemma sent_to_log (t : Sock) (entries : list LogEntry) :
  sent_to t (map ELog entries) = [].
Proof. induction entries as [|x l IH]; simpl; [|rewrite IH]; reflexivity. Qed.

Lemma connects_log (entries : list LogEntry) : connects (map ELog entries) = [].
Proof. induction entries as [|x l IH]; simpl; [|rewrite IH]; reflexivity. Qed.

(** Reads write nothing, connect to nothing and log nothing. *)
Lemma reads_silent (s : Sock) (evs : list Event) :
  Forall (is_recv s) evs ->
  (forall t, sent_to t evs = []) /\ connects evs = [] /\ logged evs = [].
Proof.
  induction 1 as [|e evs (n & answer & ->) _ (IHs & IHc & IHl)].
  - repeat split.
  - repeat split; [intros t; simpl; apply IHs | simpl; exact IHc | simpl; exact IHl].
Qed.

Section Handler.
Variable BUFFER_SIZE : Z.
Variable blocked : gset str.

(** [try: m  except socket.timeout: pass  except Exception as e: log(...)
    finally: client.close()] *)
Lemma guarded_run (m : M unit) (env env1 : Env) (r : Result unit)
    (evs : list Event) :
  m env = Done r env1 evs ->
  try_finally (try_except m on_exception) (close Client) env
  = Done (Ok tt) env1 (evs ++ map ELog (error_entries r) ++ [EClose Client]).
Proof.
  intros Hm. unfold try_finally, try_except. rewrite Hm.
  destruct r as [[]|e]; [reflexivity|].
  destruct e; cbn; rewrite ?app_nil_r, <- ?app_assoc; reflexivity.
Qed.

(** [handle_client] ends for every environment, raises nothing, and its
    last call closes the client socket. *)
Lemma handle_client_run (env : Env) :
  exists r env1 evs,
    handle_request BUFFER_SIZE blocked env = Done r env1 evs /\
    handle_client BUFFER_SIZE blocked env
    = Done (Ok tt) env1
        (ESetTimeout Client :: evs ++ map ELog (error_entries r) ++ [EClose Client]).
Proof.
  destruct (finishes_handle_request BUFFER_SIZE blocked env) as (r & env1 & evs & Hrun).
  exists r, env1, evs. split; [exact Hrun|].
  unfold handle_client, bind, settimeout, emit.
  rewrite (guarded_run _ _ _ _ _ Hrun). reflexivity.
Qed.

(** The run of [handle_client] once the header block has been read. *)
Lemma handle_client_dispatch (env env1 env2 : Env) (data : bytes)
    (evs1 evs2 : list Event) (r : Result unit) :
  recv_until BUFFER_SIZE Client (bcrlf ++ bcrlf) env = Done (Ok data) env1 evs1 ->
  dispatch BUFFER_SIZE blocked data env1 = Done r env2 evs2 ->
  handle_client BUFFER_SIZE blocked env
  = Done (Ok tt) env2
      (ESetTimeout Client :: evs1 ++ evs2 ++ map ELog (error_entries r)
       ++ [EClose Client]).
Proof.
  intros Hread Hdisp.
  assert (handle_request BUFFER_SIZE blocked env = Done r env2 (evs1 ++ evs2)) as Hrun.
  { unfold handle_request, bind. rewrite Hread, Hdisp. reflexivity. }
  unfold handle_client, bind, settimeout, emit.
  rewrite (guarded_run _ _ _ _ _ Hrun). cbn. rewrite <- app_assoc. reflexivity.
Qed.

Lemma read_headers_reads (env env1 : Env) (r : Result bytes) (evs1 : list Event) :
  recv_until BUFFER_SIZE Client (bcrlf ++ bcrlf) env = Done r env1 evs1 -> Forall (is_recv Client) evs1.
Proof.
  intros Hread.
  destruct (recv_until_reads BUFFER_SIZE Client (bcrlf ++ bcrlf) env)
    as (r' & env' & evs & Hrun & Hevs).
  rewrite Hread in Hrun. injection Hrun as _ _ <-. exact Hevs.
Qed.

Lemma parse_headers_empty : parse_headers [] = Ok ([], []).
Proof. reflexivity. Qed.

(** Fewer than three tokens: lines 96-97 return. *)
Lemma dispatch_short (data : bytes) (env : Env) (request_line : str)
    (headers : dict) :
  parse_headers data = Ok (request_line, headers) ->
  (length (split_ws request_line) < 3)%nat ->
  dispatch BUFFER_SIZE blocked data env = Done (Ok tt) env [].
Proof.
  intros Hparse Hlen. unfold dispatch. destruct (is_empty data); [reflexivity|].
  unfold bind at 1, lift. rewrite Hparse, after_nil.
  destruct (Nat.ltb_spec (length (split_ws request_line)) 3); [reflexivity | lia].
Qed.

Lemma data_not_empty (data : bytes) (request_line : str) (headers : dict) :
  parse_headers data = Ok (request_line, headers) ->
  (0 < length (split_ws request_line))%nat ->
  is_empty data = false.
Proof.
  intros Hparse Hlen. destruct data; [|reflexivity].
  rewrite parse_headers_empty in Hparse. injection Hparse as <- <-.
  simpl in Hlen. lia.
Qed.

(** More than three tokens: the unpacking of line 99 raises. *)
Lemma dispatch_long (data : bytes) (env : Env) (request_line : str)
    (headers : dict) :
  parse_headers data = Ok (request_line, headers) ->
  (3 < length (split_ws request_line))%nat ->
  dispatch BUFFER_SIZE blocked data env = Done (Raise ValueError) env [].
Proof.
  intros Hparse Hlen. unfold dispatch.
  rewrite (data_not_empty _ _ _ Hparse) by lia.
  unfold bind at 1, lift. rewrite Hparse, after_nil.
  destruct (Nat.ltb_spec (length (split_ws request_line)) 3); [lia|].
  unfold bind, lift.
  destruct (split_ws request_line) as [|a [|b [|c [|d parts]]]]; simpl in Hlen; try lia.
  reflexivity.
Qed.

(** Three tokens: the method chooses the branch (lines 99-103). *)
Lemma dispatch_three (data : bytes) (env : Env) (request_line : str)
    (headers : dict) (method target version : str) :
  parse_headers data = Ok (request_line, headers) ->
  split_ws request_line = [method; target; version] ->
  dispatch BUFFER_SIZE blocked data env =
  if bool_decide (upper method = lit "CONNECT")
  then connect_tunnel BUFFER_SIZE blocked target env
  else http_forward BUFFER_SIZE blocked (upper method) target version
         request_line headers env.
Proof.
  intros Hparse Hparts. unfold dispatch.
  rewrite (data_not_empty _ _ _ Hparse) by (rewrite Hparts; simpl; lia).
  unfold bind at 1, lift. rewrite Hparse, after_nil, Hparts. cbn [length Nat.ltb Nat.leb].
  unfold bind at 1, lift. cbn [unpack3]. rewrite after_nil.
  destruct (bool_decide (upper method = lit "CONNECT")); reflexivity.
Qed.
End Handler.

(** ** Malformed request lines *)

(** C7. When the request line of the header block read has fewer than three
    tokens, [handle_client] returns normally after closing the client socket:
    apart from setting the timeout and reading the header block it makes no
    call, so it writes no byte to the client and opens no upstream socket. *)
Theorem C7_short_request_line (BUFFER_SIZE : Z) (blocked : gset str)
    (env env1 : Env) (data : bytes) (evs1 : list Event) (request_line : str)
    (headers : dict) :
  recv_until BUFFER_SIZE Client (bcrlf ++ bcrlf) env = Done (Ok data) env1 evs1 ->
  parse_headers data = Ok (request_line, headers) ->
  (length (split_ws request_line) < 3)%nat ->
  exists evs,
    handle_client BUFFER_SIZE blocked env = Done (Ok tt) env1 evs /\
    evs = ESetTimeout Client :: evs1 ++ [EClose Client] /\
    Forall (is_recv Client) evs1 /\
    sent_to Client evs = [] /\ connects evs = [] /\ closed Client evs = true.
Proof.
  intros Hread Hparse Hlen.
  pose proof (read_headers_reads _ _ _ _ _ Hread) as Hreads.
  destruct (reads_silent _ _ Hreads) as (Hsent & Hconn & _).
  eexists. split.
  { rewrite (handle_client_dispatch _ _ _ _ _ _ _ _ _ Hread
               (dispatch_short _ _ _ _ _ _ Hparse Hlen)). reflexivity. }
  cbn [app map error_entries]. split; [reflexivity|]. split; [exact Hreads|].
  change (ESetTimeout Client :: evs1 ++ [EClose Client])
    with ([ESetTimeout Client] ++ evs1 ++ [EClose Client]).
  rewrite !sent_to_app, !connects_app, Hsent, Hconn.
  split; [reflexivity|]. split; [reflexivity|].
  unfold closed. rewrite !existsb_app. cbn. apply orb_true_r.
Qed.

(** The request line GET. *)
Lemma C7_short_request_line_witness :
  exists env1 evs,
    handle_client 4096 ∅ (client_sends [header_block ["GET"%string]]) = Done (Ok tt) env1 evs /\
    sent_to Client evs = [] /\ connects evs = [] /\ closed Client evs = true.
Proof.
  edestruct (C7_short_request_line 4096 ∅ (client_sends [header_block ["GET"%string]]))
    as (evs & Hrun & _ & _ & Hsent & Hconn & Hclosed).
  - vm_compute. reflexivity.
  - vm_compute. reflexivity.
  - vm_compute. lia.
  - eexists _, evs. split; [exact Hrun|]. split; [exact Hsent|]. split; assumption.
Defined.

(** C9. When the request line of the header block read has more than three
    tokens, the unpacking raises [ValueError], which the handler catches: it
    logs one ERROR entry and closes the client socket; it writes no byte to
    either socket and attempts no connection. *)
Theorem C9_long_request_line (BUFFER_SIZE : Z) (blocked : gset str)
    (env env1 : Env) (data : bytes) (evs1 : list Event) (request_line : str)
    (headers : dict) :
  recv_until BUFFER_SIZE Client (bcrlf ++ bcrlf) env = Done (Ok data) env1 evs1 ->
  parse_headers data = Ok (request_line, headers) ->
  (3 < length (split_ws request_line))%nat ->
  unpack3 (split_ws request_line) = Raise ValueError /\
  exists evs,
    handle_client BUFFER_SIZE blocked env = Done (Ok tt) env1 evs /\
    evs = ESetTimeout Client :: evs1 ++ [ELog (ERROR ValueError); EClose Client] /\
    Forall (is_recv Client) evs1 /\
    (forall t, sent_to t evs = []) /\ connects evs = [] /\
    logged evs = [ERROR ValueError] /\ closed Client evs = true.
Proof.
  intros Hread Hparse Hlen. split.
  { destruct (split_ws request_line) as [|a [|b [|c [|d parts]]]];
      simpl in Hlen; try lia. reflexivity. }
  pose proof (read_headers_reads _ _ _ _ _ Hread) as Hreads.
  destruct (reads_silent _ _ Hreads) as (Hsent & Hconn & Hlog).
  eexists. split.
  { rewrite (handle_client_dispatch _ _ _ _ _ _ _ _ _ Hread
               (dispatch_long _ _ _ _ _ _ Hparse Hlen)). reflexivity. }
  cbn [app map error_entries]. split; [reflexivity|]. split; [exact Hreads|].
  change (ESetTimeout Client :: evs1 ++ [ELog (ERROR ValueError); EClose Client])
    with ([ESetTimeout Client] ++ evs1 ++ [ELog (ERROR ValueError); EClose Client]).
  split; [intros t; rewrite !sent_to_app, Hsent; reflexivity|].
  rewrite !connects_app, !logged_app, Hconn, Hlog.
  split; [reflexivity|]. split; [reflexivity|].
  unfold closed. rewrite !existsb_app. cbn. rewrite !orb_true_r. reflexivity.
Qed.

(** A target with a space in it. *)
Lemma C9_long_request_line_witness :
  exists env1 evs,
    handle_client 4096 ∅
      (client_sends [header_block ["GET /a b HTTP/1.1"; "Host: example.com"]%string])
    = Done (Ok tt) env1 evs /\
    (forall t, sent_to t evs = []) /\ connects evs = [] /\
    logged evs = [ERROR ValueError].
Proof.
  edestruct (C9_long_request_line 4096 ∅
               (client_sends [header_block ["GET /a b HTTP/1.1"; "Host: example.com"]%string]))
    as (_ & evs & Hrun & _ & _ & Hsent & Hconn & Hlog & _).
  - vm_compute. reflexivity.
  - vm_compute. reflexivity.
  - vm_compute. lia.
  - eexists _, evs. split; [exact Hrun|]. split; [exact Hsent|]. split; assumption.
Defined.

(** ** Blocked hosts *)

Lemma reject_run (host : str) (env : Env) :
  exists r env2 entries,
    reject host env = Done r env2 (ESend Client resp_403 :: map ELog entries) /\
    (client_out env = [] -> r = Ok tt /\ entries = [BLOCKED host]).
Proof.
  unfold reject, bind, sendall, log, emit. cbn [outbox].
  destruct (client_out env) as [|[e|] rest].
  - exists (Ok tt), env, [BLOCKED host]. split; [reflexivity | intros _; split; reflexivity].
  - exists (Raise e), (set_outbox Client rest env), []. split; [reflexivity | discriminate].
  - exists (Ok tt), (set_outbox Client rest env), [BLOCKED host].
    split; [reflexivity | discriminate].
Qed.

Lemma dispatch_blocked (BUFFER_SIZE : Z) (blocked : gset str) (data : bytes)
    (env : Env) (request_line : str) (headers : dict)
    (method target version host : str) (port : Z) :
  parse_headers data = Ok (request_line, headers) ->
  split_ws request_line = [method; target; version] ->
  destination method target headers = Ok (host, port) ->
  host ∈ blocked ->
  dispatch BUFFER_SIZE blocked data env = reject host env.
Proof.
  intros Hparse Hparts Hdest Hin.
  rewrite (dispatch_three _ _ _ _ _ _ _ _ _ Hparse Hparts).
  unfold destination in Hdest.
  destruct (bool_decide (upper method = lit "CONNECT")).
  - unfold connect_tunnel, bind at 1, lift. rewrite Hdest, after_nil.
    rewrite bool_decide_eq_true_2 by exact Hin. reflexivity.
  - unfold http_forward, bind at 1, lift. rewrite Hdest, after_nil.
    rewrite bool_decide_eq_true_2 by exact Hin. reflexivity.
Qed.

(** C1. When the destination derived from the request, a CONNECT target or a
    Host header with its host in lower case, has a host of the blocklist, the
    handler attempts no connection; its one write is the 403 response to the
    client, after which it logs at most one entry and closes the client
    socket.  When the write is not scripted to fail, the entry is BLOCKED. *)
Theorem C1_blocked_host_gets_403 (BUFFER_SIZE : Z) (blocked : gset str)
    (env env1 : Env) (data : bytes) (evs1 : list Event) (request_line : str)
    (headers : dict) (method target version host : str) (port : Z) :
  recv_until BUFFER_SIZE Client (bcrlf ++ bcrlf) env = Done (Ok data) env1 evs1 ->
  parse_headers data = Ok (request_line, headers) ->
  split_ws request_line = [method; target; version] ->
  destination method target headers = Ok (host, port) ->
  host ∈ blocked ->
  exists env2 evs entries,
    handle_client BUFFER_SIZE blocked env = Done (Ok tt) env2 evs /\
    evs = ESetTimeout Client :: evs1 ++ [ESend Client resp_403]
          ++ map ELog entries ++ [EClose Client] /\
    Forall (is_recv Client) evs1 /\
    connects evs = [] /\
    sent_to Client evs = [resp_403] /\ sent_to Server evs = [] /\
    (client_out env1 = [] -> entries = [BLOCKED host]).
Proof.
  intros Hread Hparse Hparts Hdest Hin.
  pose proof (read_headers_reads _ _ _ _ _ Hread) as Hreads.
  destruct (reads_silent _ _ Hreads) as (Hsent & Hconn & _).
  destruct (reject_run host env1) as (r & env2 & entries & Hrej & Hlog).
  rewrite <- (dispatch_blocked BUFFER_SIZE blocked _ _ _ _ _ _ _ _ _
                Hparse Hparts Hdest Hin) in Hrej.
  exists env2. eexists. exists (entries ++ error_entries r). split.
  { rewrite (handle_client_dispatch _ _ _ _ _ _ _ _ _ Hread Hrej). reflexivity. }
  split; [cbn [app]; rewrite map_app, <- !app_assoc; reflexivity|].
  split; [exact Hreads|].
  change (ESetTimeout Client :: evs1 ++ (ESend Client resp_403 :: map ELog entries)
          ++ map ELog (error_entries r) ++ [EClose Client])
    with ([ESetTimeout Client] ++ evs1
          ++ ([ESend Client resp_403] ++ map ELog entries)
          ++ map ELog (error_entries r) ++ [EClose Client]).
  rewrite !connects_app, !sent_to_app, !Hsent, Hconn, !connects_log, !sent_to_log.
  split; [reflexivity|]. split; [reflexivity|]. split; [reflexivity|].
  intros Hout. destruct (Hlog Hout) as [-> ->]. reflexivity.
Qed.

(** A CONNECT and a plaintext request to a blocked host, in upper case. *)
Lemma C1_blocked_host_gets_403_witness :
  (exists env2 evs,
     handle_client 4096 {[ lit "example.com" ]}
       (client_sends [header_block ["CONNECT Example.COM:443 HTTP/1.1"]%string])
     = Done (Ok tt) env2 evs /\
     connects evs = [] /\ sent_to Client evs = [resp_403] /\
     logged evs = [BLOCKED (lit "example.com")]) /\
  (exists env2 evs,
     handle_client 4096 {[ lit "example.com" ]}
       (client_sends [header_block ["GET http://other.org/ HTTP/1.1";
                                    "Host: EXAMPLE.com:8080"]%string])
     = Done (Ok tt) env2 evs /\
     connects evs = [] /\ sent_to Client evs = [resp_403] /\
     logged evs = [BLOCKED (lit "example.com")]).
Proof.
  split.
  - edestruct (C1_blocked_host_gets_403 4096 {[ lit "example.com" ]}
                 (client_sends [header_block ["CONNECT Example.COM:443 HTTP/1.1"]%string]))
      as (env2 & evs & entries & Hrun & Hevs & _ & Hconn & Hsent & _ & Hlog).
    + vm_compute. reflexivity.
    + vm_compute. reflexivity.
    + vm_compute. reflexivity.
    + vm_compute. reflexivity.
    + apply elem_of_singleton. reflexivity.
    + exists env2, evs. split; [exact Hrun|]. split; [exact Hconn|]. split; [exact Hsent|].
      rewrite Hevs, (Hlog eq_refl). reflexivity.
  - edestruct (C1_blocked_host_gets_403 4096 {[ lit "example.com" ]}
                 (client_sends [header_block ["GET http://other.org/ HTTP/1.1";
                                              "Host: EXAMPLE.com:8080"]%string]))
      as (env2 & evs & entries & Hrun & Hevs & _ & Hconn & Hsent & _ & Hlog).
    + vm_compute. reflexivity.
    + vm_compute. reflexivity.
    + vm_compute. reflexivity.
    + vm_compute. reflexivity.
    + apply elem_of_singleton. reflexivity.
    + exists env2, evs. split; [exact Hrun|]. split; [exact Hconn|]. split; [exact Hsent|].
      rewrite Hevs, (Hlog eq_refl). reflexivity.
Defined.

(** ** Malformed input *)

(** The only exception of lines 104-106 is [ValueError]. *)
Lemma connect_destination_raises (target : str) :
  (forall host port, connect_destination target <> Ok (host, port)) ->
  connect_destination target = Raise ValueError.
Proof.
  unfold connect_destination. intros Hno.
  destruct (split (lit ":") None target) as [|h [|p [|x l]]]; try reflexivity.
  cbn [unpack2 rbind] in *. destruct (py_int p) as [n|]; [|reflexivity].
  destruct (Hno (lower h) n). reflexivity.
Qed.

Lemma dispatch_malformed (BUFFER_SIZE : Z) (blocked : gset str) (data : bytes)
    (env : Env) (request_line : str) (headers : dict) :
  parse_headers data = Ok (request_line, headers) ->
  malformed request_line ->
  exists r,
    dispatch BUFFER_SIZE blocked data env = Done r env [] /\
    error_entries r =
      if (length (split_ws request_line) <? 3)%nat then [] else [ERROR ValueError].
Proof.
  intros Hparse Hmal. unfold malformed in Hmal.
  destruct (Nat.ltb_spec (length (split_ws request_line)) 3) as [Hlt|Hge].
  { exists (Ok tt). split; [|reflexivity]. eapply dispatch_short; eassumption. }
  destruct (split_ws request_line) as [|method [|target [|version [|x parts]]]] eqn:Hparts;
    simpl in Hge; try lia.
  - destruct Hmal as [Hconnect Hdest]. exists (Raise ValueError). split; [|reflexivity].
    rewrite (dispatch_three _ _ _ _ _ _ _ _ _ Hparse Hparts).
    rewrite bool_decide_eq_true_2 by exact Hconnect.
    unfold connect_tunnel, bind, lift.
    rewrite (connect_destination_raises _ Hdest). reflexivity.
  - exists (Raise ValueError). split; [|reflexivity].
    eapply dispatch_long; [eassumption|]. rewrite Hparts. simpl. lia.
Qed.

(** C2, as the code has it.  On malformed input the handler writes no byte to
    either socket and attempts no connection, and closes the client socket.
    It logs nothing when the request line has fewer than three tokens; when
    the request line has more than three tokens, or the target of a CONNECT
    does not read as host:port, it logs one entry, an ERROR. *)
Theorem C2_malformed_input (BUFFER_SIZE : Z) (blocked : gset str)
    (env env1 : Env) (data : bytes) (evs1 : list Event) (request_line : str)
    (headers : dict) :
  recv_until BUFFER_SIZE Client (bcrlf ++ bcrlf) env = Done (Ok data) env1 evs1 ->
  parse_headers data = Ok (request_line, headers) ->
  malformed request_line ->
  exists evs,
    handle_client BUFFER_SIZE blocked env = Done (Ok tt) env1 evs /\
    (forall t, sent_to t evs = []) /\ connects evs = [] /\
    logged evs =
      (if (length (split_ws request_line) <? 3)%nat then [] else [ERROR ValueError]) /\
    closed Client evs = true.
Proof.
  intros Hread Hparse Hmal.
  pose proof (read_headers_reads _ _ _ _ _ Hread) as Hreads.
  destruct (reads_silent _ _ Hreads) as (Hsent & Hconn & Hlog).
  destruct (dispatch_malformed BUFFER_SIZE blocked data env1 _ _ Hparse Hmal)
    as (r & Hdisp & Hentries).
  eexists. split.
  { rewrite (handle_client_dispatch _ _ _ _ _ _ _ _ _ Hread Hdisp). reflexivity. }
  rewrite Hentries. cbn [app].
  change (ESetTimeout Client :: evs1 ++ ?l) with ([ESetTimeout Client] ++ evs1 ++ l).
  split; [intros t; rewrite !sent_to_app, Hsent, sent_to_log; reflexivity|].
  rewrite !connects_app, !logged_app, Hconn, Hlog, connects_log, logged_log.
  split; [reflexivity|]. split; [cbn; apply app_nil_r|].
  unfold closed. rewrite !existsb_app. cbn. rewrite !orb_true_r. reflexivity.
Qed.

(** A CONNECT target with two colons. *)
Lemma C2_malformed_input_witness :
  exists env1 evs,
    handle_client 4096 ∅
      (client_sends [header_block ["CONNECT example.com:443:1 HTTP/1.1"]%string])
    = Done (Ok tt) env1 evs /\
    (forall t, sent_to t evs = []) /\ connects evs = [] /\
    logged evs = [ERROR ValueError].
Proof.
  edestruct (C2_malformed_input 4096 ∅
               (client_sends [header_block ["CONNECT example.com:443:1 HTTP/1.1"]%string]))
    as (evs & Hrun & Hsent & Hconn & Hlog & _).
  - vm_compute. reflexivity.
  - vm_compute. reflexivity.
  - split; [reflexivity | intros host port; vm_compute; discriminate].
  - eexists _, evs. split; [exact Hrun|]. split; [exact Hsent|]. split; assumption.
Defined.

(** C2 as stated fails: the target of this CONNECT has no colon, and the
    handler makes a log entry. *)
Lemma C2_counterexample :
  malformed (lit "CONNECT example.com HTTP/1.1") /\
  exists env1 evs,
    handle_client 4096 ∅
      (client_sends [header_block ["CONNECT example.com HTTP/1.1"]%string])
    = Done (Ok tt) env1 evs /\
    logged evs = [ERROR ValueError] /\ logged evs <> [].
Proof.
  split; [split; [reflexivity | intros host port; vm_compute; discriminate]|].
  eexists _, _. split; [vm_compute; reflexivity|].
  split; [reflexivity | discriminate].
Qed.

(** ** Destinations *)

Lemma lower_char_idem (c : N) : lower_char (lower_char c) = lower_char c.
Proof.
  unfold lower_char.
  destruct ((65 <=? c) && (c <=? 90)) eqn:Hup; [|rewrite Hup; reflexivity].
  apply andb_true_iff in Hup as [H1 H2].
  apply N.leb_le in H1. apply N.leb_le in H2.
  destruct (N.leb_spec (c + 32) 90) as [Hle|_]; [lia|].
  rewrite andb_false_r. reflexivity.
Qed.

Lemma lower_idem (s : str) : lower (lower s) = lower s.
Proof.
  unfold lower. rewrite map_map. apply map_ext. intros c. apply lower_char_idem.
Qed.

Lemma unpack2_ok {A : Type} (l : list A) (a b : A) :
  unpack2 l = Ok (a, b) -> l = [a; b].
Proof.
  destruct l as [|x [|y [|z l]]]; simpl; intros Heq; try discriminate Heq.
  injection Heq as -> ->. reflexivity.
Qed.

(** The host and the port read from [text], as lines 104-106 and 126-127
    read them. *)
Lemma host_port_ok (text host : str) (port : Z) :
  rbind (unpack2 (split (lit ":") None text)) (fun '(h, p) =>
  rbind (or_raise ValueError (py_int p)) (fun p' => Ok (h, p'))) = Ok (host, port) ->
  exists p, split (lit ":") None text = [host; p] /\ py_int p = Some port.
Proof.
  destruct (unpack2 (split (lit ":") None text)) as [[h p]|e] eqn:Hsplit;
    cbn [rbind]; [|discriminate].
  apply unpack2_ok in Hsplit.
  destruct (py_int p) as [n|] eqn:Hint; cbn [or_raise rbind]; [|discriminate].
  intros Heq. injection Heq as -> ->. exists p. split; assumption.
Qed.

(** C8, as the code has it.  The host of every destination the proxy derives
    is in lower case.  Its port is the integer [int] reads after the colon of
    the CONNECT target or of the Host header, whatever its value, and 80 when
    the Host header has no colon. *)
Theorem C8_destination (method target : str) (headers : dict) (host : str)
    (port : Z) :
  destination method target headers = Ok (host, port) ->
  lower host = host /\
  exists text,
    text = (if bool_decide (upper method = lit "CONNECT") then target
            else dict_get (lit "host") [] headers) /\
    ((exists h p, split (lit ":") None text = [h; p] /\
                  host = lower h /\ py_int p = Some port) \/
     (upper method <> lit "CONNECT" /\ contains (lit ":") text = false /\
      host = lower text /\ port = 80%Z)).
Proof.
  unfold destination. intros Hdest.
  destruct (bool_decide (upper method = lit "CONNECT")) eqn:Hmethod.
  - unfold connect_destination in Hdest.
    destruct (unpack2 (split (lit ":") None target)) as [[h p]|e] eqn:Hsplit;
      cbn [rbind] in Hdest; [|discriminate].
    apply unpack2_ok in Hsplit.
    destruct (py_int p) as [n|] eqn:Hint; cbn [or_raise rbind] in Hdest; [|discriminate].
    injection Hdest as <- <-. split; [apply lower_idem|].
    exists target. split; [reflexivity|]. left. exists h, p. repeat split; assumption.
  - apply bool_decide_eq_false in Hmethod. unfold forward_destination in Hdest.
    destruct (contains (lit ":") (dict_get (lit "host") [] headers)) eqn:Hcolon.
    + destruct (rbind (unpack2 (split (lit ":") None (dict_get (lit "host") [] headers))) _)
        as [[h n]|e] eqn:Hhp; cbn [rbind] in Hdest; [|discriminate].
      apply host_port_ok in Hhp as (p & Hsplit & Hint).
      injection Hdest as <- <-. split; [apply lower_idem|].
      eexists. split; [reflexivity|]. left. exists h, p. repeat split; assumption.
    + cbn [rbind] in Hdest. injection Hdest as <- <-. split; [apply lower_idem|].
      eexists. split; [reflexivity|]. right. repeat split; assumption.
Qed.

(** The destination of a CONNECT to Example.COM:8443. *)
Lemma C8_destination_witness :
  lower (lit "example.com") = lit "example.com" /\
  exists text,
    text = lit "Example.COM:8443" /\
    ((exists h p, split (lit ":") None text = [h; p] /\
                  lit "example.com" = lower h /\ py_int p = Some 8443%Z) \/
     (upper (lit "connect") <> lit "CONNECT" /\ contains (lit ":") text = false /\
      lit "example.com" = lower text /\ 8443%Z = 80%Z)).
Proof.
  apply (C8_destination (lit "connect") (lit "Example.COM:8443") []
           (lit "example.com") 8443%Z).
  vm_compute. reflexivity.
Defined.

(** C8 as stated fails: these destinations have the ports 70000 and 0, and
    the handler attempts the connection to the first. *)
Lemma C8_counterexample :
  destination (lit "CONNECT") (lit "example.com:70000") []
  = Ok (lit "example.com", 70000%Z) /\
  ~ (1 <= 70000 <= 65535)%Z /\
  destination (lit "GET") (lit "/") [(lit "host", lit "example.com:0")]
  = Ok (lit "example.com", 0%Z) /\
  ~ (1 <= 0 <= 65535)%Z /\
  exists r env1 evs,
    handle_client 4096 ∅
      (client_sends [header_block ["CONNECT example.com:70000 HTTP/1.1"]%string])
    = Done r env1 evs /\
    connects evs = [(lit "example.com", 70000%Z)].
Proof.
  split; [vm_compute; reflexivity|]. split; [lia|].
  split; [vm_compute; reflexivity|]. split; [lia|].
  eexists _, _, _. split; [vm_compute; reflexivity | reflexivity].
Qed.

(** ** The forwarded request *)

Lemma encode_app (s1 s2 : str) : encode (s1 ++ s2) = encode s1 ++ encode s2.
Proof. apply flat_map_app. Qed.

Lemma encode_header_lines (headers : dict) :
  encode (concat (map header_text headers))
  = concat (map header_line_bytes headers).
Proof.
  induction headers as [|kv headers IH]; [reflexivity|].
  cbn [map concat]. rewrite encode_app, IH. unfold header_text at 1, header_line_bytes at 1.
  rewrite !encode_app. reflexivity.
Qed.

Lemma encode_forward_text (line : str) (headers : dict) :
  encode (forward_text line headers)
  = encode line ++ bcrlf ++ concat (map header_line_bytes headers) ++ bcrlf.
Proof.
  rewrite forward_text_spec, !encode_app, encode_header_lines. reflexivity.
Qed.

(** The rewrite never raises. *)
Lemma rewrite_request_line_spec (method target version request_line : str) :
  rewrite_request_line method target version request_line
  = Ok (if startswith (lit "http://") target
        then method ++ space ++ (lit "/" ++ default [] (after_nth 47 3 target))
             ++ space ++ version
        else request_line).
Proof.
  unfold rewrite_request_line.
  destruct (startswith (lit "http://") target) eqn:Hpre; [|reflexivity].
  rewrite (origin_path_after_third_slash target Hpre). reflexivity.
Qed.

Lemma http_forward_sends (BUFFER_SIZE : Z) (blocked : gset str)
    (method target version request_line : str) (headers : dict) (host : str)
    (port : Z) (env : Env) (line : str) :
  forward_destination headers = Ok (host, port) ->
  host ∉ blocked ->
  connect_answer env = None ->
  rewrite_request_line method target version request_line = Ok line ->
  exists r env2 post,
    http_forward BUFFER_SIZE blocked method target version request_line headers env
    = Done r env2
        (EConnect host port :: ESetTimeout Server
         :: ESend Server (encode (forward_text line headers)) :: post).
Proof.
  intros Hdest Hfree Hconn Hline.
  unfold http_forward. unfold bind at 1. unfold lift at 1. rewrite Hdest, after_nil.
  rewrite bool_decide_eq_false_2 by exact Hfree.
  unfold bind at 1, create_connection. rewrite Hconn.
  unfold bind at 1, settimeout. unfold emit at 1.
  unfold bind at 1. unfold lift at 1. rewrite Hline, after_nil.
  unfold bind at 1.
  destruct (sendall_cases Server (encode (forward_text line headers)) env)
    as (rs & env1 & -> & _).
  destruct rs as [[]|e]; [|eexists _, _, _; reflexivity].
  match goal with
  | |- context [after _ (after _ (after _ (?m env1)))] =>
      assert (finishes m) as Hrest
  end.
  { apply finishes_bind; [auto with finishes | intros _].
    apply finishes_bind.
    { destruct (dict_mem (lit "content-length") headers); [|auto with finishes].
      apply finishes_bind; [auto with finishes | intros n].
      apply finishes_bind; [auto with finishes | intros body].
      auto with finishes. }
    intros _. apply finishes_bind; [apply finishes_relay_response | intros _].
    auto with finishes. }
  destruct (Hrest env1) as (r & env2 & post & ->).
  eexists _, _, _. reflexivity.
Qed.

(** A target with nothing but the scheme and the host has no third "/". *)
Lemma no_third_slash (target : str) :
  startswith (lit "http://") target = true ->
  ~ In 47 (skipn 7 target) ->
  after_nth 47 3 target = None.
Proof.
  intros Hpre Hfree. apply startswith_prefix in Hpre as [t ->].
  change (lit "http://") with [104; 116; 116; 112; 58; 47; 47] in *.
  change (skipn 7 ([104; 116; 116; 112; 58; 47; 47] ++ t)) with t in Hfree.
  change (after_nth 47 3 ([104; 116; 116; 112; 58; 47; 47] ++ t)) with (after_nth 47 1 t).
  destruct (after_nth 47 1 t) as [rest|] eqn:Hr; [|reflexivity].
  destruct Hfree. apply after_nth_single. exists rest. exact Hr.
Qed.

(** C4. For a request that is forwarded (a method other than CONNECT, a host
    that is not blocked, a connection that succeeds) and whose target begins
    with the literal prefix http://, the bytes the handler sends upstream
    begin with the request line METHOD, a space, the path, a space and
    VERSION, followed by CRLF, where METHOD is the method in upper case and
    the path is "/" followed by everything after the third "/" of the
    target, and "/" alone when the target has no "/" after the scheme and
    the host. *)
Theorem C4_origin_form_rewrite (BUFFER_SIZE : Z) (blocked : gset str)
    (env env1 : Env) (data : bytes) (evs1 : list Event) (request_line : str)
    (headers : dict) (method target version host : str) (port : Z) :
  recv_until BUFFER_SIZE Client (bcrlf ++ bcrlf) env = Done (Ok data) env1 evs1 ->
  parse_headers data = Ok (request_line, headers) ->
  split_ws request_line = [method; target; version] ->
  upper method <> lit "CONNECT" ->
  startswith (lit "http://") target = true ->
  forward_destination headers = Ok (host, port) ->
  host ∉ blocked ->
  connect_answer env1 = None ->
  exists env2 evs post path,
    handle_client BUFFER_SIZE blocked env = Done (Ok tt) env2 evs /\
    evs = ESetTimeout Client :: evs1
          ++ EConnect host port :: ESetTimeout Server
          :: ESend Server
               (encode (upper method ++ space ++ path ++ space ++ version) ++ bcrlf
                ++ concat (map header_line_bytes headers) ++ bcrlf)
          :: post /\
    Forall (is_recv Client) evs1 /\
    path = lit "/" ++ default [] (after_nth 47 3 target) /\
    (~ In 47 (skipn 7 target) -> path = lit "/").
Proof.
  intros Hread Hparse Hparts Hmethod Hpre Hdest Hfree Hconn.
  pose proof (read_headers_reads _ _ _ _ _ Hread) as Hreads.
  pose proof (rewrite_origin_form (upper method) target version request_line Hpre)
    as Hline.
  destruct (http_forward_sends BUFFER_SIZE blocked _ _ _ _ _ _ _ _ _
              Hdest Hfree Hconn Hline) as (r & env2 & post & Hfwd).
  assert (dispatch BUFFER_SIZE blocked data env1 = Done r env2
            (EConnect host port :: ESetTimeout Server
             :: ESend Server (encode (forward_text
                  (upper method ++ space
                   ++ (lit "/" ++ default [] (after_nth 47 3 target))
                   ++ space ++ version) headers)) :: post)) as Hdisp.
  { rewrite (dispatch_three _ _ _ _ _ _ _ _ _ Hparse Hparts).
    rewrite bool_decide_eq_false_2 by exact Hmethod. exact Hfwd. }
  exists env2. eexists.
  exists (post ++ map ELog (error_entries r) ++ [EClose Client]).
  exists (lit "/" ++ default [] (after_nth 47 3 target)).
  split.
  { rewrite (handle_client_dispatch _ _ _ _ _ _ _ _ _ Hread Hdisp). reflexivity. }
  split; [rewrite encode_forward_text; reflexivity|].
  split; [exact Hreads|]. split; [reflexivity|].
  intros Hnone. rewrite (no_third_slash target Hpre Hnone). reflexivity.
Qed.

(** The two targets of the specification. *)
Lemma C4_origin_form_rewrite_witness :
  (exists env2 evs post,
     handle_client 4096 ∅
       (client_sends [header_block ["get http://example.com/a/b?x=1 HTTP/1.1";
                                    "Host: example.com"]%string])
     = Done (Ok tt) env2 evs /\
     evs = ESetTimeout Client
           :: ERecv Client 4096
                (Ok (header_block ["get http://example.com/a/b?x=1 HTTP/1.1";
                                   "Host: example.com"]%string))
           :: EConnect (lit "example.com") 80 :: ESetTimeout Server
           :: ESend Server
                (header_block ["GET /a/b?x=1 HTTP/1.1"; "host: example.com"]%string)
           :: post) /\
  (exists env2 evs post,
     handle_client 4096 ∅
       (client_sends [header_block ["GET http://example.com HTTP/1.1";
                                    "Host: example.com"]%string])
     = Done (Ok tt) env2 evs /\
     evs = ESetTimeout Client
           :: ERecv Client 4096
                (Ok (header_block ["GET http://example.com HTTP/1.1";
                                   "Host: example.com"]%string))
           :: EConnect (lit "example.com") 80 :: ESetTimeout Server
           :: ESend Server
                (header_block ["GET / HTTP/1.1"; "host: example.com"]%string)
           :: post).
Proof.
  split.
  - edestruct (C4_origin_form_rewrite 4096 ∅
                 (client_sends [header_block ["get http://example.com/a/b?x=1 HTTP/1.1";
                                              "Host: example.com"]%string]))
      as (env2 & evs & post & path & Hrun & Hevs & _ & Hpath & _).
    + vm_compute. reflexivity.
    + vm_compute. reflexivity.
    + vm_compute. reflexivity.
    + vm_compute. discriminate.
    + vm_compute. reflexivity.
    + vm_compute. reflexivity.
    + apply not_elem_of_empty.
    + reflexivity.
    + exists env2, evs, post. split; [exact Hrun|]. rewrite Hevs, Hpath. reflexivity.
  - edestruct (C4_origin_form_rewrite 4096 ∅
                 (client_sends [header_block ["GET http://example.com HTTP/1.1";
                                              "Host: example.com"]%string]))
      as (env2 & evs & post & path & Hrun & Hevs & _ & _ & Hpath).
    + vm_compute. reflexivity.
    + vm_compute. reflexivity.
    + vm_compute. reflexivity.
    + vm_compute. discriminate.
    + vm_compute. reflexivity.
    + vm_compute. reflexivity.
    + apply not_elem_of_empty.
    + reflexivity.
    + exists env2, evs, post. split; [exact Hrun|]. rewrite Hevs, Hpath.
      * reflexivity.
      * vm_compute. intros H. repeat (destruct H as [H|H]; [discriminate H|]). exact H.
Defined.

(** C6. For a plaintext request that is forwarded (a method other than
    CONNECT, a host that is not blocked, a connection that succeeds), the
    first bytes the handler sends upstream, right after connecting, are the
    request line (rewritten when the target begins with http://), CRLF, then
    for every entry of the header dictionary, in its order, the key, a colon
    and a space, the value and CRLF, then CRLF.  The dictionary is the one
    built from the header lines with lower-cased names and trimmed values. *)
Theorem C6_forwarded_request (BUFFER_SIZE : Z) (blocked : gset str)
    (env env1 : Env) (data : bytes) (evs1 : list Event) (request_line : str)
    (headers : dict) (method target version host : str) (port : Z) :
  recv_until BUFFER_SIZE Client (bcrlf ++ bcrlf) env = Done (Ok data) env1 evs1 ->
  parse_headers data = Ok (request_line, headers) ->
  split_ws request_line = [method; target; version] ->
  upper method <> lit "CONNECT" ->
  forward_destination headers = Ok (host, port) ->
  host ∉ blocked ->
  connect_answer env1 = None ->
  exists env2 evs post line,
    handle_client BUFFER_SIZE blocked env = Done (Ok tt) env2 evs /\
    evs = ESetTimeout Client :: evs1
          ++ EConnect host port :: ESetTimeout Server
          :: ESend Server (encode line ++ bcrlf
                           ++ concat (map header_line_bytes headers) ++ bcrlf)
          :: post /\
    Forall (is_recv Client) evs1 /\
    line = (if startswith (lit "http://") target
            then upper method ++ space
                 ++ (lit "/" ++ default [] (after_nth 47 3 target))
                 ++ space ++ version
            else request_line) /\
    headers = dict_of (header_pairs data).
Proof.
  intros Hread Hparse Hparts Hmethod Hdest Hfree Hconn.
  pose proof (read_headers_reads _ _ _ _ _ Hread) as Hreads.
  pose proof (rewrite_request_line_spec (upper method) target version request_line)
    as Hline.
  destruct (http_forward_sends BUFFER_SIZE blocked _ _ _ _ _ _ _ _ _
              Hdest Hfree Hconn Hline) as (r & env2 & post & Hfwd).
  assert (dispatch BUFFER_SIZE blocked data env1 = Done r env2
            (EConnect host port :: ESetTimeout Server
             :: ESend Server (encode (forward_text
                  (if startswith (lit "http://") target
                   then upper method ++ space
                        ++ (lit "/" ++ default [] (after_nth 47 3 target))
                        ++ space ++ version
                   else request_line) headers)) :: post)) as Hdisp.
  { rewrite (dispatch_three _ _ _ _ _ _ _ _ _ Hparse Hparts).
    rewrite bool_decide_eq_false_2 by exact Hmethod. exact Hfwd. }
  exists env2. eexists.
  exists (post ++ map ELog (error_entries r) ++ [EClose Client]). eexists.
  split.
  { rewrite (handle_client_dispatch _ _ _ _ _ _ _ _ _ Hread Hdisp). reflexivity. }
  split; [rewrite encode_forward_text; reflexivity|].
  split; [exact Hreads|]. split; [reflexivity|].
  rewrite parse_headers_spec in Hparse. injection Hparse as _ <-. reflexivity.
Qed.

(** A request with an absolute URI and three header lines. *)
Lemma C6_forwarded_request_witness :
  exists env2 evs post,
    handle_client 4096 ∅
      (client_sends [header_block ["get http://example.com/a/b?x=1 HTTP/1.1";
                                   "Host:  Example.com "; "X-Trace : 1";
                                   "Accept: */*"]%string])
    = Done (Ok tt) env2 evs /\
    evs = ESetTimeout Client
          :: ERecv Client 4096
               (Ok (header_block ["get http://example.com/a/b?x=1 HTTP/1.1";
                                  "Host:  Example.com "; "X-Trace : 1";
                                  "Accept: */*"]%string))
          :: EConnect (lit "example.com") 80 :: ESetTimeout Server
          :: ESend Server
               (header_block ["GET /a/b?x=1 HTTP/1.1"; "host: Example.com";
                              "x-trace : 1"; "accept: */*"]%string)
          :: post.
Proof.
  edestruct (C6_forwarded_request 4096 ∅
               (client_sends [header_block ["get http://example.com/a/b?x=1 HTTP/1.1";
                                            "Host:  Example.com "; "X-Trace : 1";
                                            "Accept: */*"]%string]))
    as (env2 & evs & post & line & Hrun & Hevs & _ & Hline & _).
  - vm_compute. reflexivity.
  - vm_compute. reflexivity.
  - vm_compute. reflexivity.
  - vm_compute. discriminate.
  - vm_compute. reflexivity.
  - apply not_elem_of_empty.
  - reflexivity.
  - exists env2, evs, post. split; [exact Hrun|]. rewrite Hevs, Hline. reflexivity.
Defined.

(** ** The two sockets of a connection *)

(** C3, on an input where it fails.  The client announces a body of five
    bytes and sends none.  The handler has connected upstream and sent the
    request; the read of the body times out, the timeout is caught, and the
    handler returns after closing the client socket only. *)
Theorem C3_upstream_left_open :
  exists env1 evs,
    handle_client 4096 ∅
      (client_sends [header_block ["POST /submit HTTP/1.1"; "Host: example.com";
                                   "Content-Length: 5"]%string])
    = Done (Ok tt) env1 evs /\
    connects evs = [(lit "example.com", 80%Z)] /\
    last evs = Some (EClose Client) /\
    closed Client evs = true /\
    closed Server evs = false.
Proof.
  eexists _, _. split; [vm_compute; reflexivity|].
  repeat split; reflexivity.
Qed.

(** On the path without failure the upstream socket is closed (line 169). *)
Example upstream_closed_ex :
  exists env1 evs,
    handle_client 4096 ∅
      {| client_in := [Ok (header_block ["GET / HTTP/1.1"; "Host: example.com"]%string)];
         server_in := [Ok (blit "HTTP/1.1 204 No Content"); Ok []];
         client_out := []; server_out := []; connect_answer := None;
         selects := [] |}
    = Done (Ok tt) env1 evs /\
    sent_to Client evs = [blit "HTTP/1.1 204 No Content"] /\
    closed Server evs = true /\ closed Client evs = true.
Proof.
  eexists _, _. split; [vm_compute; reflexivity|].
  repeat split; reflexivity.
Qed.

(** * Further properties *)

(** ** Events of a run *)

Lemma bind_inv {A B : Type} (m : M A) (k : A -> M B) (env env' : Env)
    (r : Result B) (evs : list Event) :
  bind m k env = Done r env' evs ->
  (exists e, m env = Done (Raise e) env' evs /\ r = Raise e) \/
  (exists a env1 evs1 evs2,
      m env = Done (Ok a) env1 evs1 /\ k a env1 = Done r env' evs2 /\
      evs = evs1 ++ evs2).
Proof.
  unfold bind. destruct (m env) as [[a|e] env1 evs1|]; [| |discriminate].
  - destruct (k a env1) as [r2 env2 evs2|] eqn:Hk; [|discriminate].
    cbn [after]. intros Heq. injection Heq as <- <- <-.
    right. exists a, env1, evs1, evs2. repeat split. exact Hk.
  - intros Heq. injection Heq as <- <- <-. left. exists e. split; reflexivity.
Qed.

Lemma emits_ret {A : Type} (P : Event -> Prop) (a : A) : emits P (ret a).
Proof. intros env r env' evs Heq. injection Heq as _ _ <-. constructor. Qed.

Lemma emits_raise {A : Type} (P : Event -> Prop) (e : Exn) : emits P (@raise A e).
Proof. intros env r env' evs Heq. injection Heq as _ _ <-. constructor. Qed.

Lemma emits_lift {A : Type} (P : Event -> Prop) (x : Result A) : emits P (lift x).
Proof. intros env r env' evs Heq. injection Heq as _ _ <-. constructor. Qed.

Lemma emits_emit (P : Event -> Prop) (e : Event) : P e -> emits P (emit e).
Proof.
  intros He env r env' evs Heq. injection Heq as _ _ <-. constructor; [exact He | constructor].
Qed.

Lemma emits_recv (P : Event -> Prop) (s : Sock) (n : Z) :
  (forall answer, P (ERecv s n answer)) -> emits P (recv s n).
Proof.
  intros HP env r env' evs Heq.
  destruct (recv_cases s n env) as [(e & Hr & _)|(answer & rest & _ & Hr)];
    rewrite Hr in Heq; injection Heq as _ _ <-; constructor; auto.
Qed.

Lemma emits_sendall (P : Event -> Prop) (s : Sock) (data : bytes) :
  P (ESend s data) -> emits P (sendall s data).
Proof.
  intros HP env r env' evs Heq.
  destruct (sendall_cases s data env) as (rs & env1 & Hr & _).
  rewrite Hr in Heq. injection Heq as _ _ <-. constructor; auto.
Qed.

Lemma emits_create_connection (P : Event -> Prop) (host : str) (port : Z) :
  P (EConnect host port) -> emits P (create_connection host port).
Proof.
  intros HP env r env' evs. unfold create_connection.
  destruct (connect_answer env); intros Heq; injection Heq as _ _ <-;
    constructor; auto.
Qed.

Lemma emits_select (P : Event -> Prop) :
  (forall ready, P (ESelect ready)) -> emits P select.
Proof.
  intros HP env r env' evs. unfold select.
  destruct (selects env); intros Heq; injection Heq as _ _ <-; constructor; auto.
Qed.

Lemma emits_bind {A B : Type} (P : Event -> Prop) (m : M A) (k : A -> M B) :
  emits P m -> (forall a, emits P (k a)) -> emits P (bind m k).
Proof.
  intros Hm Hk env r env' evs Heq.
  apply bind_inv in Heq as [(e & Hrun & _)|(a & env1 & evs1 & evs2 & Hrun & Hrest & ->)].
  - exact (Hm _ _ _ _ Hrun).
  - apply Forall_app. split; [exact (Hm _ _ _ _ Hrun) | exact (Hk _ _ _ _ _ Hrest)].
Qed.

Lemma emits_try_except {A : Type} (P : Event -> Prop) (m : M A)
    (handler : Exn -> M A) :
  emits P m -> (forall e, emits P (handler e)) -> emits P (try_except m handler).
Proof.
  intros Hm Hh env r env' evs. unfold try_except.
  destruct (m env) as [[a|e] env1 evs1|] eqn:Hrun; [| |discriminate].
  - intros Heq. injection Heq as _ _ <-. exact (Hm _ _ _ _ Hrun).
  - destruct (handler e env1) as [r2 env2 evs2|] eqn:Hrun2; [|discriminate].
    cbn [after]. intros Heq. injection Heq as _ _ <-.
    apply Forall_app. split; [exact (Hm _ _ _ _ Hrun) | exact (Hh _ _ _ _ _ Hrun2)].
Qed.

Section Emits.
Variable BUFFER_SIZE : Z.
Variable blocked : gset str.
Variable P : Event -> Prop.
Hypothesis Hio : io_events P.

Lemma emits_recv_until_loop (sock : Sock) (delimiter : bytes) (fuel : nat) :
  forall data, emits P (recv_until_loop BUFFER_SIZE fuel sock delimiter data).
Proof.
  destruct Hio as (Hrecv & _ & _).
  induction fuel as [|fuel IH]; intros data; cbn [recv_until_loop].
  - intros env r env' evs Heq. discriminate Heq.
  - destruct (contains delimiter data); [apply emits_ret|].
    apply emits_bind; [apply emits_recv; auto|]. intros chunk.
    destruct (is_empty chunk); [apply emits_ret | apply IH].
Qed.

Lemma emits_recv_until (sock : Sock) (delimiter : bytes) :
  emits P (recv_until BUFFER_SIZE sock delimiter).
Proof.
  intros env r env' evs Heq. unfold recv_until in Heq.
  exact (emits_recv_until_loop _ _ _ _ _ _ _ _ Heq).
Qed.

Lemma emits_tunnel_round (ready : list Sock) :
  emits P (tunnel_round BUFFER_SIZE ready).
Proof.
  destruct Hio as (Hrecv & Hsend & _).
  induction ready as [|s ready IH]; cbn [tunnel_round]; [apply emits_ret|].
  apply emits_bind; [apply emits_recv; auto|]. intros data.
  destruct (is_empty data); [apply emits_ret|].
  apply emits_bind; [apply emits_sendall; auto | intros _; exact IH].
Qed.

Lemma emits_tunnel_loop (fuel : nat) : emits P (tunnel_loop BUFFER_SIZE fuel).
Proof.
  induction fuel as [|fuel IH]; cbn [tunnel_loop].
  - intros env r env' evs Heq. discriminate Heq.
  - apply emits_bind; [apply emits_select; apply Hio|]. intros ready.
    destruct (is_empty ready); [apply emits_ret|].
    apply emits_bind; [apply emits_tunnel_round|]. intros returned.
    destruct returned; [apply emits_ret | exact IH].
Qed.

Lemma emits_tunnel : emits P (tunnel BUFFER_SIZE).
Proof.
  intros env r env' evs Heq. unfold tunnel in Heq.
  exact (emits_tunnel_loop _ _ _ _ _ Heq).
Qed.

Lemma emits_response_loop (fuel : nat) : emits P (response_loop BUFFER_SIZE fuel).
Proof.
  destruct Hio as (Hrecv & Hsend & _).
  induction fuel as [|fuel IH]; cbn [response_loop].
  - intros env r env' evs Heq. discriminate Heq.
  - apply emits_bind.
    + apply emits_try_except.
      * apply emits_bind; [apply emits_recv; auto|]. intros data.
        destruct (is_empty data); [apply emits_ret|].
        apply emits_bind; [apply emits_sendall; auto | intros _; apply emits_ret].
      * intros e. destruct e; first [apply emits_ret | apply emits_raise].
    + intros again. destruct again; [exact IH | apply emits_ret].
Qed.

Lemma emits_relay_response : emits P (relay_response BUFFER_SIZE).
Proof.
  intros env r env' evs Heq. unfold relay_response in Heq.
  exact (emits_response_loop _ _ _ _ _ Heq).
Qed.

Hypothesis Hserver : P (ESetTimeout Server) /\ P (EClose Server).
Hypothesis Hlog : forall entry,
  (forall host, entry = BLOCKED host -> host ∈ blocked) -> P (ELog entry).
Hypothesis Hconnect : forall host port, host ∉ blocked -> P (EConnect host port).

Lemma emits_reject (host : str) : host ∈ blocked -> emits P (reject host).
Proof.
  intros Hin. unfold reject. apply emits_bind; [apply emits_sendall; apply Hio|].
  intros _. apply emits_emit. apply Hlog. intros h Heq. injection Heq as <-. exact Hin.
Qed.

Lemma emits_connect_tunnel (target : str) :
  emits P (connect_tunnel BUFFER_SIZE blocked target).
Proof.
  unfold connect_tunnel. apply emits_bind; [apply emits_lift|].
  intros [dest_host dest_port].
  destruct (bool_decide (dest_host ∈ blocked)) eqn:Hb.
  - apply emits_reject. apply bool_decide_eq_true in Hb. exact Hb.
  - apply bool_decide_eq_false in Hb.
    apply emits_bind; [apply emits_create_connection; auto | intros _].
    apply emits_bind; [apply emits_sendall; apply Hio | intros _].
    apply emits_bind; [apply emits_emit; apply Hlog; discriminate | intros _].
    apply emits_bind; [apply emits_tunnel | intros _].
    apply emits_emit. apply Hserver.
Qed.

Lemma emits_http_forward (method target version request_line : str)
    (headers : dict) :
  emits P (http_forward BUFFER_SIZE blocked method target version request_line headers).
Proof.
  unfold http_forward. apply emits_bind; [apply emits_lift|].
  intros [host port].
  destruct (bool_decide (host ∈ blocked)) eqn:Hb.
  - apply emits_reject. apply bool_decide_eq_true in Hb. exact Hb.
  - apply bool_decide_eq_false in Hb.
    apply emits_bind; [apply emits_create_connection; auto | intros _].
    apply emits_bind; [apply emits_emit; apply Hserver | intros _].
    apply emits_bind; [apply emits_lift | intros line].
    apply emits_bind; [apply emits_sendall; apply Hio | intros _].
    apply emits_bind; [apply emits_emit; apply Hlog; discriminate | intros _].
    apply emits_bind.
    { destruct (dict_mem (lit "content-length") headers); [|apply emits_ret].
      apply emits_bind; [apply emits_lift | intros n].
      apply emits_bind; [apply emits_recv; apply Hio | intros body].
      apply emits_sendall; apply Hio. }
    intros _. apply emits_bind; [apply emits_relay_response | intros _].
    apply emits_emit. apply Hserver.
Qed.

Lemma emits_dispatch (header_data : bytes) :
  emits P (dispatch BUFFER_SIZE blocked header_data).
Proof.
  unfold dispatch. destruct (is_empty header_data); [apply emits_ret|].
  apply emits_bind; [apply emits_lift|]. intros [request_line headers].
  destruct (length (split_ws request_line) <? 3)%nat; [apply emits_ret|].
  apply emits_bind; [apply emits_lift|]. intros [[method target] version].
  destruct (bool_decide (upper method = lit "CONNECT")).
  - apply emits_connect_tunnel.
  - apply emits_http_forward.
Qed.

Lemma emits_handle_request : emits P (handle_request BUFFER_SIZE blocked).
Proof.
  unfold handle_request. apply emits_bind.
  - apply emits_recv_until.
  - apply emits_dispatch.
Qed.

(** The events of [handle_client]: those of the [try] body, between the
    setting of the timeout and the entry for an exception and the close. *)
Lemma emits_handle_client :
  P (ESetTimeout Client) -> P (EClose Client) ->
  emits P (handle_client BUFFER_SIZE blocked).
Proof.
  intros Hset Hclose env r env' evs Heq.
  destruct (handle_client_run BUFFER_SIZE blocked env) as (r1 & env1 & evs1 & Hrun & Hall).
  rewrite Hall in Heq. injection Heq as _ _ <-.
  constructor; [exact Hset|]. apply Forall_app. split.
  - exact (emits_handle_request _ _ _ _ Hrun).
  - apply Forall_app. split; [|constructor; [exact Hclose | constructor]].
    destruct r1 as [a|e]; [constructor|].
    destruct e; cbn; constructor; try constructor; apply Hlog; discriminate.
Qed.
End Emits.

(** ** What the handler always and never does *)

Lemma not_closed (s : Sock) (evs : list Event) :
  Forall (fun e => e <> EClose s) evs -> closed s evs = false.
Proof.
  induction 1 as [|e evs He _ IH]; [reflexivity|].
  cbn [closed existsb]. fold (closed s evs). rewrite IH, orb_false_r.
  destruct e; try reflexivity. apply bool_decide_eq_false. congruence.
Qed.

Lemma In_connects (host : str) (port : Z) (evs : list Event) :
  In (host, port) (connects evs) <-> In (EConnect host port) evs.
Proof.
  unfold connects. rewrite in_flat_map. split.
  - intros (e & He & Hin). destruct e; try (destruct Hin; fail).
    destruct Hin as [Heq|[]]. injection Heq as -> ->. exact He.
  - intros Hin. exists (EConnect host port). split; [exact Hin | left; reflexivity].
Qed.

Lemma In_logged (entry : LogEntry) (evs : list Event) :
  In entry (logged evs) <-> In (ELog entry) evs.
Proof.
  unfold logged. rewrite in_flat_map. split.
  - intros (e & He & Hin). destruct e; try (destruct Hin; fail).
    destruct Hin as [->|[]]. exact He.
  - intros Hin. exists (ELog entry). split; [exact Hin | left; reflexivity].
Qed.

Lemma closed_last_only (s : Sock) (l pre post : list Event) :
  closed s l = false ->
  l ++ [EClose s] = pre ++ EClose s :: post ->
  pre = l /\ post = [].
Proof.
  revert pre. induction l as [|e l IH]; intros pre Hl Heq.
  - destruct pre as [|x pre]; cbn [app] in Heq.
    + injection Heq as <-. split; reflexivity.
    + injection Heq as _ Heq. destruct pre; discriminate Heq.
  - cbn [closed existsb] in Hl. apply orb_false_iff in Hl as [He Hl].
    destruct pre as [|x pre]; cbn [app] in Heq.
    + injection Heq as -> _. rewrite bool_decide_eq_true_2 in He by reflexivity.
      discriminate He.
    + injection Heq as <- Heq. destruct (IH pre Hl Heq) as [-> ->]. split; reflexivity.
Qed.

(** X1. The handler closes the client socket at most once, and nothing
    follows that close: the try body and the except clauses never close the
    client socket, the one close is that of the finally clause. *)
Theorem client_closed_once_at_the_end (BUFFER_SIZE : Z) (blocked : gset str)
    (env : Env) :
  exists r env' evs,
    handle_client BUFFER_SIZE blocked env = Done r env' evs /\
    forall pre post,
      evs = pre ++ EClose Client :: post ->
      post = [] /\ closed Client pre = false.
Proof.
  destruct (handle_client_run BUFFER_SIZE blocked env) as (r & env1 & evs1 & Hrun & Hall).
  assert (closed Client (ESetTimeout Client :: evs1 ++ map ELog (error_entries r)) = false)
    as Hopen.
  { apply not_closed. constructor; [discriminate|].
    apply Forall_app. split.
    - refine (emits_handle_request BUFFER_SIZE blocked (fun e => e <> EClose Client)
                _ _ _ _ _ _ _ _ Hrun).
      + repeat split; discriminate.
      + split; discriminate.
      + intros entry _. discriminate.
      + intros host port _. discriminate.
    - apply List.Forall_forall. intros e Hin. apply in_map_iff in Hin as (entry & <- & _).
      discriminate. }
  eexists _, _, _. split; [exact Hall|]. intros pre post Heq.
  assert ((ESetTimeout Client :: evs1 ++ map ELog (error_entries r)) ++ [EClose Client]
          = pre ++ EClose Client :: post) as Heq'.
  { rewrite <- Heq. cbn [app]. rewrite <- app_assoc. reflexivity. }
  destruct (closed_last_only _ _ _ _ Hopen Heq') as [-> ->].
  split; [reflexivity | exact Hopen].
Qed.

(** X2. Whatever the client sends and the environment answers, the handler
    attempts a connection only to a host that is not in the blocklist, and
    logs BLOCKED only for a host that is. *)
Theorem blocklist_respected (BUFFER_SIZE : Z) (blocked : gset str) (env : Env) :
  exists r env' evs,
    handle_client BUFFER_SIZE blocked env = Done r env' evs /\
    (forall host port, In (host, port) (connects evs) -> host ∉ blocked) /\
    (forall host, In (BLOCKED host) (logged evs) -> host ∈ blocked).
Proof.
  destruct (handle_client_run BUFFER_SIZE blocked env) as (r & env1 & evs1 & _ & Hall).
  eexists _, _, _. split; [exact Hall|].
  assert (Forall (respects blocked)
            (ESetTimeout Client :: evs1 ++ map ELog (error_entries r) ++ [EClose Client]))
    as Hresp.
  { refine (emits_handle_client BUFFER_SIZE blocked (respects blocked)
              _ _ _ _ I I _ _ _ _ Hall).
    - repeat split.
    - split; exact I.
    - intros entry Hentry. destruct entry; try exact I. apply Hentry. reflexivity.
    - intros host port Hfree. exact Hfree. }
  rewrite List.Forall_forall in Hresp. split.
  - intros host port Hin. apply In_connects in Hin. exact (Hresp _ Hin).
  - intros host Hin. apply In_logged in Hin. exact (Hresp _ Hin).
Qed.

(** ** The branches of the handler *)

Section Shape.
Variable BUFFER_SIZE : Z.
Variable blocked : gset str.

Lemma quiet_reject (host : str) : emits quiet (reject host).
Proof.
  unfold reject. apply emits_bind; [apply emits_sendall; split; reflexivity|].
  intros _. apply emits_emit. split; reflexivity.
Qed.

Lemma bind_lift_ok {A B : Type} (a : A) (k : A -> M B) (env : Env) :
  bind (lift (Ok a)) k env = k a env.
Proof. unfold bind, lift. apply after_nil. Qed.

Lemma bind_lift_raise {A B : Type} (e : Exn) (k : A -> M B) (env : Env) :
  bind (lift (Raise e)) k env = Done (Raise e) env [].
Proof. reflexivity. Qed.

(** The try body, once the header block is read: it makes no connection
    attempt and no call on the upstream socket, or it is one of the two
    branches, for a host that is not blocked. *)
Lemma dispatch_cases (data : bytes) (env : Env) :
  (forall r env' evs,
     dispatch BUFFER_SIZE blocked data env = Done r env' evs -> Forall quiet evs) \/
  (exists host port,
     (host ∉ blocked) /\
     dispatch BUFFER_SIZE blocked data env
     = tunnel_established BUFFER_SIZE host port env) \/
  (exists host port method target version request_line headers,
     (host ∉ blocked) /\
     dispatch BUFFER_SIZE blocked data env
     = forward_request BUFFER_SIZE host port method target version request_line
         headers env).
Proof.
  unfold dispatch. destruct (is_empty data).
  { left. intros r env' evs Heq. injection Heq as _ _ <-. constructor. }
  rewrite parse_headers_spec, !bind_lift_ok.
  set (request_line := hd [] (split crlf None (decode data))).
  set (headers := dict_of (header_pairs data)).
  destruct (length (split_ws request_line) <? 3)%nat.
  { left. intros r env' evs Heq. injection Heq as _ _ <-. constructor. }
  destruct (unpack3 (split_ws request_line)) as [[[method target] version]|e].
  2:{ left. intros r env' evs Heq. injection Heq as _ _ <-. constructor. }
  rewrite !bind_lift_ok. destruct (bool_decide (upper method = lit "CONNECT")).
  - unfold connect_tunnel.
    destruct (connect_destination target) as [[host port]|e].
    2:{ left. intros r env' evs Heq. injection Heq as _ _ <-. constructor. }
    rewrite !bind_lift_ok. destruct (bool_decide (host ∈ blocked)) eqn:Hb.
    + left. intros r env' evs Heq. exact (quiet_reject host _ _ _ _ Heq).
    + right. left. exists host, port. apply bool_decide_eq_false in Hb.
      split; [exact Hb | reflexivity].
  - unfold http_forward.
    destruct (forward_destination headers) as [[host port]|e].
    2:{ left. intros r env' evs Heq. injection Heq as _ _ <-. constructor. }
    rewrite !bind_lift_ok. destruct (bool_decide (host ∈ blocked)) eqn:Hb.
    + left. intros r env' evs Heq. exact (quiet_reject host _ _ _ _ Heq).
    + right. right. exists host, port, (upper method), target, version, request_line, headers.
      apply bool_decide_eq_false in Hb. split; [exact Hb | reflexivity].
Qed.
End Shape.

Lemma closed_app (s : Sock) (evs1 evs2 : list Event) :
  closed s (evs1 ++ evs2) = closed s evs1 || closed s evs2.
Proof. apply existsb_app. Qed.

Lemma closes_last_close (s : Sock) : closes_last s (close s).
Proof.
  intros env r env' evs Heq. injection Heq as <- _ <-.
  left. split; [reflexivity|]. exists []. split; reflexivity.
Qed.

Lemma closes_last_bind {A : Type} (s : Sock) (m : M A) (k : A -> M unit) :
  emits (fun e => e <> EClose s) m ->
  (forall a, closes_last s (k a)) ->
  closes_last s (bind m k).
Proof.
  intros Hm Hk env r env' evs Heq.
  apply bind_inv in Heq as [(e & Hrun & ->)|(a & env1 & evs1 & evs2 & Hrun & Hrest & ->)].
  - right. exists e. split; [reflexivity|]. apply not_closed. exact (Hm _ _ _ _ Hrun).
  - pose proof (not_closed s _ (Hm _ _ _ _ Hrun)) as Hopen.
    destruct (Hk a _ _ _ _ Hrest) as [(-> & evs' & -> & Hopen')|(e & -> & Hopen')].
    + left. split; [reflexivity|]. exists (evs1 ++ evs'). split; [apply app_assoc|].
      rewrite closed_app, Hopen, Hopen'. reflexivity.
    + right. exists e. split; [reflexivity|]. rewrite closed_app, Hopen, Hopen'. reflexivity.
Qed.

Section BranchFacts.
Variable BUFFER_SIZE : Z.

Lemma io_events_open (s : Sock) : io_events (fun e => e <> EClose s).
Proof. repeat split; discriminate. Qed.

Lemma io_events_no_connect : io_events (fun e => is_connect e = false).
Proof. repeat split. Qed.

Lemma closes_last_tunnel_established (host : str) (port : Z) :
  closes_last Server (tunnel_established BUFFER_SIZE host port).
Proof.
  unfold tunnel_established.
  apply closes_last_bind; [apply emits_create_connection; discriminate | intros _].
  apply closes_last_bind; [apply emits_sendall; discriminate | intros _].
  apply closes_last_bind; [apply emits_emit; discriminate | intros _].
  apply closes_last_bind; [apply emits_tunnel, io_events_open | intros _].
  apply closes_last_close.
Qed.

Lemma closes_last_forward_request (host : str) (port : Z)
    (method target version request_line : str) (headers : dict) :
  closes_last Server
    (forward_request BUFFER_SIZE host port method target version request_line headers).
Proof.
  unfold forward_request.
  apply closes_last_bind; [apply emits_create_connection; discriminate | intros _].
  apply closes_last_bind; [apply emits_emit; discriminate | intros _].
  apply closes_last_bind; [apply emits_lift | intros line].
  apply closes_last_bind; [apply emits_sendall; discriminate | intros _].
  apply closes_last_bind; [apply emits_emit; discriminate | intros _].
  apply closes_last_bind.
  { destruct (dict_mem (lit "content-length") headers); [|apply emits_ret].
    apply emits_bind; [apply emits_lift | intros n].
    apply emits_bind; [apply emits_recv; discriminate | intros body].
    apply emits_sendall; discriminate. }
  intros _.
  apply closes_last_bind; [apply emits_relay_response, io_events_open | intros _].
  apply closes_last_close.
Qed.

(** Each branch starts with its one connection attempt. *)
Lemma tunnel_established_connects (host : str) (port : Z) (env env' : Env)
    (r : Result unit) (evs : list Event) :
  tunnel_established BUFFER_SIZE host port env = Done r env' evs ->
  exists post, evs = EConnect host port :: post /\
               Forall (fun e => is_connect e = false) post.
Proof.
  unfold tunnel_established. intros Heq.
  apply bind_inv in Heq as [(e & Hrun & _)|(a & env1 & evs1 & evs2 & Hrun & Hrest & ->)];
    unfold create_connection in Hrun; destruct (connect_answer env);
    try discriminate Hrun; injection Hrun as _ _ <-.
  - exists []. split; [reflexivity | constructor].
  - exists evs2. split; [reflexivity|]. revert Hrest. apply emits_bind.
    + apply emits_sendall. reflexivity.
    + intros _. apply emits_bind; [apply emits_emit; reflexivity | intros _].
      apply emits_bind; [apply emits_tunnel, io_events_no_connect | intros _].
      apply emits_emit. reflexivity.
Qed.

Lemma forward_request_connects (host : str) (port : Z)
    (method target version request_line : str) (headers : dict)
    (env env' : Env) (r : Result unit) (evs : list Event) :
  forward_request BUFFER_SIZE host port method target version request_line headers env
  = Done r env' evs ->
  exists post, evs = EConnect host port :: post /\
               Forall (fun e => is_connect e = false) post.
Proof.
  unfold forward_request. intros Heq.
  apply bind_inv in Heq as [(e & Hrun & _)|(a & env1 & evs1 & evs2 & Hrun & Hrest & ->)];
    unfold create_connection in Hrun; destruct (connect_answer env);
    try discriminate Hrun; injection Hrun as _ _ <-.
  - exists []. split; [reflexivity | constructor].
  - exists evs2. split; [reflexivity|]. revert Hrest. apply emits_bind.
    + apply emits_emit. reflexivity.
    + intros _. apply emits_bind; [apply emits_lift | intros line].
      apply emits_bind; [apply emits_sendall; reflexivity | intros _].
      apply emits_bind; [apply emits_emit; reflexivity | intros _].
      apply emits_bind.
      { destruct (dict_mem (lit "content-length") headers); [|apply emits_ret].
        apply emits_bind; [apply emits_lift | intros n].
        apply emits_bind; [apply emits_recv; reflexivity | intros body].
        apply emits_sendall; reflexivity. }
      intros _.
      apply emits_bind; [apply emits_relay_response, io_events_no_connect | intros _].
      apply emits_emit. reflexivity.
Qed.
End BranchFacts.

Lemma is_recv_quiet (e : Event) : is_recv Client e -> quiet e.
Proof. intros (n & answer & ->). split; reflexivity. Qed.

Lemma quiet_no_connects (evs : list Event) : Forall quiet evs -> connects evs = [].
Proof.
  induction 1 as [|e evs [Hc _] _ IH]; [reflexivity|].
  destruct e; try discriminate Hc; exact IH.
Qed.

Lemma quiet_not_closed (evs : list Event) :
  Forall quiet evs -> closed Server evs = false.
Proof.
  intros Hq. apply not_closed. eapply List.Forall_impl; [|exact Hq].
  intros e [_ Hs] ->. discriminate Hs.
Qed.

Lemma no_connect_connects (evs : list Event) :
  Forall (fun e => is_connect e = false) evs -> connects evs = [].
Proof.
  induction 1 as [|e evs Hc _ IH]; [reflexivity|].
  destruct e; try discriminate Hc; exact IH.
Qed.

(** The events of the try body: reads of the header block, then either
    nothing that touches the upstream side, or one of the two branches. *)
Lemma handle_request_shape (BUFFER_SIZE : Z) (blocked : gset str)
    (env env' : Env) (r : Result unit) (evs : list Event) :
  handle_request BUFFER_SIZE blocked env = Done r env' evs ->
  exists reads rest,
    evs = reads ++ rest /\ Forall (is_recv Client) reads /\
    (Forall quiet rest \/
     exists host port post,
       (host ∉ blocked) /\ rest = EConnect host port :: post /\
       Forall (fun e => is_connect e = false) post /\
       ((r = Ok tt /\ exists pre, rest = pre ++ [EClose Server] /\
                                  closed Server pre = false) \/
        (exists e, r = Raise e /\ closed Server rest = false))).
Proof.
  unfold handle_request. intros Heq.
  apply bind_inv in Heq as [(e & Hrun & ->)|(data & env1 & evs1 & evs2 & Hrun & Hrest & ->)].
  - exists evs, []. rewrite app_nil_r. split; [reflexivity|].
    split; [exact (read_headers_reads _ _ _ _ _ Hrun) | left; constructor].
  - exists evs1, evs2. split; [reflexivity|].
    split; [exact (read_headers_reads _ _ _ _ _ Hrun)|].
    destruct (dispatch_cases BUFFER_SIZE blocked data env1)
      as [Hquiet|[(host & port & Hfree & Heq)|
                  (host & port & method & target & version & line & headers & Hfree & Heq)]].
    + left. exact (Hquiet _ _ _ Hrest).
    + right. rewrite Heq in Hrest.
      destruct (tunnel_established_connects _ _ _ _ _ _ _ Hrest) as (post & -> & Hpost).
      exists host, port, post. repeat split; try assumption.
      exact (closes_last_tunnel_established _ _ _ _ _ _ _ Hrest).
    + right. rewrite Heq in Hrest.
      destruct (forward_request_connects _ _ _ _ _ _ _ _ _ _ _ _ Hrest) as (post & -> & Hpost).
      exists host, port, post. repeat split; try assumption.
      exact (closes_last_forward_request _ _ _ _ _ _ _ _ _ _ _ _ Hrest).
Qed.

Lemma upstream_after_connect_true (evs : list Event) :
  upstream_after_connect true evs = true.
Proof.
  induction evs as [|e evs IH]; [reflexivity|].
  cbn [upstream_after_connect orb]. rewrite orb_true_r, IH. reflexivity.
Qed.

Lemma upstream_after_connect_quiet (connected : bool) (evs1 evs2 : list Event) :
  Forall quiet evs1 ->
  upstream_after_connect connected (evs1 ++ evs2)
  = upstream_after_connect connected evs2.
Proof.
  induction 1 as [|e evs1 [Hc Hs] _ IH]; [reflexivity|].
  cbn [app upstream_after_connect]. rewrite Hc, Hs, orb_false_r, IH. reflexivity.
Qed.

Lemma upstream_after_connect_spec (connected : bool) (evs : list Event) :
  upstream_after_connect connected evs = true ->
  forall pre e post,
    evs = pre ++ e :: post -> on_server e = true ->
    connected = true \/ connects pre <> [].
Proof.
  revert connected. induction evs as [|x evs IH]; intros connected Hok pre e post Heq He.
  - destruct pre; discriminate Heq.
  - cbn [upstream_after_connect] in Hok. apply andb_true_iff in Hok as [Hx Hrest].
    destruct pre as [|y pre]; cbn [app] in Heq; injection Heq as -> ->.
    + rewrite He in Hx. left. exact Hx.
    + destruct (IH _ Hrest pre e post eq_refl He) as [Hc|Hc].
      * apply orb_true_iff in Hc as [Hc|Hc]; [left; exact Hc|].
        right. destruct y; try discriminate Hc. discriminate.
      * right. intros Hnil. apply Hc.
        change (y :: pre) with ([y] ++ pre) in Hnil. rewrite connects_app in Hnil.
        apply app_eq_nil in Hnil as [_ Hnil]. exact Hnil.
Qed.

(** X3. In every run the handler makes at most one connection attempt, and
    every call on the upstream socket comes after it: the request is read and
    parsed before any upstream I/O. *)
Theorem one_connection_before_upstream_io (BUFFER_SIZE : Z)
    (blocked : gset str) (env : Env) :
  exists r env' evs,
    handle_client BUFFER_SIZE blocked env = Done r env' evs /\
    (length (connects evs) <= 1)%nat /\
    forall pre e post,
      evs = pre ++ e :: post -> on_server e = true -> connects pre <> [].
Proof.
  destruct (handle_client_run BUFFER_SIZE blocked env) as (r & env1 & evs1 & Hrun & Hall).
  eexists _, _, _. split; [exact Hall|].
  destruct (handle_request_shape _ _ _ _ _ _ Hrun)
    as (reads & rest & -> & Hreads & Hrest).
  assert (Forall quiet reads) as Hqr
    by (eapply List.Forall_impl; [|exact Hreads]; apply is_recv_quiet).
  assert (Forall quiet (map ELog (error_entries r) ++ [EClose Client])) as Hqt.
  { apply Forall_app. split; [|constructor; [split; reflexivity | constructor]].
    apply List.Forall_forall. intros e Hin. apply in_map_iff in Hin as (entry & <- & _).
    split; reflexivity. }
  assert (upstream_after_connect false
            (ESetTimeout Client :: (reads ++ rest) ++ map ELog (error_entries r)
             ++ [EClose Client]) = true /\
          (length (connects (ESetTimeout Client :: (reads ++ rest)
                             ++ map ELog (error_entries r) ++ [EClose Client])) <= 1)%nat)
    as [Huac Hlen].
  { change (ESetTimeout Client :: ?l) with ([ESetTimeout Client] ++ l).
    rewrite <- !app_assoc, !connects_app.
    rewrite (upstream_after_connect_quiet _ [ESetTimeout Client])
      by (constructor; [split; reflexivity | constructor]).
    rewrite (upstream_after_connect_quiet _ reads) by exact Hqr.
    rewrite (quiet_no_connects reads Hqr).
    rewrite <- (connects_app (map ELog (error_entries r))), (quiet_no_connects _ Hqt).
    destruct Hrest as [Hq|(host & port & post & _ & -> & Hpost & _)].
    - rewrite (upstream_after_connect_quiet _ rest) by exact Hq.
      rewrite (quiet_no_connects rest Hq).
      split; [|simpl; lia].
      rewrite <- (app_nil_r (_ ++ [EClose Client])).
      apply upstream_after_connect_quiet. exact Hqt.
    - split; [cbn; apply upstream_after_connect_true|].
      change (EConnect host port :: post) with ([EConnect host port] ++ post).
      rewrite connects_app, (no_connect_connects post Hpost). simpl. lia. }
  split; [exact Hlen|].
  intros pre e post Heq He.
  destruct (upstream_after_connect_spec _ _ Huac pre e post Heq He) as [Hc|Hc];
    [discriminate Hc | exact Hc].
Qed.

(** X4. The handler closes the upstream socket exactly when the try body
    has made its connection attempt and ends without an exception; the close
    is then the last call of the try body and the only close of that socket,
    so that it comes before the close of the client socket. *)
Theorem upstream_closed_on_normal_end (BUFFER_SIZE : Z) (blocked : gset str)
    (env : Env) :
  exists r env' evs,
    handle_request BUFFER_SIZE blocked env = Done r env' evs /\
    handle_client BUFFER_SIZE blocked env
    = Done (Ok tt) env'
        (ESetTimeout Client :: evs ++ map ELog (error_entries r) ++ [EClose Client]) /\
    (closed Server evs = true <-> r = Ok tt /\ connects evs <> []) /\
    (closed Server evs = true ->
     exists pre, evs = pre ++ [EClose Server] /\ closed Server pre = false).
Proof.
  destruct (handle_client_run BUFFER_SIZE blocked env) as (r & env1 & evs1 & Hrun & Hall).
  exists r, env1, evs1. split; [exact Hrun|]. split; [exact Hall|].
  destruct (handle_request_shape _ _ _ _ _ _ Hrun)
    as (reads & rest & -> & Hreads & Hrest).
  assert (Forall quiet reads) as Hqr
    by (eapply List.Forall_impl; [|exact Hreads]; apply is_recv_quiet).
  rewrite closed_app, connects_app, (quiet_not_closed reads Hqr),
    (quiet_no_connects reads Hqr). cbn [orb app].
  destruct Hrest as [Hq|(host & port & post & _ & Heq & _ & Hclose)].
  - rewrite (quiet_not_closed rest Hq), (quiet_no_connects rest Hq).
    split; [split; [discriminate | intros [_ Hne]; congruence] | discriminate].
  - destruct Hclose as [(-> & pre & Hpre & Hopen)|(e & -> & Hopen)].
    + assert (closed Server rest = true) as Hclosed.
      { rewrite Hpre, closed_app. cbn. apply orb_true_r. }
      rewrite Hclosed. split.
      * split; [intros _; split; [reflexivity | rewrite Heq; discriminate] | reflexivity].
      * intros _. exists (reads ++ pre). split; [rewrite Hpre; apply app_assoc|].
        rewrite closed_app, (quiet_not_closed reads Hqr), Hopen. reflexivity.
    + rewrite Hopen. split; [split; [discriminate | intros [Hr _]; discriminate Hr] | discriminate].
Qed.

(** ** Payload *)

Lemma other_other (s : Sock) : other (other s) = s.
Proof. destruct s; reflexivity. Qed.

Lemma copies_app (evs1 evs2 : list Event) :
  copies evs1 -> copies evs2 -> copies (evs1 ++ evs2).
Proof.
  induction 1; intros H2; cbn [app]; [exact H2| |].
  - apply copies_copy. auto.
  - apply copies_other; auto.
Qed.

Lemma copies_spec (evs : list Event) :
  copies evs ->
  forall pre t data post,
    evs = pre ++ ESend t data :: post ->
    exists pre' n, pre = pre' ++ [ERecv (other t) n (Ok data)].
Proof.
  induction 1 as [|s n d evs _ IH|e evs He _ IH]; intros pre t data post Heq.
  - destruct pre; discriminate Heq.
  - destruct pre as [|x [|y pre]]; cbn [app] in Heq.
    + discriminate Heq.
    + injection Heq as <- <- <- _. exists [], n. rewrite other_other. reflexivity.
    + injection Heq as <- <- Heq. destruct (IH _ _ _ _ Heq) as (pre' & m & ->).
      exists (ERecv s n (Ok d) :: ESend (other s) d :: pre'), m. reflexivity.
  - destruct pre as [|x pre]; cbn [app] in Heq.
    + injection Heq as -> _. destruct (He t data). reflexivity.
    + injection Heq as <- Heq. destruct (IH _ _ _ _ Heq) as (pre' & m & ->).
      exists (e :: pre'), m. reflexivity.
Qed.

Lemma copies_no_send (evs : list Event) : Forall no_send evs -> copies evs.
Proof. induction 1; [constructor | apply copies_other; assumption]. Qed.

(** A write that follows events without a write is the first write. *)
Lemma first_send (l : list Event) (t0 : Sock) (d0 : bytes) (tail pre : list Event)
    (t : Sock) (d : bytes) (post : list Event) :
  Forall no_send l -> copies tail ->
  l ++ ESend t0 d0 :: tail = pre ++ ESend t d :: post ->
  (pre = l /\ t = t0 /\ d = d0) \/
  exists pre' n, pre = pre' ++ [ERecv (other t) n (Ok d)].
Proof.
  intros Hl Htail. revert pre. induction Hl as [|e l He _ IH]; intros pre Heq.
  - destruct pre as [|x pre]; cbn [app] in Heq.
    + injection Heq as <- <- _. left. repeat split.
    + injection Heq as <- Heq. right.
      destruct (copies_spec _ Htail _ _ _ _ Heq) as (pre' & n & ->).
      exists (ESend t0 d0 :: pre'), n. reflexivity.
  - destruct pre as [|x pre]; cbn [app] in Heq.
    + injection Heq as -> _. destruct (He t d). reflexivity.
    + injection Heq as <- Heq. destruct (IH _ Heq) as [(-> & -> & ->)|(pre' & n & ->)].
      * left. repeat split.
      * right. exists (e :: pre'), n. reflexivity.
Qed.

Lemma runs_copies_emits {A : Type} (m : M A) : emits no_send m -> runs_copies m.
Proof. intros Hm env r env' evs Heq. apply copies_no_send. exact (Hm _ _ _ _ Heq). Qed.

Lemma runs_copies_bind {A B : Type} (m : M A) (k : A -> M B) :
  runs_copies m -> (forall a, runs_copies (k a)) -> runs_copies (bind m k).
Proof.
  intros Hm Hk env r env' evs Heq.
  apply bind_inv in Heq as [(e & Hrun & _)|(a & env1 & evs1 & evs2 & Hrun & Hrest & ->)].
  - exact (Hm _ _ _ _ Hrun).
  - apply copies_app; [exact (Hm _ _ _ _ Hrun) | exact (Hk _ _ _ _ _ Hrest)].
Qed.

Lemma runs_copies_try_except {A : Type} (m : M A) (handler : Exn -> M A) :
  runs_copies m -> (forall e, runs_copies (handler e)) ->
  runs_copies (try_except m handler).
Proof.
  intros Hm Hh env r env' evs. unfold try_except.
  destruct (m env) as [[a|e] env1 evs1|] eqn:Hrun; [| |discriminate].
  - intros Heq. injection Heq as _ _ <-. exact (Hm _ _ _ _ Hrun).
  - destruct (handler e env1) as [r2 env2 evs2|] eqn:Hrun2; [|discriminate].
    cbn [after]. intros Heq. injection Heq as _ _ <-.
    apply copies_app; [exact (Hm _ _ _ _ Hrun) | exact (Hh _ _ _ _ _ Hrun2)].
Qed.

(** A read followed, if at all, by the write of what was read to the other
    socket. *)
Lemma runs_copies_copy {B : Type} (s : Sock) (n : Z) (k : bytes -> M B) :
  (forall data env r env' evs,
     k data env = Done r env' evs ->
     evs = [] \/ exists rest, evs = ESend (other s) data :: rest /\ copies rest) ->
  runs_copies (bind (recv s n) k).
Proof.
  intros Hk env r env' evs Heq.
  apply bind_inv in Heq as [(e & Hrun & _)|(data & env1 & evs1 & evs2 & Hrun & Hrest & ->)].
  - apply copies_no_send. refine (emits_recv _ s n _ _ _ _ _ Hrun). discriminate.
  - assert (evs1 = [ERecv s n (Ok data)]) as ->.
    { destruct (recv_cases s n env) as [(e & Hr & _)|(answer & rest & _ & Hr)];
        rewrite Hr in Hrun; [discriminate Hrun|].
      injection Hrun as -> _ <-. reflexivity. }
    destruct (Hk _ _ _ _ _ Hrest) as [->|(rest & -> & Hrest')].
    + apply copies_other; [discriminate | constructor].
    + apply copies_copy. exact Hrest'.
Qed.

Lemma send_then (s : Sock) (data : bytes) {B : Type} (k : M B) :
  runs_copies k ->
  forall env r env' evs,
    bind (sendall s data) (fun _ => k) env = Done r env' evs ->
    exists rest, evs = ESend s data :: rest /\ copies rest.
Proof.
  intros Hk env r env' evs Heq.
  apply bind_inv in Heq as [(e & Hrun & _)|(a & env1 & evs1 & evs2 & Hrun & Hrest & ->)];
    destruct (sendall_cases s data env) as (rs & env2 & Hr & _);
    rewrite Hr in Hrun; injection Hrun as _ _ <-.
  - exists []. split; [reflexivity | constructor].
  - exists evs2. split; [reflexivity | exact (Hk _ _ _ _ Hrest)].
Qed.

Section Payload.
Variable BUFFER_SIZE : Z.
Variable blocked : gset str.

Lemma runs_copies_tunnel_round (ready : list Sock) :
  runs_copies (tunnel_round BUFFER_SIZE ready).
Proof.
  induction ready as [|s ready IH]; cbn [tunnel_round].
  { intros env r env' evs Heq. injection Heq as _ _ <-. constructor. }
  apply runs_copies_copy. intros data env r env' evs.
  destruct (is_empty data).
  - intros Heq. injection Heq as _ _ <-. left. reflexivity.
  - intros Heq. right. exact (send_then _ _ _ IH _ _ _ _ Heq).
Qed.

Lemma runs_copies_tunnel_loop (fuel : nat) :
  runs_copies (tunnel_loop BUFFER_SIZE fuel).
Proof.
  induction fuel as [|fuel IH]; cbn [tunnel_loop].
  { intros env r env' evs Heq. discriminate Heq. }
  apply runs_copies_bind.
  { apply runs_copies_emits, emits_select. discriminate. }
  intros ready. destruct (is_empty ready).
  { intros env r env' evs Heq. injection Heq as _ _ <-. constructor. }
  apply runs_copies_bind; [apply runs_copies_tunnel_round|].
  intros returned. destruct returned; [|exact IH].
  intros env r env' evs Heq. injection Heq as _ _ <-. constructor.
Qed.

Lemma runs_copies_tunnel : runs_copies (tunnel BUFFER_SIZE).
Proof.
  intros env r env' evs Heq. unfold tunnel in Heq.
  exact (runs_copies_tunnel_loop _ _ _ _ _ Heq).
Qed.

Lemma runs_copies_lift {A : Type} (x : Result A) : runs_copies (lift x).
Proof. intros env r env' evs Heq. injection Heq as _ _ <-. constructor. Qed.

Lemma runs_copies_ret {A : Type} (a : A) : runs_copies (ret a).
Proof. intros env r env' evs Heq. injection Heq as _ _ <-. constructor. Qed.

Lemma runs_copies_emit (e : Event) : no_send e -> runs_copies (emit e).
Proof.
  intros He env r env' evs Heq. injection Heq as _ _ <-.
  apply copies_other; [exact He | constructor].
Qed.

Lemma runs_copies_response_loop (fuel : nat) :
  runs_copies (response_loop BUFFER_SIZE fuel).
Proof.
  induction fuel as [|fuel IH]; cbn [response_loop].
  { intros env r env' evs Heq. discriminate Heq. }
  apply runs_copies_bind.
  - apply runs_copies_try_except.
    + apply (runs_copies_copy Server). intros data env r env' evs.
      destruct (is_empty data).
      * intros Heq. injection Heq as _ _ <-. left. reflexivity.
      * intros Heq. right.
        exact (send_then Client data (ret true) (runs_copies_ret true) _ _ _ _ Heq).
    + intros e. destruct e; first [apply runs_copies_ret |
        intros env r env' evs Heq; injection Heq as _ _ <-; constructor].
  - intros again. destruct again; [exact IH | apply runs_copies_ret].
Qed.

Lemma runs_copies_relay_response : runs_copies (relay_response BUFFER_SIZE).
Proof.
  intros env r env' evs Heq. unfold relay_response in Heq.
  exact (runs_copies_response_loop _ _ _ _ _ Heq).
Qed.

(** The CONNECT branch writes the 200 response right after the connection
    attempt, and only copies afterwards. *)
Lemma tunnel_established_writes (host : str) (port : Z) (env env' : Env)
    (r : Result unit) (evs : list Event) :
  tunnel_established BUFFER_SIZE host port env = Done r env' evs ->
  evs = [EConnect host port] \/
  exists tail, evs = EConnect host port :: ESend Client resp_200 :: tail /\ copies tail.
Proof.
  unfold tunnel_established. intros Heq.
  apply bind_inv in Heq as [(e & Hrun & _)|(a & env1 & evs1 & evs2 & Hrun & Hrest & ->)];
    unfold create_connection in Hrun; destruct (connect_answer env);
    try discriminate Hrun; injection Hrun as _ _ <-.
  - left. reflexivity.
  - right.
    assert (runs_copies (log (CONNECT host port) ;; tunnel BUFFER_SIZE ;; close Server))
      as Hk.
    { apply runs_copies_bind; [apply runs_copies_emit; discriminate | intros _].
      apply runs_copies_bind; [apply runs_copies_tunnel | intros _].
      apply runs_copies_emit. discriminate. }
    destruct (send_then Client resp_200 _ Hk _ _ _ _ Hrest) as (tail & -> & Htail).
    exists tail. split; [reflexivity | exact Htail].
Qed.

(** The forwarding branch writes the head of the request right after the
    connection attempt and the setting of the time-out, and only copies
    afterwards. *)
Lemma forward_request_writes (host : str) (port : Z)
    (method target version request_line : str) (headers : dict)
    (env env' : Env) (r : Result unit) (evs : list Event) :
  forward_request BUFFER_SIZE host port method target version request_line headers env
  = Done r env' evs ->
  evs = [EConnect host port] \/
  exists line tail,
    rewrite_request_line method target version request_line = Ok line /\
    evs = EConnect host port :: ESetTimeout Server
          :: ESend Server (encode (forward_text line headers)) :: tail /\
    copies tail.
Proof.
  unfold forward_request. intros Heq.
  apply bind_inv in Heq as [(e & Hrun & _)|(a & env1 & evs1 & evs2 & Hrun & Hrest & ->)];
    unfold create_connection in Hrun; destruct (connect_answer env);
    try discriminate Hrun; injection Hrun as _ <- <-.
  { left. reflexivity. }
  right.
  apply bind_inv in Hrest as [(e & Hrun & _)|(a' & env2 & evs3 & evs4 & Hrun & Hrest & ->)];
    [discriminate Hrun|].
  injection Hrun as _ <- <-.
  pose proof (rewrite_request_line_spec method target version request_line) as Hline.
  rewrite Hline, bind_lift_ok in Hrest.
  match type of Hrest with
  | bind (sendall Server _) (fun _ => ?k) _ = _ => assert (runs_copies k) as Hk
  end.
  { apply runs_copies_bind; [apply runs_copies_emit; discriminate | intros _].
    apply runs_copies_bind.
    { destruct (dict_mem (lit "content-length") headers); [|apply runs_copies_ret].
      apply runs_copies_bind; [apply runs_copies_lift | intros n].
      apply (runs_copies_copy Client). intros body env0 r0 env0' evs0 Heq. right.
      destruct (sendall_cases Server body env0) as (rs & env3 & Hr & _).
      change (other Client) with Server. rewrite Hr in Heq. injection Heq as _ _ <-.
      exists []. split; [reflexivity | constructor]. }
    intros _.
    apply runs_copies_bind; [apply runs_copies_relay_response | intros _].
    apply runs_copies_emit. discriminate. }
  destruct (send_then Server _ _ Hk _ _ _ _ Hrest) as (tail & -> & Htail).
  eexists _, tail. split; [exact Hline|]. split; [reflexivity | exact Htail].
Qed.
Lemma unpack3_ok {A : Type} (l : list A) (a b c : A) :
  unpack3 l = Ok (a, b, c) -> l = [a; b; c].
Proof.
  destruct l as [|x [|y [|z [|w l]]]]; try discriminate.
  intros Heq. injection Heq as -> -> ->. reflexivity.
Qed.

Lemma reject_writes (host : str) (env env' : Env) (r : Result unit)
    (evs : list Event) :
  reject host env = Done r env' evs ->
  exists tail, evs = ESend Client resp_403 :: tail /\ copies tail.
Proof.
  intros Heq. destruct (reject_run host env) as (r' & env2 & entries & Hrej & _).
  rewrite Hrej in Heq. injection Heq as _ _ <-. exists (map ELog entries).
  split; [reflexivity|]. apply copies_no_send. apply List.Forall_forall.
  intros e Hin. apply in_map_iff in Hin as (entry & <- & _). discriminate.
Qed.

(** What the try body writes once the header block [data] is read. *)
Lemma dispatch_writes (data : bytes) (env env' : Env) (r : Result unit)
    (evs : list Event) :
  dispatch BUFFER_SIZE blocked data env = Done r env' evs ->
  exists own tail, evs = own ++ tail /\ own_writes (Ok data) own /\ copies tail.
Proof.
  assert (forall evs0, evs0 = [] -> 
            exists own tail, evs0 = own ++ tail /\ own_writes (Ok data) own /\ copies tail)
    as Hnone.
  { intros evs0 ->. exists [], []. split; [reflexivity|]. split; [left; reflexivity|].
    constructor. }
  assert (forall host r0 env0 evs0, reject host env = Done r0 env0 evs0 ->
            exists own tail, evs0 = own ++ tail /\ own_writes (Ok data) own /\ copies tail)
    as Hreject.
  { intros host r0 env0 evs0 Hrej. apply reject_writes in Hrej as (tail & -> & Htail).
    exists [ESend Client resp_403], tail. split; [reflexivity|].
    split; [right; left; reflexivity | exact Htail]. }
  unfold dispatch. destruct (is_empty data).
  { intros Heq. injection Heq as _ _ <-. apply Hnone. reflexivity. }
  rewrite parse_headers_spec, !bind_lift_ok.
  pose proof (parse_headers_spec data) as Hparse.
  set (request_line := hd [] (split crlf None (decode data))) in *.
  set (headers := dict_of (header_pairs data)) in *.
  destruct (length (split_ws request_line) <? 3)%nat.
  { intros Heq. injection Heq as _ _ <-. apply Hnone. reflexivity. }
  destruct (unpack3 (split_ws request_line)) as [[[method target] version]|e] eqn:Hparts.
  2:{ intros Heq. injection Heq as _ _ <-. apply Hnone. reflexivity. }
  apply unpack3_ok in Hparts.
  rewrite !bind_lift_ok. destruct (bool_decide (upper method = lit "CONNECT")).
  - unfold connect_tunnel.
    destruct (connect_destination target) as [[host port]|e].
    2:{ intros Heq. injection Heq as _ _ <-. apply Hnone. reflexivity. }
    rewrite !bind_lift_ok. destruct (bool_decide (host ∈ blocked)); [apply Hreject|].
    intros Heq.
    destruct (tunnel_established_writes host port _ _ _ _ Heq)
      as [->|(tail & -> & Htail)].
    + exists [], [EConnect host port]. split; [reflexivity|].
      split; [left; reflexivity|]. apply copies_other; [discriminate | constructor].
    + exists [EConnect host port; ESend Client resp_200], tail.
      split; [reflexivity|]. split; [|exact Htail].
      right. right. left. exists host, port. reflexivity.
  - unfold http_forward.
    destruct (forward_destination headers) as [[host port]|e].
    2:{ intros Heq. injection Heq as _ _ <-. apply Hnone. reflexivity. }
    rewrite !bind_lift_ok. destruct (bool_decide (host ∈ blocked)); [apply Hreject|].
    intros Heq.
    destruct (forward_request_writes host port _ _ _ _ _ _ _ _ _ Heq)
      as [->|(line & tail & Hline & -> & Htail)].
    + exists [], [EConnect host port]. split; [reflexivity|].
      split; [left; reflexivity|]. apply copies_other; [discriminate | constructor].
    + exists [EConnect host port; ESetTimeout Server;
              ESend Server (encode (forward_text line headers))], tail.
      split; [reflexivity|]. split; [|exact Htail].
      right. right. right. exists data, host, port, (encode (forward_text line headers)).
      split; [reflexivity|]. split; [|reflexivity].
      exists request_line, headers, method, target, version, line.
      repeat split; assumption.
Qed.

(** X5. The handler never alters or invents payload.  Every write it makes,
    to either socket, repeats the bytes of the read from the other socket
    made just before it, with three exceptions, each at one fixed place: the
    403 response, written to the client right after the reads of the header
    block; the 200 response, written to the client right after the
    connection attempt; and the head of the request, written to the upstream
    socket right after the connection attempt and the setting of its
    time-out, which is the head built from the header block that was read. *)
Theorem payload_copied_unchanged (env : Env) :
  exists read env1 reads r env' evs,
    recv_until BUFFER_SIZE Client (bcrlf ++ bcrlf) env = Done read env1 reads /\
    handle_client BUFFER_SIZE blocked env = Done r env' evs /\
    forall pre t data post,
      evs = pre ++ ESend t data :: post ->
      (exists pre' n, pre = pre' ++ [ERecv (other t) n (Ok data)]) \/
      (t = Client /\ data = resp_403 /\ pre = ESetTimeout Client :: reads) \/
      (t = Client /\ data = resp_200 /\
       exists host port, pre = ESetTimeout Client :: reads ++ [EConnect host port]) \/
      (t = Server /\
       exists header_data host port,
         read = Ok header_data /\ request_head header_data data /\
         pre = ESetTimeout Client :: reads ++ [EConnect host port; ESetTimeout Server]).
Proof.
  destruct (handle_client_run BUFFER_SIZE blocked env) as (r & env' & evs0 & Hrun & Hall).
  assert (exists read env1 reads own tail,
            recv_until BUFFER_SIZE Client (bcrlf ++ bcrlf) env = Done read env1 reads /\
            evs0 = reads ++ own ++ tail /\ own_writes read own /\ copies tail)
    as (read & env1 & reads & own & tail & Hread & -> & Hown & Htail).
  { unfold handle_request in Hrun.
    apply bind_inv in Hrun
      as [(e & Hread & _)|(data & env1 & reads & evs2 & Hread & Hrest & ->)].
    - exists (Raise e), env', evs0, [], []. rewrite app_nil_r.
      split; [exact Hread|]. split; [reflexivity|]. split; [left; reflexivity | constructor].
    - destruct (dispatch_writes _ _ _ _ _ Hrest) as (own & tail & -> & Hown & Htail).
      exists (Ok data), env1, reads, own, tail. repeat split; assumption. }
  exists read, env1, reads. eexists _, _, _. split; [exact Hread|]. split; [exact Hall|].
  assert (Forall no_send (ESetTimeout Client :: reads)) as Hreads.
  { constructor; [discriminate|].
    eapply List.Forall_impl; [|exact (read_headers_reads _ _ _ _ _ Hread)].
    intros e (n & answer & ->). discriminate. }
  assert (copies (tail ++ map ELog (error_entries r) ++ [EClose Client])) as Hrest.
  { apply copies_app; [exact Htail|]. apply copies_no_send. apply Forall_app. split.
    - apply List.Forall_forall. intros e Hin. apply in_map_iff in Hin as (entry & <- & _).
      discriminate.
    - constructor; [discriminate | constructor]. }
  set (rest := tail ++ map ELog (error_entries r) ++ [EClose Client]) in *.
  intros pre t data post Heq.
  destruct Hown as [->|[->|[(host & port & ->)|(hd & host & port & head & -> & Hhead & ->)]]].
  - left.
    assert ((ESetTimeout Client :: reads) ++ rest = pre ++ ESend t data :: post) as Heq'.
    { rewrite <- Heq. cbn [app]. rewrite <- !app_assoc. reflexivity. }
    refine (copies_spec _ _ pre t data post Heq').
    apply copies_app; [apply copies_no_send; exact Hreads | exact Hrest].
  - assert ((ESetTimeout Client :: reads) ++ ESend Client resp_403 :: rest
            = pre ++ ESend t data :: post) as Heq'.
    { rewrite <- Heq. cbn [app]. rewrite <- !app_assoc. reflexivity. }
    destruct (first_send _ _ _ _ _ _ _ _ Hreads Hrest Heq')
      as [(-> & -> & ->)|Hcopy]; [|left; exact Hcopy].
    right. left. repeat split.
  - assert ((ESetTimeout Client :: reads ++ [EConnect host port])
              ++ ESend Client resp_200 :: rest
            = pre ++ ESend t data :: post) as Heq'.
    { rewrite <- Heq. cbn [app]. rewrite <- !app_assoc. reflexivity. }
    assert (Forall no_send (ESetTimeout Client :: reads ++ [EConnect host port])) as Hl.
    { apply (Forall_app no_send (ESetTimeout Client :: reads) [EConnect host port]).
      split; [exact Hreads|]. constructor; [discriminate | constructor]. }
    destruct (first_send _ _ _ _ _ _ _ _ Hl Hrest Heq')
      as [(-> & -> & ->)|Hcopy]; [|left; exact Hcopy].
    right. right. left. split; [reflexivity|]. split; [reflexivity|].
    exists host, port. reflexivity.
  - assert ((ESetTimeout Client :: reads ++ [EConnect host port; ESetTimeout Server])
              ++ ESend Server head :: rest
            = pre ++ ESend t data :: post) as Heq'.
    { rewrite <- Heq. cbn [app]. rewrite <- !app_assoc. reflexivity. }
    assert (Forall no_send
              (ESetTimeout Client :: reads ++ [EConnect host port; ESetTimeout Server]))
      as Hl.
    { apply (Forall_app no_send (ESetTimeout Client :: reads)
               [EConnect host port; ESetTimeout Server]).
      split; [exact Hreads|].
      constructor; [discriminate|]. constructor; [discriminate | constructor]. }
    destruct (first_send _ _ _ _ _ _ _ _ Hl Hrest Heq')
      as [(-> & -> & ->)|Hcopy]; [|left; exact Hcopy].
    right. right. right. split; [reflexivity|].
    exists hd, host, port. repeat split. exact Hhead.
Qed.
End Payload.

(** ** The response loop and the relay *)

Section Loops.
Variable BUFFER_SIZE : Z.

Lemma response_loop_events (fuel : nat) :
  forall env, (length (server_in env) < fuel)%nat ->
  exists r env' evs,
    response_loop BUFFER_SIZE fuel env = Done r env' evs /\
    r <> Raise SocketTimeout /\
    Forall is_response_event evs /\
    sent_to Client evs = read_from Server evs.
Proof.
  induction fuel as [|fuel IH]; intros env Hfuel; [lia|].
  cbn [response_loop]. unfold bind at 1, try_except, bind at 1.
  assert (forall n answer, is_response_event (ERecv Server n answer)) as Hrecv
    by (intros n answer; left; eexists _, _; reflexivity).
  destruct (recv_cases Server BUFFER_SIZE env) as [(e & -> & _)|(answer & rest & Hin & ->)].
  { destruct e; eexists _, _, _; (split; [reflexivity|]);
      (split; [discriminate|]); (split; [constructor; [apply Hrecv | constructor] | reflexivity]). }
  destruct answer as [data|e].
  2:{ destruct e; eexists _, _, _; (split; [reflexivity|]);
        (split; [discriminate|]); (split; [constructor; [apply Hrecv | constructor] | reflexivity]). }
  destruct data as [|b data]; cbn [is_empty].
  { eexists _, _, _. split; [reflexivity|]. split; [discriminate|].
    split; [constructor; [apply Hrecv | constructor] | reflexivity]. }
  unfold bind at 1.
  destruct (sendall_cases Client (b :: data) (set_inbox Server rest env))
    as (rs & env1 & -> & _ & Hin1).
  assert (Forall is_response_event
            [ERecv Server BUFFER_SIZE (Ok (b :: data)); ESend Client (b :: data)]) as Hpair.
  { constructor; [apply Hrecv|]. constructor; [right; eexists; reflexivity | constructor]. }
  destruct rs as [[]|e].
  - destruct (IH env1) as (r & env' & evs & Hrun & Hr & Hevs & Hcopy).
    { rewrite Hin1. simpl. simpl in Hin. rewrite Hin in Hfuel. simpl in Hfuel. lia. }
    cbn. rewrite Hrun. eexists _, _, _. split; [reflexivity|]. split; [exact Hr|].
    split.
    + cbn. apply (Forall_app _ [_; _] evs). split; [exact Hpair | exact Hevs].
    + cbn [app]. unfold sent_to, read_from in *. cbn. rewrite Hcopy. reflexivity.
  - destruct e; eexists _, _, _; (split; [reflexivity|]);
      (split; [discriminate|]); cbn; rewrite ?app_nil_r;
      (split; [exact Hpair | reflexivity]).
Qed.

(** X6. The response loop ends for every environment, and a time-out of
    either socket ends it without an exception.  It only reads from the
    upstream socket and writes to the client, and the data it writes are its
    non-empty reads, unchanged and in order. *)
Theorem response_relayed_one_way (env : Env) :
  exists r env' evs,
    relay_response BUFFER_SIZE env = Done r env' evs /\
    r <> Raise SocketTimeout /\
    Forall is_response_event evs /\
    sent_to Client evs = read_from Server evs /\
    sent_to Server evs = [] /\ read_from Client evs = [].
Proof.
  destruct (response_loop_events (S (length (server_in env))) env)
    as (r & env' & evs & Hrun & Hr & Hevs & Hcopy); [lia|].
  exists r, env', evs. repeat split; try assumption.
  - clear -Hevs. induction Hevs as [|e evs [(n & a & ->)|(d & ->)] _ IH];
      [reflexivity | exact IH | exact IH].
  - clear -Hevs. induction Hevs as [|e evs [(n & a & ->)|(d & ->)] _ IH];
      [reflexivity | | exact IH].
    unfold read_from. cbn [flat_map]. destruct a; exact IH.
Qed.

(** X7. The relay makes no call but readiness waits, reads and writes: it
    closes no socket, logs nothing and connects to nothing, and leaves the
    closing of both sockets to its caller. *)
Theorem relay_leaves_sockets_open (env : Env) :
  exists r env' evs,
    tunnel BUFFER_SIZE env = Done r env' evs /\
    Forall is_relay_event evs /\
    closed Client evs = false /\ closed Server evs = false /\
    connects evs = [] /\ logged evs = [].
Proof.
  destruct (tunnel_loop_events BUFFER_SIZE (S (length (selects env))) env)
    as (r & env' & evs & Hrun & _); [lia|].
  exists r, env', evs. split; [exact Hrun|].
  assert (Forall is_relay_event evs) as Hevs.
  { refine (emits_tunnel BUFFER_SIZE is_relay_event _ _ _ _ _ Hrun). repeat split. }
  split; [exact Hevs|].
  repeat split.
  - apply not_closed. eapply List.Forall_impl; [|exact Hevs]. intros e He ->. exact He.
  - apply not_closed. eapply List.Forall_impl; [|exact Hevs]. intros e He ->. exact He.
  - clear -Hevs. induction Hevs as [|e evs He _ IH]; [reflexivity|].
    destruct e; try destruct He; exact IH.
  - clear -Hevs. induction Hevs as [|e evs He _ IH]; [reflexivity|].
    destruct e; try destruct He; exact IH.
Qed.
End Loops.

(** ** The two branches, call by call *)

Lemma response_events_one_way (evs : list Event) :
  Forall is_response_event evs ->
  sent_to Server evs = [] /\ read_from Client evs = [] /\
  connects evs = [] /\ logged evs = [].
Proof.
  induction 1 as [|e evs [(n & a & ->)|(d & ->)] _ (IH1 & IH2 & IH3 & IH4)].
  - repeat split.
  - repeat split; try assumption. unfold read_from. cbn [flat_map]. destruct a; exact IH2.
  - repeat split; assumption.
Qed.

Section Calls.
Variable BUFFER_SIZE : Z.
Variable blocked : gset str.

(** The branch taken for a request with three tokens and an allowed host. *)
Lemma dispatch_allowed (data : bytes) (env : Env) (request_line : str)
    (headers : dict) (method target version host : str) (port : Z) :
  parse_headers data = Ok (request_line, headers) ->
  split_ws request_line = [method; target; version] ->
  destination method target headers = Ok (host, port) ->
  host ∉ blocked ->
  dispatch BUFFER_SIZE blocked data env =
  if bool_decide (upper method = lit "CONNECT")
  then tunnel_established BUFFER_SIZE host port env
  else forward_request BUFFER_SIZE host port (upper method) target version
         request_line headers env.
Proof.
  intros Hparse Hparts Hdest Hfree.
  rewrite (dispatch_three _ _ _ _ _ _ _ _ _ Hparse Hparts).
  unfold destination in Hdest.
  destruct (bool_decide (upper method = lit "CONNECT")).
  - unfold connect_tunnel. rewrite Hdest, bind_lift_ok.
    rewrite bool_decide_eq_false_2 by exact Hfree. reflexivity.
  - unfold http_forward. rewrite Hdest, bind_lift_ok.
    rewrite bool_decide_eq_false_2 by exact Hfree. reflexivity.
Qed.

(** X8. When the connection to an allowed destination fails, the handler
    makes that one attempt only, writes nothing to the client, and closes the
    client socket; it logs the failure as ERROR unless it is a time-out. *)
Theorem connection_failure_is_final (env env1 : Env) (data : bytes)
    (evs1 : list Event) (request_line : str) (headers : dict)
    (method target version host : str) (port : Z) (e : Exn) :
  recv_until BUFFER_SIZE Client (bcrlf ++ bcrlf) env = Done (Ok data) env1 evs1 ->
  parse_headers data = Ok (request_line, headers) ->
  split_ws request_line = [method; target; version] ->
  destination method target headers = Ok (host, port) ->
  host ∉ blocked ->
  connect_answer env1 = Some e ->
  exists evs,
    handle_client BUFFER_SIZE blocked env = Done (Ok tt) env1 evs /\
    evs = ESetTimeout Client :: evs1 ++ [EConnect host port]
          ++ map ELog (error_entries (@Raise unit e)) ++ [EClose Client] /\
    Forall (is_recv Client) evs1 /\
    (forall t, sent_to t evs = []) /\
    connects evs = [(host, port)].
Proof.
  intros Hread Hparse Hparts Hdest Hfree Hconn.
  pose proof (read_headers_reads _ _ _ _ _ Hread) as Hreads.
  destruct (reads_silent _ _ Hreads) as (Hsent & Hnoconn & _).
  assert (dispatch BUFFER_SIZE blocked data env1
          = Done (Raise e) env1 [EConnect host port]) as Hdisp.
  { rewrite (dispatch_allowed _ _ _ _ _ _ _ _ _ Hparse Hparts Hdest Hfree).
    destruct (bool_decide (upper method = lit "CONNECT"));
      [unfold tunnel_established | unfold forward_request];
      unfold bind at 1, create_connection; rewrite Hconn; reflexivity. }
  eexists. split.
  { rewrite (handle_client_dispatch _ _ _ _ _ _ _ _ _ Hread Hdisp). reflexivity. }
  split; [reflexivity|]. split; [exact Hreads|].
  change (ESetTimeout Client :: ?l) with ([ESetTimeout Client] ++ l).
  split.
  - intros t. rewrite !sent_to_app, Hsent, sent_to_log. reflexivity.
  - rewrite !connects_app, Hnoconn, connects_log. reflexivity.
Qed.

(** X9. For a CONNECT to an allowed destination whose connection succeeds,
    the handler writes the 200 response and logs CONNECT before the relay
    starts; when the relay returns it closes the upstream socket and then the
    client socket, and when the relay raises it closes the client socket
    only. *)
Theorem connect_established (env env1 : Env) (data : bytes)
    (evs1 : list Event) (request_line : str) (headers : dict)
    (method target version host : str) (port : Z) :
  recv_until BUFFER_SIZE Client (bcrlf ++ bcrlf) env = Done (Ok data) env1 evs1 ->
  parse_headers data = Ok (request_line, headers) ->
  split_ws request_line = [method; target; version] ->
  upper method = lit "CONNECT" ->
  connect_destination target = Ok (host, port) ->
  host ∉ blocked ->
  connect_answer env1 = None ->
  client_out env1 = [] ->
  exists rt env2 tevs,
    tunnel BUFFER_SIZE env1 = Done rt env2 tevs /\
    handle_client BUFFER_SIZE blocked env
    = Done (Ok tt) env2
        (ESetTimeout Client :: evs1
         ++ [EConnect host port; ESend Client resp_200; ELog (CONNECT host port)]
         ++ tevs
         ++ match rt with
            | Ok _ => [EClose Server]
            | Raise _ => map ELog (error_entries rt)
            end
         ++ [EClose Client]).
Proof.
  intros Hread Hparse Hparts Hmethod Hdest Hfree Hconn Hout.
  destruct (finishes_tunnel BUFFER_SIZE env1) as (rt & env2 & tevs & Htun).
  exists rt, env2, tevs. split; [exact Htun|].
  assert (destination method target headers = Ok (host, port)) as Hdest'.
  { unfold destination. rewrite bool_decide_eq_true_2 by exact Hmethod. exact Hdest. }
  assert (dispatch BUFFER_SIZE blocked data env1
          = Done rt env2
              ([EConnect host port; ESend Client resp_200; ELog (CONNECT host port)]
               ++ tevs ++ match rt with Ok _ => [EClose Server] | Raise _ => [] end))
    as Hdisp.
  { rewrite (dispatch_allowed _ _ _ _ _ _ _ _ _ Hparse Hparts Hdest' Hfree).
    rewrite bool_decide_eq_true_2 by exact Hmethod.
    unfold tunnel_established, bind, create_connection, sendall, log, close, emit.
    cbn [outbox]. rewrite Hconn, Hout. cbn [after]. rewrite Htun.
    destruct rt as [[]|e]; cbn; rewrite ?app_nil_r; reflexivity. }
  rewrite (handle_client_dispatch _ _ _ _ _ _ _ _ _ Hread Hdisp).
  destruct rt as [[]|e]; cbn [error_entries map app]; rewrite ?app_nil_r, <- ?app_assoc;
    reflexivity.
Qed.
Lemma bind_done {A B : Type} (m : M A) (k : A -> M B) (env env1 : Env) (a : A)
    (evs1 : list Event) :
  m env = Done (Ok a) env1 evs1 -> bind m k env = after evs1 (k a env1).
Proof. intros Hm. unfold bind. rewrite Hm. reflexivity. Qed.

(** X10. For a forwarded request with a Content-Length header that [int]
    reads as a number that is not negative, the handler makes one read of
    that size from the client after it has sent the request head, and sends
    what that read returns upstream, whatever its length; afterwards it reads
    nothing more from the client and sends nothing more upstream. *)
Theorem body_read_once_and_forwarded (env env1 : Env) (data : bytes)
    (evs1 : list Event) (request_line : str) (headers : dict)
    (method target version host : str) (port : Z) (value : str) (n : Z)
    (body : bytes) (rest : list (Result bytes)) :
  recv_until BUFFER_SIZE Client (bcrlf ++ bcrlf) env = Done (Ok data) env1 evs1 ->
  parse_headers data = Ok (request_line, headers) ->
  split_ws request_line = [method; target; version] ->
  upper method <> lit "CONNECT" ->
  forward_destination headers = Ok (host, port) ->
  host ∉ blocked ->
  connect_answer env1 = None ->
  server_out env1 = [] ->
  dict_lookup (lit "content-length") headers = Some value ->
  py_int value = Some n ->
  (0 <= n)%Z ->
  client_in env1 = Ok body :: rest ->
  exists env2 evs post line,
    handle_client BUFFER_SIZE blocked env = Done (Ok tt) env2 evs /\
    rewrite_request_line (upper method) target version request_line = Ok line /\
    evs = ESetTimeout Client :: evs1
          ++ [EConnect host port; ESetTimeout Server;
              ESend Server (encode (forward_text line headers));
              ELog (ALLOWED host port line);
              ERecv Client n (Ok body); ESend Server body]
          ++ post /\
    sent_to Server post = [] /\ read_from Client post = [].
Proof.
  intros Hread Hparse Hparts Hmethod Hdest Hfree Hconn Hout Hlen Hint Hn Hin.
  pose proof (rewrite_request_line_spec (upper method) target version request_line)
    as Hline.
  set (line := if startswith (lit "http://") target
               then upper method ++ space
                    ++ (lit "/" ++ default [] (after_nth 47 3 target))
                    ++ space ++ version
               else request_line) in Hline.
  set (env1' := set_inbox Client rest env1).
  destruct (response_loop_events BUFFER_SIZE (S (length (server_in env1'))) env1')
    as (rr & env2 & revs & Hrelay & _ & Hrevs & _); [lia|].
  destruct (response_events_one_way revs Hrevs) as (Hs & Hr & _ & _).
  assert (destination method target headers = Ok (host, port)) as Hdest'.
  { unfold destination. rewrite bool_decide_eq_false_2 by exact Hmethod. exact Hdest. }
  assert (dispatch BUFFER_SIZE blocked data env1
          = Done rr env2
              ([EConnect host port; ESetTimeout Server;
                ESend Server (encode (forward_text line headers));
                ELog (ALLOWED host port line);
                ERecv Client n (Ok body); ESend Server body]
               ++ revs ++ match rr with Ok _ => [EClose Server] | Raise _ => [] end))
    as Hdisp.
  { rewrite (dispatch_allowed _ _ _ _ _ _ _ _ _ Hparse Hparts Hdest' Hfree).
    rewrite bool_decide_eq_false_2 by exact Hmethod.
    unfold forward_request.
    rewrite (bind_done _ _ env1 env1 tt [EConnect host port])
      by (unfold create_connection; rewrite Hconn; reflexivity).
    rewrite (bind_done _ _ env1 env1 tt [ESetTimeout Server]) by reflexivity.
    rewrite Hline, bind_lift_ok.
    rewrite (bind_done _ _ env1 env1 tt [ESend Server (encode (forward_text line headers))])
      by (unfold sendall; cbn [outbox]; rewrite Hout; reflexivity).
    rewrite (bind_done _ _ env1 env1 tt [ELog (ALLOWED host port line)]) by reflexivity.
    rewrite (bind_done _ _ env1 env1' tt [ERecv Client n (Ok body); ESend Server body]).
    2:{ unfold dict_mem, dict_item. rewrite Hlen. cbn [or_raise rbind].
        rewrite Hint. cbn [or_raise]. rewrite bind_lift_ok.
        rewrite (bind_done _ _ env1 env1' body [ERecv Client n (Ok body)]).
        - unfold sendall. replace (outbox Server env1') with (@nil (option Exn)); reflexivity || (symmetry; exact Hout).
        - unfold recv. rewrite (proj2 (Z.ltb_ge n 0) Hn). cbn [inbox]. rewrite Hin. reflexivity. }
    unfold bind at 1. unfold relay_response at 1. fold env1'. rewrite Hrelay.
    destruct rr as [[]|e]; cbn; rewrite ?app_nil_r; reflexivity. }
  exists env2. eexists.
  exists (revs ++ match rr with Ok _ => [EClose Server] | Raise _ => [] end
          ++ map ELog (error_entries rr) ++ [EClose Client]), line.
  split.
  { rewrite (handle_client_dispatch _ _ _ _ _ _ _ _ _ Hread Hdisp). reflexivity. }
  split; [exact Hline|]. split.
  { cbn [app]. rewrite <- !app_assoc. reflexivity. }
  unfold read_from in *. rewrite !sent_to_app, !flat_map_app, Hs, Hr, sent_to_log.
  destruct rr as [[]|e]; [|destruct e]; split; reflexivity.
Qed.
End Calls.


(** A CONNECT whose connection is refused. *)
Lemma connection_failure_is_final_witness :
  exists evs,
    handle_client 4096 ∅
      {| client_in := [Ok (header_block ["CONNECT example.com:443 HTTP/1.1"]%string)];
         server_in := []; client_out := []; server_out := [];
         connect_answer := Some OSError; selects := [] |}
    = Done (Ok tt)
        {| client_in := []; server_in := []; client_out := []; server_out := [];
           connect_answer := Some OSError; selects := [] |} evs /\
    (forall t, sent_to t evs = []) /\
    connects evs = [(lit "example.com", 443%Z)] /\
    logged evs = [ERROR OSError].
Proof.
  edestruct (connection_failure_is_final 4096 ∅
    {| client_in := [Ok (header_block ["CONNECT example.com:443 HTTP/1.1"]%string)];
       server_in := []; client_out := []; server_out := [];
       connect_answer := Some OSError; selects := [] |})
    as (evs & Hrun & Hevs & _ & Hsent & Hconn).
  - vm_compute. reflexivity.
  - vm_compute. reflexivity.
  - vm_compute. reflexivity.
  - vm_compute. reflexivity.
  - apply not_elem_of_empty.
  - reflexivity.
  - exists evs. split; [exact Hrun|]. split; [exact Hsent|]. split; [exact Hconn|].
    rewrite Hevs. reflexivity.
Defined.

(** A tunnel that carries one chunk from the client and ends when the client
    closes. *)
Lemma connect_established_witness :
  exists env2 evs,
    handle_client 4096 ∅
      {| client_in := [Ok (header_block ["CONNECT example.com:443 HTTP/1.1"]%string);
                       Ok [x16; x03]; Ok []];
         server_in := []; client_out := []; server_out := [];
         connect_answer := None; selects := [[Client]; [Client]] |}
    = Done (Ok tt) env2 evs /\
    sent_to Client evs = [resp_200] /\ sent_to Server evs = [[x16; x03]] /\
    logged evs = [CONNECT (lit "example.com") 443%Z] /\
    closed Server evs = true.
Proof.
  edestruct (connect_established 4096 ∅
    {| client_in := [Ok (header_block ["CONNECT example.com:443 HTTP/1.1"]%string);
                     Ok [x16; x03]; Ok []];
       server_in := []; client_out := []; server_out := [];
       connect_answer := None; selects := [[Client]; [Client]] |})
    as (rt & env2 & tevs & Htun & Hrun).
  - vm_compute. reflexivity.
  - vm_compute. reflexivity.
  - vm_compute. reflexivity.
  - reflexivity.
  - vm_compute. reflexivity.
  - apply not_elem_of_empty.
  - reflexivity.
  - reflexivity.
  - vm_compute in Htun. injection Htun as <- <- <-.
    eexists _, _. split; [exact Hrun|]. repeat split; reflexivity.
Defined.

(** A POST with a body of three bytes in a chunk of its own. *)
Lemma body_read_once_and_forwarded_witness :
  exists env2 evs,
    handle_client 4096 ∅
      {| client_in := [Ok (header_block ["POST /submit HTTP/1.1"; "Host: example.com";
                                         "Content-Length: 3"]%string);
                       Ok (blit "a=1")];
         server_in := [Ok (blit "HTTP/1.1 204 No Content"); Ok []];
         client_out := []; server_out := [];
         connect_answer := None; selects := [] |}
    = Done (Ok tt) env2 evs /\
    sent_to Server evs
    = [header_block ["POST /submit HTTP/1.1"; "host: example.com";
                     "content-length: 3"]%string; blit "a=1"].
Proof.
  edestruct (body_read_once_and_forwarded 4096 ∅
    {| client_in := [Ok (header_block ["POST /submit HTTP/1.1"; "Host: example.com";
                                       "Content-Length: 3"]%string);
                     Ok (blit "a=1")];
       server_in := [Ok (blit "HTTP/1.1 204 No Content"); Ok []];
       client_out := []; server_out := [];
       connect_answer := None; selects := [] |})
    as (env2 & evs & post & line & Hrun & Hline & Hevs & Hsent & _).
  - vm_compute. reflexivity.
  - vm_compute. reflexivity.
  - vm_compute. reflexivity.
  - vm_compute. discriminate.
  - vm_compute. reflexivity.
  - apply not_elem_of_empty.
  - reflexivity.
  - reflexivity.
  - vm_compute. reflexivity.
  - vm_compute. reflexivity.
  - lia.
  - reflexivity.
  - exists env2, evs. split; [exact Hrun|].
    vm_compute in Hline. injection Hline as <-.
    rewrite Hevs. change (ESetTimeout Client :: ?l) with ([ESetTimeout Client] ++ l).
    rewrite !sent_to_app, Hsent. reflexivity.
Defined.

(** ** Reading the header block *)

Lemma read_from_cons_recv (s : Sock) (n : Z) (chunk : bytes) (evs : list Event) :
  read_from s (ERecv s n (Ok chunk) :: evs)
  = (if is_empty chunk then [] else [chunk]) ++ read_from s evs.
Proof.
  unfold read_from. cbn [flat_map]. rewrite decide_True by reflexivity. reflexivity.
Qed.

Lemma recv_until_loop_collects (BUFFER_SIZE : Z) (sock : Sock) (delimiter : bytes)
    (fuel : nat) :
  forall (data0 : bytes) (env env' : Env) (data : bytes) (evs : list Event),
  recv_until_loop BUFFER_SIZE fuel sock delimiter data0 env = Done (Ok data) env' evs ->
  data = data0 ++ concat (read_from sock evs) /\
  (contains delimiter data = true \/
   exists pre, evs = pre ++ [ERecv sock BUFFER_SIZE (Ok [])]) /\
  (forall pre e post,
     evs = pre ++ e :: post ->
     contains delimiter (data0 ++ concat (read_from sock pre)) = false).
Proof.
  induction fuel as [|fuel IH]; intros data0 env env' data evs Heq; [discriminate Heq|].
  cbn [recv_until_loop] in Heq. destruct (contains delimiter data0) eqn:Hc.
  { injection Heq as <- _ <-. split; [symmetry; apply app_nil_r|].
    split; [left; exact Hc|]. intros [|x pre] e post Hnil; discriminate Hnil. }
  apply bind_inv in Heq as [(e & _ & Habs)|(chunk & env1 & evs1 & evs2 & Hrun & Hrest & ->)];
    [discriminate Habs|].
  assert (evs1 = [ERecv sock BUFFER_SIZE (Ok chunk)]) as ->.
  { destruct (recv_cases sock BUFFER_SIZE env) as [(e & Hr & _)|(answer & rest & _ & Hr)];
      rewrite Hr in Hrun; [discriminate Hrun|].
    injection Hrun as -> _ <-. reflexivity. }
  destruct chunk as [|b chunk]; cbn [is_empty] in Hrest.
  - injection Hrest as <- _ <-. cbn [app].
    replace (concat (read_from sock [ERecv sock BUFFER_SIZE (Ok [])])) with (@nil byte)
      by (rewrite read_from_cons_recv; reflexivity).
    split; [symmetry; apply app_nil_r|].
    split; [right; exists []; reflexivity|].
    intros [|x [|y pre]] e post Hsplit; try discriminate Hsplit.
    cbn. rewrite app_nil_r. exact Hc.
  - destruct (IH _ _ _ _ _ Hrest) as (Hdata & Hend & Hbefore).
    assert (forall l, concat (read_from sock (ERecv sock BUFFER_SIZE (Ok (b :: chunk)) :: l))
                      = (b :: chunk) ++ concat (read_from sock l)) as Hcons
      by (intros l; rewrite read_from_cons_recv; reflexivity).
    change ([ERecv sock BUFFER_SIZE (Ok (b :: chunk))] ++ evs2)
      with (ERecv sock BUFFER_SIZE (Ok (b :: chunk)) :: evs2).
    split; [rewrite Hcons, app_assoc; exact Hdata|]. split.
    + destruct Hend as [Hfound|(pre & ->)]; [left; exact Hfound|].
      right. exists (ERecv sock BUFFER_SIZE (Ok (b :: chunk)) :: pre). reflexivity.
    + intros [|x pre] e post Hsplit; cbn [app] in Hsplit.
      * cbn. rewrite app_nil_r. exact Hc.
      * injection Hsplit as <- Hsplit. rewrite Hcons, app_assoc.
        exact (Hbefore _ _ _ Hsplit).
Qed.

(** X11. When [recv_until] returns, the data it returns are all the chunks
    it has read, joined in order: it reads on while the delimiter is not in
    the data read so far, and returns at the first chunk that brings the
    delimiter in, with whatever follows the delimiter in that chunk, or when
    the peer closes. *)
Theorem recv_until_collects (BUFFER_SIZE : Z) (sock : Sock) (delimiter : bytes)
    (env env' : Env) (data : bytes) (evs : list Event) :
  recv_until BUFFER_SIZE sock delimiter env = Done (Ok data) env' evs ->
  Forall (is_recv sock) evs /\
  data = concat (read_from sock evs) /\
  (contains delimiter data = true \/
   exists pre, evs = pre ++ [ERecv sock BUFFER_SIZE (Ok [])]) /\
  (forall pre e post,
     evs = pre ++ e :: post ->
     contains delimiter (concat (read_from sock pre)) = false).
Proof.
  intros Heq. split.
  { destruct (recv_until_reads BUFFER_SIZE sock delimiter env)
      as (r1 & env1 & evs1 & Hrun & Hreads).
    rewrite Hrun in Heq. injection Heq as _ _ <-. exact Hreads. }
  unfold recv_until in Heq.
  exact (recv_until_loop_collects _ _ _ _ _ _ _ _ _ Heq).
Qed.

(** A header block that comes in two chunks, the second with the first bytes
    of a body. *)
Lemma recv_until_collects_witness :
  exists env' evs,
    recv_until 4096 Client (bcrlf ++ bcrlf)
      (client_sends [blit "GET / HTTP/1.1" ++ bcrlf ++ blit "Host: a";
                     bcrlf ++ bcrlf ++ blit "body"; blit "more"])
    = Done (Ok (blit "GET / HTTP/1.1" ++ bcrlf ++ blit "Host: a" ++ bcrlf ++ bcrlf
                ++ blit "body")) env' evs /\
    client_in env' = [Ok (blit "more")] /\
    (forall pre e post,
       evs = pre ++ e :: post ->
       contains (bcrlf ++ bcrlf) (concat (read_from Client pre)) = false).
Proof.
  eexists _, _. split; [vm_compute; reflexivity|]. split; [reflexivity|].
  edestruct (recv_until_collects 4096 Client (bcrlf ++ bcrlf)
               (client_sends [blit "GET / HTTP/1.1" ++ bcrlf ++ blit "Host: a";
                              bcrlf ++ bcrlf ++ blit "body"; blit "more"]))
    as (_ & _ & _ & Hbefore); [vm_compute; reflexivity | exact Hbefore].
Defined.

(** X12. When the reading of the header block fails, the handler processes
    nothing: it writes no byte, attempts no connection and closes the client
    socket; a time-out is not logged, any other failure is logged as
    ERROR. *)
Theorem header_read_failure (BUFFER_SIZE : Z) (blocked : gset str)
    (env env1 : Env) (e : Exn) (evs1 : list Event) :
  recv_until BUFFER_SIZE Client (bcrlf ++ bcrlf) env = Done (Raise e) env1 evs1 ->
  exists evs,
    handle_client BUFFER_SIZE blocked env = Done (Ok tt) env1 evs /\
    evs = ESetTimeout Client :: evs1
          ++ map ELog (error_entries (@Raise unit e)) ++ [EClose Client] /\
    Forall (is_recv Client) evs1 /\
    (forall t, sent_to t evs = []) /\ connects evs = [] /\
    logged evs = error_entries (@Raise unit e).
Proof.
  intros Hread.
  pose proof (read_headers_reads _ _ _ _ _ Hread) as Hreads.
  destruct (reads_silent _ _ Hreads) as (Hsent & Hconn & Hlog).
  assert (handle_request BUFFER_SIZE blocked env = Done (Raise e) env1 evs1) as Hrun.
  { unfold handle_request, bind. rewrite Hread. reflexivity. }
  eexists. split.
  { unfold handle_client, bind, settimeout, emit.
    rewrite (guarded_run _ _ _ _ _ Hrun). reflexivity. }
  cbn [after app]. split; [reflexivity|]. split; [exact Hreads|].
  change (ESetTimeout Client :: ?l) with ([ESetTimeout Client] ++ l).
  split; [intros t; rewrite !sent_to_app, Hsent, sent_to_log; reflexivity|].
  rewrite !connects_app, !logged_app, Hconn, Hlog, connects_log, logged_log.
  split; [reflexivity|]. cbn. apply app_nil_r.
Qed.

(** A client that sends half a request line and goes silent. *)
Lemma header_read_failure_witness :
  exists env1 evs,
    handle_client 4096 ∅ (client_sends [blit "GET / HT"]) = Done (Ok tt) env1 evs /\
    (forall t, sent_to t evs = []) /\ connects evs = [] /\ logged evs = [].
Proof.
  edestruct (header_read_failure 4096 ∅ (client_sends [blit "GET / HT"]))
    as (evs & Hrun & _ & _ & Hsent & Hconn & Hlog).
  - vm_compute. reflexivity.
  - eexists _, evs. split; [exact Hrun|]. split; [exact Hsent|]. split; assumption.
Defined.

(** ** Splitting at a character *)

Section SplitJoin.
Context {A : Type} `{EqDecision A}.
Implicit Types (s piece : list A) (c : A).

Lemma split_single_cons c x s :
  split [c] None (x :: s) =
  if decide (x = c) then [] :: split [c] None s
  else match split [c] None s with
       | piece :: pieces => (x :: piece) :: pieces
       | [] => [[x]]
       end.
Proof.
  unfold split. cbn [split_from may_split startswith andb length Nat.pred spend].
  rewrite andb_true_r. destruct (decide (x = c)) as [->|Hne].
  - rewrite bool_decide_eq_true_2 by reflexivity. reflexivity.
  - rewrite bool_decide_eq_false_2 by congruence. reflexivity.
Qed.

(** Joining the pieces gives the string back. *)
Lemma join_split c s : join [c] (split [c] None s) = s.
Proof.
  induction s as [|x s IH]; [reflexivity|].
  rewrite split_single_cons.
  destruct (split_nonempty [c] None s) as (piece & pieces & Hs).
  rewrite Hs in *. destruct (decide (x = c)) as [->|Hne].
  - change (join [c] ([] :: piece :: pieces))
      with ([] ++ [c] ++ join [c] (piece :: pieces)).
    rewrite IH. reflexivity.
  - destruct pieces as [|piece' pieces].
    + change (piece = s) in IH. rewrite IH. reflexivity.
    + change (join [c] ((x :: piece) :: piece' :: pieces))
        with (x :: (piece ++ [c] ++ join [c] (piece' :: pieces))).
      change (piece ++ [c] ++ join [c] (piece' :: pieces) = s) in IH.
      rewrite IH. reflexivity.
Qed.

(** No piece holds the separator. *)
Lemma split_pieces_free c s : Forall (fun piece => ~ In c piece) (split [c] None s).
Proof.
  induction s as [|x s IH]; [constructor; [intros [] | constructor]|].
  rewrite split_single_cons.
  destruct (decide (x = c)) as [->|Hne]; [constructor; [intros [] | exact IH]|].
  destruct (split [c] None s) as [|piece pieces]; [constructor; [|constructor]|].
  - intros [Hx|[]]. congruence.
  - inversion IH as [|? ? Hp Hps]; subst. constructor; [|exact Hps].
    intros [Hx|Hin]; [congruence | exact (Hp Hin)].
Qed.

Lemma split_free c s : ~ In c s -> split [c] None s = [s].
Proof.
  induction s as [|x s IH]; intros Hfree; [reflexivity|].
  rewrite split_single_cons, decide_False by (intros ->; apply Hfree; left; reflexivity).
  rewrite IH by (intros Hin; apply Hfree; right; exact Hin). reflexivity.
Qed.

Lemma split_app c piece s :
  ~ In c piece -> split [c] None (piece ++ c :: s) = piece :: split [c] None s.
Proof.
  induction piece as [|x piece IH]; intros Hfree; cbn [app].
  - rewrite split_single_cons, decide_True by reflexivity. reflexivity.
  - rewrite split_single_cons, decide_False by (intros ->; apply Hfree; left; reflexivity).
    rewrite IH by (intros Hin; apply Hfree; right; exact Hin). reflexivity.
Qed.

(** A string splits in two exactly when it holds the separator once. *)
Lemma split_pair c s a b :
  split [c] None s = [a; b] <-> s = a ++ c :: b /\ ~ In c a /\ ~ In c b.
Proof.
  split.
  - intros Hs. pose proof (join_split c s) as Hjoin.
    pose proof (split_pieces_free c s) as Hfree. rewrite Hs in Hjoin, Hfree.
    apply List.Forall_cons_iff in Hfree as [Ha Hfree].
    apply List.Forall_cons_iff in Hfree as [Hb _].
    split; [symmetry; exact Hjoin | split; assumption].
  - intros (-> & Ha & Hb). rewrite split_app by exact Ha.
    rewrite split_free by exact Hb. reflexivity.
Qed.
End SplitJoin.

(** X13. A CONNECT target is accepted exactly when it is a host, one colon
    and a port that [int] reads, with no other colon: the host is lower-cased
    and the port is the number read.  Every other target, such as a host
    alone or an IPv6 literal with a port, raises [ValueError]. *)
Theorem connect_target_has_one_colon (target : str) :
  (forall host port,
     connect_destination target = Ok (host, port) <->
     exists h p,
       target = h ++ lit ":" ++ p /\ ~ In 58 h /\ ~ In 58 p /\
       host = lower h /\ py_int p = Some port) /\
  (forall e, connect_destination target = Raise e -> e = ValueError).
Proof.
  split.
  - intros host port. unfold connect_destination. change (lit ":") with [58]. split.
    + destruct (unpack2 (split [58] None target)) as [[h p]|e] eqn:Hsplit;
        cbn [rbind]; [|discriminate].
      apply unpack2_ok in Hsplit. apply split_pair in Hsplit as (-> & Hh & Hp).
      destruct (py_int p) as [n|] eqn:Hint; cbn [or_raise rbind]; [|discriminate].
      intros Heq. injection Heq as <- <-. exists h, p. repeat split; assumption.
    + intros (h & p & -> & Hh & Hp & -> & Hint).
      rewrite (proj2 (split_pair 58 (h ++ [58] ++ p) h p)) by (repeat split; assumption).
      cbn [unpack2 rbind]. rewrite Hint. reflexivity.
  - intros e Heq.
    destruct (split (lit ":") None target) as [|h [|p [|x l]]] eqn:Hs;
      unfold connect_destination in Heq; rewrite Hs in Heq; cbn [unpack2 rbind] in Heq;
      try (injection Heq as <-; reflexivity).
    destruct (py_int p); cbn [or_raise rbind] in Heq; [discriminate Heq|].
    injection Heq as <-. reflexivity.
Qed.

Example connect_target_ex :
  connect_destination (lit "[::1]:443") = Raise ValueError /\
  connect_destination (lit "example.com") = Raise ValueError /\
  connect_destination (lit "Example.com: 8_0 ") = Ok (lit "example.com", 80%Z).
Proof. vm_compute. repeat split; reflexivity. Qed.

(** ** Trimming and case *)

Lemma dropwhile_length {A : Type} (p : A -> bool) (s : list A) :
  (length (dropwhile p s) <= length s)%nat.
Proof.
  induction s as [|x s IH]; [reflexivity|]. cbn [dropwhile].
  destruct (p x); cbn [length]; lia.
Qed.

Lemma dropwhile_idem {A : Type} (p : A -> bool) (s : list A) :
  dropwhile p (dropwhile p s) = dropwhile p s.
Proof.
  induction s as [|x s IH]; [reflexivity|]. cbn [dropwhile].
  destruct (p x) eqn:Hx; [exact IH|]. cbn [dropwhile]. rewrite Hx. reflexivity.
Qed.

(** Trimming the end of a string leaves its beginning as it is. *)
Lemma dropwhile_rev_keeps {A : Type} (p : A -> bool) (t : list A) :
  dropwhile p t = t ->
  dropwhile p (rev (dropwhile p (rev t))) = rev (dropwhile p (rev t)).
Proof.
  induction t as [|z t IH] using rev_ind; intros Ht; [reflexivity|].
  rewrite rev_app_distr. cbn [rev app dropwhile].
  destruct (p z) eqn:Hz.
  - apply IH. destruct t as [|y t]; cbn [app dropwhile] in Ht.
    + rewrite Hz in Ht. discriminate Ht.
    + cbn [dropwhile]. destruct (p y); [|reflexivity].
      pose proof (dropwhile_length p (t ++ [z])) as Hlen.
      rewrite Ht in Hlen. cbn [length] in Hlen. rewrite !length_app in Hlen.
      cbn [length] in Hlen. lia.
  - cbn [rev]. rewrite rev_involutive. exact Ht.
Qed.

Lemma stripped_strip (s : str) : stripped (strip s).
Proof.
  unfold stripped, strip. split.
  - apply dropwhile_rev_keeps. apply dropwhile_idem.
  - rewrite rev_involutive. apply dropwhile_idem.
Qed.

Lemma strip_stripped (s : str) : stripped s -> strip s = s.
Proof.
  intros [Hl Hr]. unfold strip. rewrite Hl, Hr. apply rev_involutive.
Qed.

Lemma strip_idem (s : str) : strip (strip s) = strip s.
Proof. apply strip_stripped, stripped_strip. Qed.

Lemma lower_char_cases (c : N) :
  lower_char c = c \/ (65 <= c <= 90 /\ lower_char c = c + 32).
Proof.
  unfold lower_char. destruct ((65 <=? c) && (c <=? 90)) eqn:Hup; [|left; reflexivity].
  apply andb_true_iff in Hup as [H1 H2]. apply N.leb_le in H1. apply N.leb_le in H2.
  right. split; [lia | reflexivity].
Qed.

Ltac decide_comparisons :=
  repeat match goal with
         | |- context [?a <=? ?b] =>
             first [rewrite (proj2 (N.leb_le a b)) by lia
                   | rewrite (proj2 (N.leb_gt a b)) by lia]
         | |- context [?a =? ?b] => rewrite (proj2 (N.eqb_neq a b)) by lia
         end.

Lemma isspace_letter (c : N) : 65 <= c <= 122 -> isspace c = false.
Proof. intros Hc. unfold isspace. decide_comparisons. reflexivity. Qed.

Lemma isspace_lower_char (c : N) : isspace (lower_char c) = isspace c.
Proof.
  destruct (lower_char_cases c) as [->|[Hc ->]]; [reflexivity|].
  rewrite !isspace_letter by lia. reflexivity.
Qed.

Lemma dropwhile_map {A : Type} (p : A -> bool) (f : A -> A) (s : list A) :
  (forall c, p (f c) = p c) -> dropwhile p (map f s) = map f (dropwhile p s).
Proof.
  intros Hp. induction s as [|x s IH]; [reflexivity|].
  cbn [map dropwhile]. rewrite Hp. destruct (p x); [exact IH | reflexivity].
Qed.

(** Trimming and lower-casing commute. *)
Lemma strip_lower (s : str) : strip (lower s) = lower (strip s).
Proof.
  unfold strip, lower.
  rewrite (dropwhile_map isspace lower_char s isspace_lower_char), <- map_rev.
  rewrite (dropwhile_map isspace lower_char _ isspace_lower_char), <- map_rev.
  reflexivity.
Qed.

Lemma lower_colon (s : str) : In 58 (lower s) -> In 58 s.
Proof.
  unfold lower. intros Hin. apply in_map_iff in Hin as (c & Hc & Hin).
  destruct (lower_char_cases c) as [Heq|[Hrange Heq]]; rewrite Heq in Hc.
  - subst c. exact Hin.
  - lia.
Qed.

Lemma before_free {A : Type} `{EqDecision A} (c : A) (s : list A) :
  ~ In c (before c s).
Proof.
  induction s as [|x s IH]; cbn [before]; [intros []|].
  destruct (decide (x = c)) as [->|Hne]; [intros []|].
  intros [Hx|Hin]; [congruence | exact (IH Hin)].
Qed.

Lemma dict_set_In (k v : str) (d : dict) (kv : str * str) :
  In kv (dict_set k v d) -> kv = (k, v) \/ In kv d.
Proof.
  induction d as [|[k' v'] d IH]; cbn [dict_set].
  - intros [<-|[]]. left. reflexivity.
  - destruct (decide (k' = k)) as [->|Hne].
    + intros [<-|Hin]; [left; reflexivity | right; right; exact Hin].
    + intros [<-|Hin]; [right; left; reflexivity|].
      destruct (IH Hin) as [->|Hin']; [left; reflexivity | right; right; exact Hin'].
Qed.

Lemma dict_of_In (pairs : list (str * str)) (kv : str * str) :
  In kv (dict_of pairs) -> In kv pairs.
Proof.
  induction pairs as [|p pairs IH] using rev_ind; [intros []|].
  rewrite dict_of_snoc. intros Hin. apply in_or_app.
  destruct (dict_set_In _ _ _ _ Hin) as [->|Hin'].
  - right. left. destruct p; reflexivity.
  - left. exact (IH Hin').
Qed.

(** X14. Whatever bytes it is given, [parse_headers] returns a dictionary
    in normal form: every key is in lower case and holds no colon, and every
    value has no white space at either end. *)
Theorem parsed_headers_normal (header_bytes : bytes) :
  exists request_line headers,
    parse_headers header_bytes = Ok (request_line, headers) /\
    Forall (fun kv => lower (fst kv) = fst kv /\ ~ In 58 (fst kv) /\
                      stripped (snd kv) /\ strip (snd kv) = snd kv) headers.
Proof.
  eexists _, _. split; [apply parse_headers_spec|].
  apply List.Forall_forall. intros kv Hin. apply dict_of_In in Hin.
  unfold header_pairs in Hin. apply in_map_iff in Hin as (line & <- & _).
  unfold header_pair. cbn [fst snd]. split; [apply lower_idem|].
  split; [intros Hc; apply lower_colon in Hc; exact (before_free _ _ Hc)|].
  split; [apply stripped_strip | apply strip_idem].
Qed.

(** ** The blocklist file *)

Lemma load_blocked_domains_spec (file : option (list str)) (host : str) :
  host ∈ load_blocked_domains file <->
  exists lines line,
    file = Some lines /\ In line lines /\ strip line <> [] /\
    host = lower (strip line).
Proof.
  destruct file as [lines|]; cbn [load_blocked_domains].
  - rewrite elem_of_list_to_set, list_elem_of_In, in_map_iff. split.
    + intros (line & <- & Hin). apply filter_In in Hin as [Hin Hne].
      exists lines, line. repeat split; try assumption.
      intros Hnil. rewrite Hnil in Hne. discriminate Hne.
    + intros (lines' & line & Heq & Hin & Hne & ->). injection Heq as <-.
      exists line. split; [reflexivity|]. apply filter_In. split; [exact Hin|].
      destruct (strip line); [congruence | reflexivity].
  - split; [intros Hin; destruct (not_elem_of_empty (C := gset str) _ Hin)|].
    intros (lines & line & Heq & _). discriminate Heq.
Qed.

(** X15. The set [load_blocked_domains] returns holds the lines of the file
    that are not blank, trimmed and in lower case, and nothing else; so every
    entry is non-empty, in lower case and without white space at its ends.
    Without a file the set is empty. *)
Theorem blocklist_entries_normalised (file : option (list str)) (host : str) :
  (host ∈ load_blocked_domains file <->
   exists lines line,
     file = Some lines /\ In line lines /\ strip line <> [] /\
     host = lower (strip line)) /\
  (host ∈ load_blocked_domains file ->
   host <> [] /\ lower host = host /\ stripped host).
Proof.
  split; [apply load_blocked_domains_spec|].
  intros Hin. apply load_blocked_domains_spec in Hin
    as (lines & line & -> & Hin & Hne & ->).
  split; [|split; [apply lower_idem|]].
  - unfold lower. destruct (strip line); [congruence | discriminate].
  - rewrite <- strip_lower. apply stripped_strip.
Qed.

Example blocklist_entries_ex :
  (lit "example.com" ∈
     load_blocked_domains (Some [lit "  Example.COM " ++ [10]; [10]; lit "b.org" ++ [10]])) /\
  ([] ∉ load_blocked_domains (Some [lit "  Example.COM " ++ [10]; [10]; lit "b.org" ++ [10]])) /\
  load_blocked_domains None = ∅.
Proof.
  split; [|split; [|reflexivity]].
  - apply load_blocked_domains_spec. eexists _, _. split; [reflexivity|].
    split; [left; reflexivity|]. split; [vm_compute; discriminate | vm_compute; reflexivity].
  - intros Hin. apply load_blocked_domains_spec in Hin as (lines & line & _ & _ & Hne & Heq).
    apply Hne. destruct (strip line); [reflexivity | discriminate Heq].
Qed.

(** X16. The blocklist file decides what [handle_client] does with a request
    that names a destination.  When some line of the file, trimmed and in
    lower case, is the host, and the host is not empty, the handler answers
    403 and connects nowhere, however the line is capitalised or padded.
    When no line is, or the host is empty, the handler makes one connection
    attempt, to the destination. *)
Theorem blocklist_file_decides (BUFFER_SIZE : Z) (file : option (list str))
    (env env1 : Env) (data : bytes) (evs1 : list Event) (request_line : str)
    (headers : dict) (method target version host : str) (port : Z) :
  recv_until BUFFER_SIZE Client (bcrlf ++ bcrlf) env = Done (Ok data) env1 evs1 ->
  parse_headers data = Ok (request_line, headers) ->
  split_ws request_line = [method; target; version] ->
  destination method target headers = Ok (host, port) ->
  exists env2 evs,
    handle_client BUFFER_SIZE (load_blocked_domains file) env = Done (Ok tt) env2 evs /\
    (host <> [] ->
     (exists line, In line (lines_of file) /\ lower (strip line) = host) ->
     connects evs = [] /\ sent_to Client evs = [resp_403] /\ sent_to Server evs = []) /\
    (host = [] \/ (forall line, In line (lines_of file) -> lower (strip line) <> host) ->
     connects evs = [(host, port)]).
Proof.
  intros Hread Hparse Hparts Hdest.
  pose proof (read_headers_reads _ _ _ _ _ Hread) as Hreads.
  destruct (reads_silent _ _ Hreads) as (Hsent & Hconn & _).
  destruct (finishes_dispatch BUFFER_SIZE (load_blocked_domains file) data env1)
    as (r & env2 & evs2 & Hdisp).
  exists env2. eexists. split.
  { exact (handle_client_dispatch _ _ _ _ _ _ _ _ _ Hread Hdisp). }
  change (ESetTimeout Client :: evs1 ++ evs2 ++ map ELog (error_entries r)
          ++ [EClose Client])
    with ([ESetTimeout Client] ++ evs1 ++ evs2 ++ map ELog (error_entries r)
          ++ [EClose Client]).
  rewrite !connects_app, !sent_to_app, !Hsent, Hconn, !connects_log, !sent_to_log.
  cbn [connects sent_to flat_map app]. rewrite !app_nil_r. split.
  - intros Hhost (line & Hline & Heq).
    assert (host ∈ load_blocked_domains file) as Hin.
    { apply load_blocked_domains_spec. destruct file as [lines|]; [|destruct Hline].
      exists lines, line. split; [reflexivity|]. split; [exact Hline|].
      split; [|symmetry; exact Heq].
      intros Hnil. rewrite Hnil in Heq. apply Hhost. symmetry. exact Heq. }
    rewrite (dispatch_blocked _ _ _ _ _ _ _ _ _ _ _ Hparse Hparts Hdest Hin) in Hdisp.
    destruct (reject_run host env1) as (r' & env2' & entries & Hrej & _).
    rewrite Hrej in Hdisp. injection Hdisp as _ _ <-.
    change (ESend Client resp_403 :: map ELog entries)
      with ([ESend Client resp_403] ++ map ELog entries).
    rewrite connects_app, !sent_to_app, connects_log, !sent_to_log.
    repeat split.
  - intros Hfree.
    assert (host ∉ load_blocked_domains file) as Hout.
    { intros Hin. apply load_blocked_domains_spec in Hin
        as (lines & line & -> & Hline & Hne & ->).
      destruct Hfree as [Hnil|Hfree]; [|exact (Hfree line Hline eq_refl)].
      apply Hne. destruct (strip line); [reflexivity | discriminate Hnil]. }
    rewrite (dispatch_allowed _ _ _ _ _ _ _ _ _ _ _ Hparse Hparts Hdest Hout) in Hdisp.
    destruct (bool_decide (upper method = lit "CONNECT")).
    + apply tunnel_established_connects in Hdisp as (post & -> & Hpost).
      cbn [connects flat_map app]. fold (connects post).
      rewrite (no_connect_connects _ Hpost). reflexivity.
    + apply forward_request_connects in Hdisp as (post & -> & Hpost).
      cbn [connects flat_map app]. fold (connects post).
      rewrite (no_connect_connects _ Hpost). reflexivity.
Qed.

Lemma blocklist_file_decides_witness :
  exists env2 evs,
    handle_client 4096
      (load_blocked_domains (Some [lit "  Example.COM " ++ [10]; [10]]))
      (client_sends [header_block ["CONNECT EXAMPLE.com:443 HTTP/1.1"]%string])
    = Done (Ok tt) env2 evs /\
    connects evs = [] /\ sent_to Client evs = [resp_403] /\ sent_to Server evs = [].
Proof.
  edestruct (blocklist_file_decides 4096 (Some [lit "  Example.COM " ++ [10]; [10]])
               (client_sends [header_block ["CONNECT EXAMPLE.com:443 HTTP/1.1"]%string]))
    as (env2 & evs & Hrun & Hblocked & _).
  - vm_compute. reflexivity.
  - vm_compute. reflexivity.
  - vm_compute. reflexivity.
  - vm_compute. reflexivity.
  - exists env2, evs. split; [exact Hrun|]. apply Hblocked.
    + discriminate.
    + eexists. split; [left; reflexivity | vm_compute; reflexivity].
Defined.

(** ** The configuration file *)

Lemma dropwhile_In {A : Type} (p : A -> bool) (c : A) (s : list A) :
  p c = false -> In c s -> In c (dropwhile p s).
Proof.
  intros Hc. induction s as [|x s IH]; [intros []|].
  cbn [dropwhile]. destruct (p x) eqn:Hx; [|intros Hin; exact Hin].
  intros [->|Hin]; [congruence | exact (IH Hin)].
Qed.

Lemma strip_In (c : N) (s : str) : isspace c = false -> In c s -> In c (strip s).
Proof.
  intros Hc Hin. unfold strip. apply -> in_rev.
  apply dropwhile_In; [exact Hc|]. apply -> in_rev. apply dropwhile_In; assumption.
Qed.

(** One line of the file: an assignment when it holds an equals sign, which
    cuts the trimmed line in two at its first one. *)
Lemma load_config_line_spec (config : gmap str Value) (line : str) :
  load_config_line config line =
  if contains [61] line
  then rbind (config_value (default [] (after_nth 61 1 (strip line)))) (fun value =>
       Ok (<[before 61 (strip line) := value]> config))
  else Ok config.
Proof.
  unfold load_config_line. change (lit "=") with [61].
  destruct (contains [61] line) eqn:Hc; [|reflexivity].
  apply contains_single in Hc. rewrite split_once_spec; [reflexivity|].
  apply strip_In; [reflexivity | exact Hc].
Qed.

Lemma load_config_lines_lookup (lines : list str) (config config' : gmap str Value)
    (k : str) :
  load_config_lines config lines = Ok config' ->
  match last_assignment k lines with
  | Some v => exists value, config_value v = Ok value /\ config' !! k = Some value
  | None => config' !! k = config !! k
  end.
Proof.
  revert config. induction lines as [|line lines IH]; intros config Hload.
  - injection Hload as <-. reflexivity.
  - cbn [load_config_lines] in Hload.
    destruct (load_config_line config line) as [config1|e] eqn:Hline;
      cbn [rbind] in Hload; [|discriminate Hload].
    specialize (IH _ Hload). cbn [last_assignment].
    destruct (last_assignment k lines) as [v|]; [exact IH|]. rewrite IH.
    rewrite load_config_line_spec in Hline.
    destruct (contains [61] line); cbn [andb].
    + destruct (config_value _) as [value|e] eqn:Hvalue; cbn [rbind] in Hline;
        [|discriminate Hline].
      injection Hline as <-. destruct (bool_decide_reflect (before 61 (strip line) = k))
        as [<-|Hne].
      * exists value. split; [exact Hvalue | apply lookup_insert_eq].
      * apply lookup_insert_ne. exact Hne.
    + injection Hline as <-. reflexivity.
Qed.

(** X17. After [load_config] each key holds what the last line that assigns
    it gives, and the keys no line assigns hold what they held before; a file
    that does not exist changes nothing.  A line assigns when it holds an
    equals sign: the key is the trimmed line up to its first equals sign and
    the value is the rest, neither trimmed again. *)
Theorem config_last_assignment_wins (file : option (list str))
    (config config' : gmap str Value) (k : str) :
  load_config file config = Ok config' ->
  match last_assignment k (lines_of file) with
  | Some v => exists value, config_value v = Ok value /\ config' !! k = Some value
  | None => config' !! k = config !! k
  end.
Proof.
  destruct file as [lines|]; cbn [load_config].
  - apply load_config_lines_lookup.
  - intros Heq. injection Heq as <-. reflexivity.
Qed.

Lemma isspace_digit (c : N) : 48 <= c <= 57 -> isspace c = false.
Proof. intros Hc. unfold isspace. decide_comparisons. reflexivity. Qed.

Lemma dropwhile_none {A : Type} (p : A -> bool) (s : list A) :
  Forall (fun c => p c = false) s -> dropwhile p s = s.
Proof. intros [|c s' Hc _]; [reflexivity|]. cbn [dropwhile]. rewrite Hc. reflexivity. Qed.

Lemma strip_no_space (s : str) : Forall (fun c => isspace c = false) s -> strip s = s.
Proof.
  intros Hs. apply strip_stripped. split; apply dropwhile_none; [exact Hs|].
  apply List.Forall_rev. exact Hs.
Qed.

Lemma digits_from_digits (s : str) (acc : Z) (after_digit : bool) :
  Forall (fun c => 48 <= c <= 57) s -> s <> [] ->
  digits_from acc after_digit s
  = Some (fold_left (fun acc c => (10 * acc + Z.of_N (c - 48))%Z) s acc).
Proof.
  revert acc after_digit. induction s as [|c s IH]; intros acc b Hs Hne; [congruence|].
  apply List.Forall_cons_iff in Hs as [Hc Hs]. cbn [digits_from fold_left].
  rewrite (proj2 (N.eqb_neq c 95)) by lia. unfold digit_val.
  rewrite (proj2 (N.leb_le 48 c)), (proj2 (N.leb_le c 57)) by lia. cbn [andb].
  destruct s as [|c' s']; [reflexivity|]. apply IH; [exact Hs | discriminate].
Qed.

Lemma isdigit_spec (v : str) :
  isdigit v = true <-> v <> [] /\ Forall (fun c => 48 <= c <= 57) v.
Proof.
  unfold isdigit. rewrite andb_true_iff, forallb_forall, List.Forall_forall.
  split; intros [Hne Hall]; split.
  - destruct v; [discriminate Hne | discriminate].
  - intros c Hin. specialize (Hall c Hin). apply andb_true_iff in Hall as [H1 H2].
    apply N.leb_le in H1. apply N.leb_le in H2. lia.
  - destruct v; [congruence | reflexivity].
  - intros c Hin. specialize (Hall c Hin). apply andb_true_iff.
    split; apply N.leb_le; lia.
Qed.

Lemma decimal_nonneg (s : str) (acc : Z) :
  (0 <= acc)%Z ->
  (0 <= fold_left (fun acc c => (10 * acc + Z.of_N (c - 48))%Z) s acc)%Z.
Proof.
  revert acc. induction s as [|c s IH]; intros acc Hacc; [exact Hacc|].
  cbn [fold_left]. apply IH. lia.
Qed.

(** [int] reads a string of digits as the number it denotes. *)
Lemma py_int_digits (v : str) : isdigit v = true -> py_int v = Some (decimal v).
Proof.
  intros Hv. apply isdigit_spec in Hv as [Hne Hall]. unfold py_int.
  rewrite strip_no_space
    by (eapply List.Forall_impl; [|exact Hall]; intros c Hc; apply isspace_digit; exact Hc).
  destruct v as [|c t]; [congruence|].
  pose proof (List.Forall_inv Hall) as Hc. cbn beta in Hc.
  rewrite (proj2 (N.eqb_neq c 45)), (proj2 (N.eqb_neq c 43)) by lia.
  apply digits_from_digits; [exact Hall | discriminate].
Qed.

(** The value stored for the text [v]: the number it denotes when [v] is a
    string of digits, and [v] itself otherwise. *)
Lemma config_value_spec (v : str) (value : Value) :
  config_value v = Ok value ->
  value = if isdigit v then VInt (decimal v) else VStr v.
Proof.
  unfold config_value. destruct (isdigit v) eqn:Hv.
  - rewrite (py_int_digits _ Hv). intros Heq. injection Heq as <-. reflexivity.
  - intros Heq. injection Heq as <-. reflexivity.
Qed.

(** X18. When [load_config] returns, the text after the equals sign of the
    last line that assigns a key is stored as the number it denotes, which is
    not negative, when it is a non-empty string of ASCII digits (leading
    zeros allowed), and as it is, as a string, when it is empty or holds an
    ASCII character that is not a digit, such as a sign, a space, an
    underscore or a letter. *)
Theorem config_numbers_are_digit_strings (file : option (list str))
    (config config' : gmap str Value) (k v : str) :
  load_config file config = Ok config' ->
  last_assignment k (lines_of file) = Some v ->
  (v <> [] /\ Forall (fun c => 48 <= c <= 57) v ->
   config' !! k = Some (VInt (decimal v)) /\ (0 <= decimal v)%Z) /\
  (v = [] \/ Exists (fun c => c < 128 /\ ~ 48 <= c <= 57) v ->
   config' !! k = Some (VStr v)).
Proof.
  intros Hload Hlast.
  assert (config' !! k = Some (if isdigit v then VInt (decimal v) else VStr v)) as Hk.
  { destruct file as [lines|]; [|discriminate Hlast].
    change (last_assignment k lines = Some v) in Hlast. cbn [load_config] in Hload.
    pose proof (load_config_lines_lookup _ _ _ k Hload) as Hk. rewrite Hlast in Hk.
    destruct Hk as (value & Hvalue & ->). rewrite (config_value_spec _ _ Hvalue).
    reflexivity. }
  split.
  - intros Hdigits. apply isdigit_spec in Hdigits. rewrite Hdigits in Hk.
    split; [exact Hk | apply decimal_nonneg; lia].
  - intros Hother. destruct (isdigit v) eqn:Hv; [|exact Hk].
    apply isdigit_spec in Hv as [Hne Hall]. destruct Hother as [->|Hex]; [congruence|].
    apply List.Exists_exists in Hex as (c & Hin & _ & Hc).
    destruct Hc. exact (proj1 (List.Forall_forall _ _) Hall c Hin).
Qed.

(** A file that sets the buffer size twice, the second time to a text with a
    sign, and the host with blanks around the equals sign. *)
Lemma config_last_assignment_wins_witness :
  exists config',
    load_config (Some [lit "BUFFER_SIZE=8192" ++ [10]; lit "# local" ++ [10];
                       lit "LISTEN_HOST = 0.0.0.0" ++ [10];
                       lit "BUFFER_SIZE=-1" ++ [10]]) CONFIG = Ok config' /\
    (exists value, config_value (lit "-1") = Ok value /\
                   config' !! lit "BUFFER_SIZE" = Some value) /\
    config' !! lit "LISTEN_HOST" = CONFIG !! lit "LISTEN_HOST".
Proof.
  eexists. split; [vm_compute; reflexivity|]. split.
  - refine (config_last_assignment_wins
              (Some [lit "BUFFER_SIZE=8192" ++ [10]; lit "# local" ++ [10];
                     lit "LISTEN_HOST = 0.0.0.0" ++ [10];
                     lit "BUFFER_SIZE=-1" ++ [10]]) CONFIG _ (lit "BUFFER_SIZE") _).
    vm_compute. reflexivity.
  - vm_compute. reflexivity.
Defined.

Lemma config_numbers_are_digit_strings_witness :
  exists config',
    load_config (Some [lit "LISTEN_PORT=0080" ++ [10]; lit "SOCKET_TIMEOUT=1_0" ++ [10]])
      CONFIG = Ok config' /\
    config' !! lit "LISTEN_PORT" = Some (VInt 80) /\
    config' !! lit "SOCKET_TIMEOUT" = Some (VStr (lit "1_0")).
Proof.
  eexists. split; [vm_compute; reflexivity|]. split.
  - refine (proj1 (proj1 (config_numbers_are_digit_strings
             (Some [lit "LISTEN_PORT=0080" ++ [10]; lit "SOCKET_TIMEOUT=1_0" ++ [10]])
             CONFIG _ (lit "LISTEN_PORT") (lit "0080") _ _) _)).
    + vm_compute. reflexivity.
    + vm_compute. reflexivity.
    + split; [discriminate|]. repeat constructor; vm_compute; discriminate.
  - refine (proj2 (config_numbers_are_digit_strings
             (Some [lit "LISTEN_PORT=0080" ++ [10]; lit "SOCKET_TIMEOUT=1_0" ++ [10]])
             CONFIG _ (lit "SOCKET_TIMEOUT") (lit "1_0") _ _) _).
    + vm_compute. reflexivity.
    + vm_compute. reflexivity.
    + right. change (lit "1_0") with [49; 95; 48].
      apply List.Exists_cons_tl. apply List.Exists_cons_hd. split; lia.
Defined.

(** ** UTF-8 *)

From Stdlib Require Import ZifyBool.

Lemma to_N_byte_of (n : N) : n < 256 -> Byte.to_N (byte_of n) = n.
Proof.
  intros Hn. unfold byte_of. destruct (Byte.of_N n) as [b|] eqn:Hb.
  - apply Byte.to_of_N. exact Hb.
  - apply Byte.of_N_None_iff in Hb. lia.
Qed.

Lemma land_ones_add (n q r : N) : r < 2 ^ n -> N.land (q * 2 ^ n + r) (N.ones n) = r.
Proof.
  intros Hr. rewrite N.land_ones, N.add_comm, N.Div0.mod_add. apply N.mod_small, Hr.
Qed.

(** The payload of a continuation byte and of the three kinds of lead byte. *)
Lemma low6_cont (r : N) : r < 64 -> low6 (128 + r) = r.
Proof. intros Hr. exact (land_ones_add 6 2 r Hr). Qed.

Lemma land_lead2 (q : N) : q < 32 -> N.land (192 + q) 31 = q.
Proof. intros Hq. exact (land_ones_add 5 6 q Hq). Qed.

Lemma land_lead3 (q : N) : q < 16 -> N.land (224 + q) 15 = q.
Proof. intros Hq. exact (land_ones_add 4 14 q Hq). Qed.

Lemma land_lead4 (q : N) : q < 8 -> N.land (240 + q) 7 = q.
Proof. intros Hq. exact (land_ones_add 3 30 q Hq). Qed.

(** A number as its low six bits and the rest. *)
Lemma split6 (c : N) :
  exists q r, c = 64 * q + r /\ r < 64 /\ N.shiftr c 6 = q /\ low6 c = r.
Proof.
  exists (c / 64), (c mod 64). split; [apply (N.div_mod' c 64)|].
  split; [apply N.mod_lt; discriminate|].
  split; [apply N.shiftr_div_pow2|].
  unfold low6. change 63 with (N.ones 6). apply N.land_ones.
Qed.

(** Takes the branch of the outermost test that the hypotheses leave open. *)
Ltac take_branch :=
  match goal with
  | |- (if ?b then _ else _) = _ =>
      let H := fresh "Htest" in
      destruct b eqn:H; try solve [exfalso; lia]; clear H
  end.

Lemma decode_encode_char (c : N) (rest : list N) :
  scalar c ->
  decode_from (map Byte.to_N (encode_char c) ++ rest) = c :: decode_from rest.
Proof.
  intros Hc. unfold scalar in Hc. unfold encode_char.
  change (N.shiftr c 18) with (N.shiftr c (6 + 6 + 6)).
  change (N.shiftr c 12) with (N.shiftr c (6 + 6)).
  rewrite <- !N.shiftr_shiftr.
  destruct (split6 c) as (q1 & r1 & Hc1 & Hr1 & -> & ->).
  destruct (split6 q1) as (q2 & r2 & Hc2 & Hr2 & -> & ->).
  destruct (split6 q2) as (q3 & r3 & Hc3 & Hr3 & -> & ->).
  destruct (N.ltb_spec c 128) as [H1|H1].
  { cbn [map app]. rewrite to_N_byte_of by lia. cbn [decode_from].
    take_branch. reflexivity. }
  destruct (N.ltb_spec c 2048) as [H2|H2].
  { cbn [map app]. rewrite !to_N_byte_of by lia. cbn [decode_from].
    unfold is_cont. repeat take_branch.
    rewrite land_lead2, low6_cont, N.shiftl_mul_pow2 by lia. f_equal. lia. }
  destruct (N.ltb_spec c 65536) as [H3|H3].
  { cbn [map app]. rewrite !to_N_byte_of by lia. cbn [decode_from].
    unfold second_ok, is_cont. repeat take_branch.
    rewrite land_lead3, !low6_cont, !N.shiftl_mul_pow2 by lia. f_equal. lia. }
  cbn [map app]. rewrite !to_N_byte_of by lia. cbn [decode_from].
  unfold second_ok, is_cont. repeat take_branch.
  rewrite land_lead4, !low6_cont, !N.shiftl_mul_pow2 by lia. f_equal. lia.
Qed.

Lemma decode_encode (s : str) : Forall scalar s -> decode (encode s) = s.
Proof.
  unfold decode, encode. induction 1 as [|c s Hc _ IH]; [reflexivity|].
  cbn [flat_map]. rewrite map_app, decode_encode_char by exact Hc. rewrite IH. reflexivity.
Qed.

Lemma decode_from_scalar (n : nat) (bs : list N) :
  (length bs <= n)%nat -> Forall scalar (decode_from bs).
Proof.
  revert bs. induction n as [|n IH]; intros bs Hlen.
  { destruct bs; [constructor | cbn [length] in Hlen; lia]. }
  destruct bs as [|b0 t0]; [constructor|]. cbn [length] in Hlen. cbn [decode_from].
  assert (Forall scalar (decode_from t0)) as H0 by (apply IH; lia).
  destruct (b0 <? 128) eqn:T0.
  { constructor; [unfold scalar; lia | exact H0]. }
  destruct ((194 <=? b0) && (b0 <=? 223)) eqn:T1.
  { destruct t0 as [|b1 t1]; [constructor|]. unfold is_cont.
    destruct ((128 <=? b1) && (b1 <=? 191)) eqn:C1; [|exact H0].
    cbn [length] in Hlen. constructor; [|apply IH; lia].
    replace b0 with (192 + (b0 - 192)) by lia. replace b1 with (128 + (b1 - 128)) by lia.
    rewrite land_lead2, low6_cont, N.shiftl_mul_pow2 by lia. unfold scalar. lia. }
  destruct ((224 <=? b0) && (b0 <=? 239)) eqn:T2.
  { destruct t0 as [|b1 t1]; [constructor|]. unfold second_ok, is_cont.
    destruct (_ && _ && _ && _ && _) eqn:C1; [|exact H0].
    cbn [length] in Hlen.
    destruct t1 as [|b2 t2]; [constructor|].
    destruct ((128 <=? b2) && (b2 <=? 191)) eqn:C2; [|apply IH; cbn [length] in Hlen |- *; lia].
    cbn [length] in Hlen. constructor; [|apply IH; lia].
    replace b0 with (224 + (b0 - 224)) by lia. replace b1 with (128 + (b1 - 128)) by lia.
    replace b2 with (128 + (b2 - 128)) by lia.
    rewrite land_lead3, !low6_cont, !N.shiftl_mul_pow2 by lia. unfold scalar. lia. }
  destruct ((240 <=? b0) && (b0 <=? 244)) eqn:T3; [|exact H0].
  destruct t0 as [|b1 t1]; [constructor|]. unfold second_ok, is_cont.
  destruct (_ && _ && _ && _ && _) eqn:C1; [|exact H0].
  cbn [length] in Hlen.
  destruct t1 as [|b2 t2]; [constructor|].
  destruct ((128 <=? b2) && (b2 <=? 191)) eqn:C2; [|apply IH; cbn [length] in Hlen |- *; lia].
  cbn [length] in Hlen.
  destruct t2 as [|b3 t3]; [constructor|].
  destruct ((128 <=? b3) && (b3 <=? 191)) eqn:C3; [|apply IH; cbn [length] in Hlen |- *; lia].
  cbn [length] in Hlen. constructor; [|apply IH; lia].
  replace b0 with (240 + (b0 - 240)) by lia. replace b1 with (128 + (b1 - 128)) by lia.
  replace b2 with (128 + (b2 - 128)) by lia. replace b3 with (128 + (b3 - 128)) by lia.
  rewrite land_lead4, !low6_cont, !N.shiftl_mul_pow2 by lia. unfold scalar. lia.
Qed.

Lemma decode_scalar (bs : bytes) : Forall scalar (decode bs).
Proof. unfold decode. eapply decode_from_scalar. reflexivity. Qed.

(** ** Parts of a string *)

Lemma dropwhile_suffix {A : Type} (p : A -> bool) (s : list A) :
  exists a, s = a ++ dropwhile p s.
Proof.
  induction s as [|x s [a IH]]; [exists []; reflexivity|].
  cbn [dropwhile]. destruct (p x); [|exists []; reflexivity].
  exists (x :: a). cbn [app]. rewrite <- IH. reflexivity.
Qed.

Lemma strip_factor (s : str) : exists a b, s = a ++ strip s ++ b.
Proof.
  unfold strip. destruct (dropwhile_suffix isspace s) as [a Ha].
  destruct (dropwhile_suffix isspace (rev (dropwhile isspace s))) as [b Hb].
  exists a, (rev b). rewrite <- rev_app_distr, <- Hb, rev_involutive. exact Ha.
Qed.

Lemma before_prefix {A : Type} `{EqDecision A} (c : A) (s : list A) :
  exists b, s = before c s ++ b.
Proof.
  induction s as [|x s [b IH]]; [exists []; reflexivity|].
  cbn [before]. destruct (decide (x = c)); [exists (x :: s); reflexivity|].
  exists b. cbn [app]. rewrite <- IH. reflexivity.
Qed.

Lemma after_suffix {A : Type} `{EqDecision A} (c : A) (s : list A) :
  exists a, s = a ++ default [] (after_nth c 1 s) \/ default [] (after_nth c 1 s) = [].
Proof.
  induction s as [|x s [a IH]]; [exists []; right; reflexivity|].
  cbn [after_nth]. destruct (decide (x = c)).
  - exists [x]. left. destruct s; reflexivity.
  - destruct IH as [IH|IH]; [|exists []; right; exact IH].
    exists (x :: a). left. cbn [app]. rewrite <- IH. reflexivity.
Qed.

Lemma before_app {A : Type} `{EqDecision A} (c : A) (k r : list A) :
  ~ In c k -> before c (k ++ c :: r) = k.
Proof.
  induction k as [|x k IH]; intros Hk; cbn [app before].
  - rewrite decide_True by reflexivity. reflexivity.
  - rewrite decide_False by (intros ->; apply Hk; left; reflexivity).
    rewrite IH; [reflexivity|]. intros Hin. apply Hk. right. exact Hin.
Qed.

Lemma after_app {A : Type} `{EqDecision A} (c : A) (k r : list A) :
  ~ In c k -> after_nth c 1 (k ++ c :: r) = Some r.
Proof.
  induction k as [|x k IH]; intros Hk; cbn [app after_nth].
  - rewrite decide_True by reflexivity. destruct r; reflexivity.
  - rewrite decide_False by (intros ->; apply Hk; left; reflexivity).
    apply IH. intros Hin. apply Hk. right. exact Hin.
Qed.

Lemma no_crlf_nil : no_crlf [].
Proof. intros [|x a] b Heq; discriminate Heq. Qed.

Lemma no_crlf_factor (a v b : str) : no_crlf (a ++ v ++ b) -> no_crlf v.
Proof.
  intros Hs a' b' ->. apply (Hs (a ++ a') (b' ++ b)).
  rewrite <- !app_assoc. reflexivity.
Qed.

Lemma no_crlf_tail (c : N) (s : str) : no_crlf (c :: s) -> no_crlf s.
Proof. intros Hs. apply (no_crlf_factor [c] s []). rewrite app_nil_r. exact Hs. Qed.

Lemma lower_char_control (c x : N) : x < 65 -> lower_char c = x -> c = x.
Proof.
  intros Hx. destruct (lower_char_cases c) as [->|[Hc ->]]; [intros H; exact H | lia].
Qed.

Lemma no_crlf_lower (s : str) : no_crlf s -> no_crlf (lower s).
Proof.
  intros Hs a b Heq. unfold lower in Heq.
  apply map_eq_app in Heq as (a0 & t & -> & Ha & Ht).
  destruct t as [|x [|y b0]]; try discriminate Ht.
  cbn [map app] in Ht. injection Ht as Hx Hy Hb.
  apply lower_char_control in Hx; [|lia]. apply lower_char_control in Hy; [|lia].
  subst x y. exact (Hs a0 b0 eq_refl).
Qed.

Lemma no_crlf_join (u w : str) (x : N) :
  no_crlf u -> no_crlf w -> x <> 13 -> x <> 10 -> no_crlf (u ++ x :: w).
Proof.
  intros Hu Hw H13 H10 a b Heq. apply app_eq_app in Heq as [l [[-> Hl]|[-> Hl]]].
  - destruct l as [|y [|z l]]; cbn [app] in Hl.
    + injection Hl as <- _. congruence.
    + injection Hl as _ <- _. congruence.
    + injection Hl as <- <- _. exact (Hu a l eq_refl).
  - destruct l as [|y l]; cbn [app] in Hl.
    + injection Hl as -> _. congruence.
    + injection Hl as _ ->. exact (Hw l b eq_refl).
Qed.

(** ** Splitting at line ends *)

Lemma split_crlf_cons (c : N) (s : str) :
  split crlf None (c :: s) =
  if startswith crlf (c :: s) then [] :: split crlf None (tl s)
  else match split crlf None s with
       | piece :: pieces => (c :: piece) :: pieces
       | [] => [[c]]
       end.
Proof.
  unfold split, crlf. cbn [split_from may_split andb spend length Nat.pred].
  destruct (startswith [13; 10] (c :: s)) eqn:Hs; [|reflexivity].
  destruct s as [|y s]; [|reflexivity].
  cbn [startswith] in Hs. rewrite andb_false_r in Hs. discriminate Hs.
Qed.

Lemma startswith_crlf (s : str) :
  startswith crlf s = true <-> exists b, s = crlf ++ b.
Proof.
  unfold crlf. split.
  - destruct s as [|x [|y b]]; cbn [startswith]; rewrite ?andb_false_r; try discriminate.
    rewrite andb_true_r. intros Hs. apply andb_true_iff in Hs as [Hx Hy].
    apply bool_decide_eq_true in Hx. apply bool_decide_eq_true in Hy. subst x y.
    exists b. reflexivity.
  - intros [b ->]. reflexivity.
Qed.

(** The first piece is the text up to the first line end, and no piece holds
    a line end. *)
Lemma split_crlf_pieces (n : nat) (s : str) :
  (length s <= n)%nat ->
  exists piece pieces rest,
    split crlf None s = piece :: pieces /\ s = piece ++ rest /\
    no_crlf piece /\ Forall no_crlf pieces.
Proof.
  revert s. induction n as [|n IH]; intros s Hlen.
  { destruct s; [|cbn [length] in Hlen; lia].
    exists [], [], []. repeat split; [apply no_crlf_nil | constructor]. }
  destruct s as [|c s].
  { exists [], [], []. repeat split; [apply no_crlf_nil | constructor]. }
  cbn [length] in Hlen. rewrite split_crlf_cons.
  destruct (startswith crlf (c :: s)) eqn:Hs.
  - apply startswith_crlf in Hs as [b Hb]. injection Hb as -> ->. cbn [tl].
    cbn [length] in Hlen.
    destruct (IH b) as (piece & pieces & rest & -> & Hb & Hpiece & Hpieces); [lia|].
    exists [], (piece :: pieces), (crlf ++ b).
    repeat split; [apply no_crlf_nil | constructor; assumption].
  - destruct (IH s) as (piece & pieces & rest & -> & -> & Hpiece & Hpieces); [lia|].
    exists (c :: piece), pieces, rest. repeat split; [|exact Hpieces].
    intros [|x a] b Heq; cbn [app] in Heq.
    + injection Heq as -> ->.
      assert (startswith crlf (13 :: (10 :: b) ++ rest) = true) as Hyes
        by (apply startswith_crlf; exists (b ++ rest); reflexivity).
      rewrite Hyes in Hs. discriminate Hs.
    + injection Heq as _ ->. exact (Hpiece a b eq_refl).
Qed.

Lemma split_crlf_free (s : str) : Forall no_crlf (split crlf None s).
Proof.
  destruct (split_crlf_pieces (length s) s) as (piece & pieces & rest & -> & _ & H1 & H2);
    [reflexivity|]. constructor; assumption.
Qed.

Lemma split_crlf_app (piece rest : str) :
  no_crlf piece ->
  split crlf None (piece ++ crlf ++ rest) = piece :: split crlf None rest.
Proof.
  induction piece as [|c piece IH]; intros Hpiece.
  - change ([] ++ crlf ++ rest) with (13 :: 10 :: rest).
    rewrite split_crlf_cons. reflexivity.
  - cbn [app]. rewrite split_crlf_cons.
    destruct (startswith crlf (c :: piece ++ crlf ++ rest)) eqn:Hs.
    + exfalso. apply startswith_crlf in Hs as [b Hb]. injection Hb as -> Hb.
      destruct piece as [|y piece]; cbn [app] in Hb; [discriminate Hb|].
      injection Hb as -> _. exact (Hpiece [] piece eq_refl).
    + rewrite IH by exact (no_crlf_tail _ _ Hpiece). reflexivity.
Qed.

Lemma split_from_Forall {A : Type} `{EqDecision A} (P : A -> Prop)
    (sep : list A) (budget : option nat) (skip : nat) (s : list A) :
  Forall P s -> Forall (Forall P) (split_from sep budget skip s).
Proof.
  intros Hs. revert budget skip.
  induction Hs as [|c s Hc Hs IH]; intros budget skip; cbn [split_from].
  { repeat constructor. }
  destruct skip as [|k]; [|apply IH].
  destruct (may_split budget && startswith sep (c :: s)).
  - constructor; [constructor | apply IH].
  - specialize (IH budget O). destruct (split_from sep budget 0 s) as [|piece pieces].
    + repeat constructor. exact Hc.
    + apply List.Forall_cons_iff in IH as [Hpiece Hpieces].
      constructor; [constructor; assumption | exact Hpieces].
Qed.

(** ** Headers in normal form *)

Lemma scalar_lower (s : str) : Forall scalar s -> Forall scalar (lower s).
Proof.
  intros Hs. unfold lower. apply List.Forall_map.
  eapply List.Forall_impl; [|exact Hs]. intros c Hc. unfold scalar in *.
  destruct (lower_char_cases c) as [->|[Hr ->]]; lia.
Qed.

Lemma header_pair_canonical (piece : str) :
  no_crlf piece -> Forall scalar piece -> canonical (header_pair piece).
Proof.
  intros Hfree Hscalar. unfold canonical, header_pair, header_line. cbn [fst snd].
  destruct (before_prefix 58 piece) as [b Hb].
  destruct (strip_factor (default [] (after_nth 58 1 piece))) as (a1 & b1 & Hstrip).
  assert (exists a2 b2, piece = a2 ++ strip (default [] (after_nth 58 1 piece)) ++ b2)
    as (a2 & b2 & Hv).
  { destruct (after_suffix 58 piece) as [a [Ha|Ha]].
    - exists (a ++ a1), b1. rewrite <- app_assoc, <- Hstrip. exact Ha.
    - exists [], piece. rewrite Ha. reflexivity. }
  set (k := before 58 piece) in *. set (v := strip (default [] (after_nth 58 1 piece))) in *.
  split; [apply lower_idem|].
  split; [intros Hc; apply lower_colon in Hc; exact (before_free _ _ Hc)|].
  split; [apply stripped_strip|].
  change (lit ": " ++ v) with (58 :: 32 :: v). split.
  - apply no_crlf_join; try discriminate.
    + apply no_crlf_lower. apply (no_crlf_factor [] k b). rewrite <- Hb. exact Hfree.
    + apply (no_crlf_join [] v 32); try discriminate; [apply no_crlf_nil|].
      apply (no_crlf_factor a2 v b2). rewrite <- Hv. exact Hfree.
  - apply Forall_app. split.
    + apply scalar_lower. rewrite Hb in Hscalar. apply Forall_app in Hscalar as [Hk _].
      exact Hk.
    + constructor; [left; reflexivity|]. constructor; [left; reflexivity|].
      rewrite Hv in Hscalar. apply Forall_app in Hscalar as [_ Hscalar].
      apply Forall_app in Hscalar as [Hscalar _]. exact Hscalar.
Qed.

Lemma dict_set_fresh (k v : str) (d : dict) :
  ~ In k (map fst d) -> dict_set k v d = d ++ [(k, v)].
Proof.
  induction d as [|[k' v'] d IH]; intros Hk; [reflexivity|].
  cbn [dict_set app]. cbn [map fst] in Hk.
  rewrite decide_False by (intros ->; apply Hk; left; reflexivity).
  rewrite IH; [reflexivity|]. intros Hin. apply Hk. right. exact Hin.
Qed.

(** A dictionary is the dictionary of its own items. *)
Lemma dict_of_items (d : dict) : List.NoDup (map fst d) -> dict_of d = d.
Proof.
  induction d as [|[k v] d IH] using rev_ind; intros Hd; [reflexivity|].
  rewrite map_app in Hd. cbn [map fst] in Hd.
  rewrite dict_of_snoc. cbn [fst snd].
  apply NoDup_remove in Hd as [Hd Hk]. rewrite app_nil_r in Hd, Hk.
  rewrite IH by exact Hd. apply dict_set_fresh. exact Hk.
Qed.

Lemma strip_space (v : str) : stripped v -> strip (32 :: v) = v.
Proof.
  intros Hv. rewrite <- (strip_stripped v Hv) at 2. reflexivity.
Qed.

Lemma header_pair_line (kv : str * str) :
  canonical kv -> header_pair (header_line kv) = kv.
Proof.
  destruct kv as [k v]. unfold canonical, header_pair, header_line. cbn [fst snd].
  intros (Hlower & Hcolon & Hstripped & _).
  change (lit ": " ++ v) with (58 :: 32 :: v).
  rewrite before_app, after_app by exact Hcolon.
  rewrite Hlower. change (default [] (Some (32 :: v))) with (32 :: v).
  rewrite strip_space by exact Hstripped. reflexivity.
Qed.

Lemma split_header_lines (headers : dict) :
  Forall canonical headers ->
  split crlf None (concat (map header_text headers) ++ crlf)
  = map header_line headers ++ [[]; []].
Proof.
  induction 1 as [|kv headers Hkv _ IH]; [reflexivity|].
  cbn [map concat]. unfold header_text at 1.
  replace (((fst kv ++ lit ": " ++ snd kv ++ crlf) ++ concat (map header_text headers))
           ++ crlf)
    with (header_line kv ++ crlf ++ concat (map header_text headers) ++ crlf)
    by (unfold header_line; rewrite <- !app_assoc; reflexivity).
  rewrite split_crlf_app by apply Hkv. rewrite IH. reflexivity.
Qed.

Lemma scalar_forward_text (line : str) (headers : dict) :
  Forall scalar line -> Forall canonical headers ->
  Forall scalar (forward_text line headers).
Proof.
  intros Hline Hheaders. rewrite forward_text_spec.
  assert (Forall scalar crlf) as Hcrlf by (repeat constructor; left; reflexivity).
  apply Forall_app. split; [exact Hline|]. apply Forall_app. split; [exact Hcrlf|].
  apply Forall_app. split; [|exact Hcrlf].
  induction Hheaders as [|kv headers Hkv _ IH]; [constructor|].
  cbn [map concat]. apply Forall_app. split; [|exact IH].
  unfold header_text.
  replace (fst kv ++ lit ": " ++ snd kv ++ crlf) with (header_line kv ++ crlf)
    by (unfold header_line; rewrite <- !app_assoc; reflexivity).
  apply Forall_app. split; [apply Hkv | exact Hcrlf].
Qed.

(** The head forwarded for a request line and headers in normal form parses
    back to them. *)
Lemma parse_forward_text (line : str) (headers : dict) :
  no_crlf line -> Forall scalar line ->
  List.NoDup (map fst headers) -> Forall canonical headers ->
  parse_headers (encode (forward_text line headers)) = Ok (line, headers).
Proof.
  intros Hfree Hscalar Hkeys Hheaders.
  rewrite parse_headers_spec. unfold header_pairs.
  rewrite decode_encode by (apply scalar_forward_text; assumption).
  rewrite forward_text_spec, split_crlf_app by exact Hfree.
  rewrite split_header_lines by exact Hheaders. cbn [hd tl].
  rewrite List.filter_app. cbn [List.filter contains startswith orb app].
  assert (List.filter (contains [58]) (map header_line headers) = map header_line headers)
    as ->.
  { apply forallb_filter_id. apply forallb_forall. intros l Hl.
    apply in_map_iff in Hl as (kv & <- & _). apply contains_single.
    unfold header_line. apply in_or_app. right. left. reflexivity. }
  rewrite app_nil_r, map_map.
  rewrite (map_ext_in _ id), map_id; [rewrite dict_of_items by exact Hkeys; reflexivity|].
  intros kv Hin. apply header_pair_line.
  exact (proj1 (List.Forall_forall _ _) Hheaders kv Hin).
Qed.

(** ** The request line forwarded *)

Lemma words_from_Forall (P : N -> Prop) (s : str) :
  Forall P s ->
  Forall P (fst (words_from s)) /\ Forall (Forall P) (snd (words_from s)).
Proof.
  induction 1 as [|c s Hc _ [IHw IHws]]; [split; constructor|].
  cbn [words_from]. destruct (words_from s) as [w ws]. cbn [fst snd] in *.
  destruct (isspace c); cbn [fst snd].
  - split; [constructor|]. destruct w; cbn [cons_word]; [exact IHws|].
    constructor; assumption.
  - split; [constructor; assumption | exact IHws].
Qed.

Lemma words_from_no_space (s : str) :
  Forall (fun c => isspace c = false) (fst (words_from s)) /\
  Forall (Forall (fun c => isspace c = false)) (snd (words_from s)).
Proof.
  induction s as [|c s [IHw IHws]]; [split; constructor|].
  cbn [words_from]. destruct (words_from s) as [w ws]. cbn [fst snd] in *.
  destruct (isspace c) eqn:Hc; cbn [fst snd].
  - split; [constructor|]. destruct w; cbn [cons_word]; [exact IHws|].
    constructor; assumption.
  - split; [constructor; assumption | exact IHws].
Qed.

(** The tokens of a decoded line are made of plain characters. *)
Lemma split_ws_plain (s : str) : Forall scalar s -> Forall (Forall plain) (split_ws s).
Proof.
  intros Hs. unfold split_ws.
  destruct (words_from_Forall scalar s Hs) as [Hw Hws].
  destruct (words_from_no_space s) as [Nw Nws].
  destruct (words_from s) as [w ws]. cbn [fst snd] in *.
  assert (forall l, Forall scalar l -> Forall (fun c => isspace c = false) l ->
                    Forall plain l) as Hboth.
  { intros l H1 H2. apply List.Forall_forall. intros c Hin. split.
    - exact (proj1 (List.Forall_forall _ _) H1 c Hin).
    - exact (proj1 (List.Forall_forall _ _) H2 c Hin). }
  assert (Forall (Forall plain) ws) as Hplain.
  { apply List.Forall_forall. intros l Hin. apply Hboth.
    - exact (proj1 (List.Forall_forall _ _) Hws l Hin).
    - exact (proj1 (List.Forall_forall _ _) Nws l Hin). }
  destruct w; cbn [cons_word]; [exact Hplain|]. constructor; [|exact Hplain].
  apply Hboth; assumption.
Qed.

Lemma upper_char_cases (c : N) :
  upper_char c = c \/ (97 <= c <= 122 /\ upper_char c = c - 32).
Proof.
  unfold upper_char. destruct ((97 <=? c) && (c <=? 122)) eqn:Hup; [|left; reflexivity].
  right. split; [lia | reflexivity].
Qed.

Lemma plain_upper (s : str) : Forall plain s -> Forall plain (upper s).
Proof.
  intros Hs. unfold upper. apply List.Forall_map.
  eapply List.Forall_impl; [|exact Hs]. intros c [Hc Hspace].
  destruct (upper_char_cases c) as [->|[Hr ->]]; [split; assumption|].
  split; [left; lia | apply isspace_letter; lia].
Qed.

Lemma no_crlf_plain (s : str) : Forall (fun c => c <> 13) s -> no_crlf s.
Proof.
  intros Hs a b ->. apply Forall_app in Hs as [_ Hs].
  apply List.Forall_inv in Hs. congruence.
Qed.

(** The request line written for an absolute URI is made of scalar values
    and holds no carriage return. *)
Lemma rewritten_line_plain (method target version line' : str) :
  Forall plain method -> Forall plain target -> Forall plain version ->
  rbind (origin_path target) (fun path =>
    Ok (method ++ space ++ path ++ space ++ version)) = Ok line' ->
  Forall (fun c => scalar c /\ c <> 13) line'.
Proof.
  intros Hm Ht Hv Hline.
  assert (forall l, Forall plain l -> Forall (fun c => scalar c /\ c <> 13) l) as Hweak.
  { intros l Hl. eapply List.Forall_impl; [|exact Hl]. intros c [Hc Hspace].
    split; [exact Hc|]. intros ->. discriminate Hspace. }
  assert (scalar 32 /\ 32 <> 13) as Hspace by (split; [left; reflexivity | discriminate]).
  destruct (origin_path target) as [path|e] eqn:Hpath; [|discriminate Hline].
  injection Hline as <-.
  assert (Forall plain path) as Hp.
  { unfold origin_path in Hpath.
    assert (plain 47) as Hslash by (split; [left|]; reflexivity).
    destruct (contains (lit "/") (skipn 7 target)).
    - destruct (index (split (lit "/") (Some 3%nat) target) 3) as [rest|e] eqn:Hrest;
        [|discriminate Hpath].
      injection Hpath as <-. constructor; [exact Hslash|].
      unfold index in Hrest.
      destruct (nth_error (split (lit "/") (Some 3%nat) target) 3) as [r|] eqn:Hnth;
        [|discriminate Hrest].
      injection Hrest as <-. apply nth_error_In in Hnth.
      exact (proj1 (List.Forall_forall _ _)
               (split_from_Forall plain _ _ _ _ Ht) r Hnth).
    - injection Hpath as <-. constructor; [exact Hslash | constructor]. }
  apply Forall_app. split; [apply Hweak, Hm|]. constructor; [exact Hspace|].
  apply Forall_app. split; [apply Hweak, Hp|]. constructor; [exact Hspace|].
  apply Hweak, Hv.
Qed.

Lemma parsed_line_and_headers (header_bytes : bytes) (request_line : str) (headers : dict) :
  parse_headers header_bytes = Ok (request_line, headers) ->
  no_crlf request_line /\ Forall scalar request_line /\
  List.NoDup (map fst headers) /\ Forall canonical headers.
Proof.
  rewrite parse_headers_spec. intros Heq. injection Heq as <- <-.
  pose proof (split_crlf_free (decode header_bytes)) as Hfree.
  pose proof (split_from_Forall scalar crlf None O _ (decode_scalar header_bytes))
    as Hscalar.
  fold (split crlf None (decode header_bytes)) in Hscalar.
  unfold header_pairs.
  destruct (split_nonempty crlf None (decode header_bytes)) as (l0 & ls & Hsplit).
  rewrite Hsplit in *. cbn [hd tl].
  apply List.Forall_cons_iff in Hfree as [Hfree0 Hfree].
  apply List.Forall_cons_iff in Hscalar as [Hscalar0 Hscalar].
  split; [exact Hfree0|]. split; [exact Hscalar0|].
  split; [rewrite dict_of_keys; apply first_occurrences_NoDup|].
  apply List.Forall_forall. intros kv Hin. apply dict_of_In in Hin.
  apply in_map_iff in Hin as (piece & <- & Hin). apply filter_In in Hin as [Hin _].
  apply header_pair_canonical.
  - exact (proj1 (List.Forall_forall _ _) Hfree piece Hin).
  - exact (proj1 (List.Forall_forall _ _) Hscalar piece Hin).
Qed.

(** X19. The head the proxy forwards parses back to what it was made from:
    [parse_headers] applied to the bytes sent upstream returns the request
    line written, rewritten or not, and the same headers in the same order.
    So a second proxy of this kind forwards the head unchanged. *)
Theorem forwarded_head_parses_back (header_bytes : bytes)
    (request_line line : str) (headers : dict) (method target version : str) :
  parse_headers header_bytes = Ok (request_line, headers) ->
  split_ws request_line = [method; target; version] ->
  rewrite_request_line (upper method) target version request_line = Ok line ->
  parse_headers (encode (forward_text line headers)) = Ok (line, headers).
Proof.
  intros Hparse Hparts Hline.
  destruct (parsed_line_and_headers _ _ _ Hparse) as (Hfree & Hscalar & Hkeys & Hheaders).
  pose proof (split_ws_plain _ Hscalar) as Htokens. rewrite Hparts in Htokens.
  apply List.Forall_cons_iff in Htokens as [Hm Htokens].
  apply List.Forall_cons_iff in Htokens as [Ht Htokens].
  apply List.Forall_cons_iff in Htokens as [Hv _].
  unfold rewrite_request_line in Hline.
  destruct (startswith (lit "http://") target).
  - pose proof (rewritten_line_plain _ _ _ _ (plain_upper _ Hm) Ht Hv Hline) as Hplain.
    apply parse_forward_text; try assumption.
    + apply no_crlf_plain. eapply List.Forall_impl; [|exact Hplain].
      intros c [_ Hc]. exact Hc.
    + eapply List.Forall_impl; [|exact Hplain]. intros c [Hc _]. exact Hc.
  - injection Hline as <-. apply parse_forward_text; assumption.
Qed.

Lemma forwarded_head_parses_back_witness :
  parse_headers
    (encode (forward_text (lit "GET /a HTTP/1.1")
               [(lit "host", lit "b.org"); (lit "x-a", lit "v")]))
  = Ok (lit "GET /a HTTP/1.1", [(lit "host", lit "b.org"); (lit "x-a", lit "v")]).
Proof.
  apply (forwarded_head_parses_back
           (header_block ["get http://example.com/a HTTP/1.1"; "Host: Example.com";
                          "X-A:  v "; "HOST:b.org"]%string)
           (lit "get http://example.com/a HTTP/1.1") _ _
           (lit "get") (lit "http://example.com/a") (lit "HTTP/1.1")).
  - vm_compute. reflexivity.
  - vm_compute. reflexivity.
  - vm_compute. reflexivity.
Defined.

(** X20. The destination of a plaintext request is read from the [Host]
    header alone, an empty text when the header is missing.  Without a colon
    the text, in lower case, is the host and the port is 80; with one colon
    it is a host and a port that [int] reads.  Any other text, such as one
    with two colons or with nothing after the colon, raises [ValueError]. *)
Theorem host_header_destination (headers : dict) :
  (forall host port,
     forward_destination headers = Ok (host, port) <->
     (~ In 58 (dict_get (lit "host") [] headers) /\
      host = lower (dict_get (lit "host") [] headers) /\ port = 80%Z) \/
     (exists h p,
        dict_get (lit "host") [] headers = h ++ lit ":" ++ p /\
        ~ In 58 h /\ ~ In 58 p /\ host = lower h /\ py_int p = Some port)) /\
  (forall e, forward_destination headers = Raise e -> e = ValueError).
Proof.
  unfold forward_destination. set (value := dict_get (lit "host") [] headers).
  change (lit ":") with [58].
  destruct (contains [58] value) eqn:Hc.
  - apply contains_single in Hc. split.
    + intros host port. split.
      * destruct (unpack2 (split [58] None value)) as [[h p]|e] eqn:Hsplit;
          cbn [rbind]; [|discriminate].
        apply unpack2_ok in Hsplit. apply split_pair in Hsplit as (Hvalue & Hh & Hp).
        destruct (py_int p) as [n|] eqn:Hint; cbn [or_raise rbind]; [|discriminate].
        intros Heq. injection Heq as <- <-. right. exists h, p.
        repeat split; assumption.
      * intros [(Hfree & _)|(h & p & Hvalue & Hh & Hp & -> & Hint)]; [tauto|].
        rewrite (proj2 (split_pair 58 value h p)) by (repeat split; assumption).
        cbn [unpack2 rbind]. rewrite Hint. reflexivity.
    + intros e. destruct (split [58] None value) as [|h [|p [|x l]]];
        cbn [unpack2 rbind]; try (intros Heq; injection Heq as <-; reflexivity).
      destruct (py_int p); cbn [or_raise rbind]; [discriminate|].
      intros Heq. injection Heq as <-. reflexivity.
  - assert (~ In 58 value) as Hfree.
    { intros Hin. apply contains_single in Hin. congruence. }
    cbn [rbind]. split; [|discriminate].
    intros host port. split.
    + intros Heq. injection Heq as <- <-. left. repeat split. exact Hfree.
    + intros [(_ & -> & ->)|(h & p & Hvalue & _)]; [reflexivity|].
      exfalso. apply Hfree. rewrite Hvalue. apply in_or_app. right. left. reflexivity.
Qed.

Example host_header_ex :
  forward_destination [] = Ok ([], 80%Z) /\
  forward_destination [(lit "host", lit "Example.COM:8080")] = Ok (lit "example.com", 8080%Z) /\
  forward_destination [(lit "host", lit "[::1]:80")] = Raise ValueError /\
  forward_destination [(lit "host", lit "example.com:")] = Raise ValueError.
Proof. repeat split. Qed.
